(** * MCUboot: flash-area port (espressif) and SMP-over-UDP recovery (zephyr)

    A shallow embedding of
      - [boot/espressif/port/esp_mcuboot.c]: the flash-area registry and the
        read / write / erase wrappers over the raw SPI-flash driver;
      - [boot/zephyr/boot_udp.c]: the SMP header check and routing, the reply
        framing, the image upload state machine and the set-by-hash handler.

    Conventions.  C integers are [Z] with the wrap-around of their type
    written out ([u32], [u16], [u8]); the targets are ILP32, so [size_t],
    [uintptr_t] and [uint32_t] all wrap at [2^32].  A byte is a [Z] in
    [0, 256); buffers are [list Z].  A C [int] return code is a [Z]. *)

From Stdlib Require Import ZArith Lia Bool Ascii String.
From stdpp Require Import base list.

Local Open Scope Z_scope.

(** ** Machine integers *)

Definition u32 (x : Z) : Z := x mod 2 ^ 32.
Definition u16 (x : Z) : Z := x mod 2 ^ 16.
Definition u8 (x : Z) : Z := x mod 2 ^ 8.

Definition UINT_MAX : Z := 2 ^ 32 - 1.
Definition SIZE_MAX : Z := 2 ^ 32 - 1.
Definition INT_MAX : Z := 2 ^ 31 - 1.

(** Conversion of a 32-bit unsigned value to [int] (two's complement). *)
Definition to_int (x : Z) : Z :=
  let y := u32 x in if y <=? INT_MAX then y else y - 2 ^ 32.

Definition is_byte (b : Z) : Prop := 0 <= b < 256.

(** [take] and [drop] at a [Z] count, as pointer arithmetic on a buffer. *)
Definition ztake (n : Z) (l : list Z) : list Z := take (Z.to_nat n) l.
Definition zdrop (n : Z) (l : list Z) : list Z := drop (Z.to_nat n) l.
Definition zlen (l : list Z) : Z := Z.of_nat (length l).

(** [memcpy(dst, src, n)] on a destination buffer held as a list: the first
    [n] bytes of [dst] are replaced by the first [n] bytes of [src]. *)
Definition memcpy (dst src : list Z) (n : Z) : list Z :=
  ztake n src ++ zdrop n dst.

(** [memset(buf, v, sizeof buf)] for a buffer of [n] bytes. *)
Definition memset (v : Z) (n : Z) : list Z := replicate (Z.to_nat n) v.

(** * Part I: esp_mcuboot.c *)

Module Flash.

(** The alignment macros of the port, at 32-bit unsigned operands. *)
Definition MIN (a b : Z) : Z := if a <? b then a else b.
Definition ALIGN_UP (num align : Z) : Z :=
  u32 (Z.land (u32 (num + (align - 1))) (Z.lnot (align - 1))).
Definition ALIGN_DOWN (num align : Z) : Z :=
  u32 (Z.land num (Z.lnot (align - 1))).
Definition ALIGN_OFFSET (num align : Z) : Z := Z.land num (align - 1).
Definition IS_ALIGNED (num align : Z) : bool := ALIGN_OFFSET num align =? 0.

Definition FLASH_BUFFER_SIZE : Z := 256.

(** [struct flash_area]. *)
Record flash_area : Type := mk_flash_area {
  fa_id : Z;
  fa_device_id : Z;
  fa_off : Z;
  fa_size : Z
}.

(** ** The raw driver

    The calls the port makes to the SPI-flash driver, in program order. *)
Inductive raw_op : Type :=
| RawRead (addr size : Z)
| RawWrite (addr : Z) (data : list Z)
| RawErase (addr len : Z).

(** The device: the bytes of the chip and the log of raw driver calls. *)
Record chip : Type := mk_chip {
  cells : list Z;
  oplog : list raw_op
}.

(** The raw calls that leave the bytes of the chip alone. *)
Definition is_raw_read (op : raw_op) : bool :=
  match op with RawRead _ _ => true | _ => false end.

(** A computation over the device. *)
Definition M (A : Type) : Type := chip -> A * chip.
Definition ret {A} (a : A) : M A := fun c => (a, c).
Definition bind {A B} (m : M A) (k : A -> M B) : M B :=
  fun c => let '(a, c') := m c in k a c'.
Definition log_op (op : raw_op) : M unit :=
  fun c => (tt, mk_chip (cells c) (oplog c ++ [op])).

Notation "x <- m ;; k" := (bind m (fun x => k))
  (at level 100, m at next level, right associativity).
Notation "m ;;; k" := (bind m (fun _ => k))
  (at level 100, right associativity).

Definition in_chip (addr size : Z) (c : chip) : bool :=
  (0 <=? addr) && (0 <=? size) && (addr + size <=? zlen (cells c)).

(** Modelled from the spec: [bootloader_flash_read], [bootloader_flash_write]
    and [bootloader_flash_erase_range] belong to the vendor HAL, which is not
    part of the sources.  The raw driver requires a 4-byte-aligned address and
    a 4-byte-aligned length for reads and writes; erased bytes read [0xFF].
    Programming NOR flash can only clear bits, so a write stores the bitwise
    AND of the old and the new byte.  A call outside the chip fails, and so
    does a write of more bytes than [src] holds.  Every call, failing or not,
    is logged.  [None] stands for a result other than [ESP_OK]. *)
Definition bootloader_flash_read (addr size : Z) : M (option (list Z)) :=
  log_op (RawRead addr size) ;;;
  fun c =>
    if IS_ALIGNED addr 4 && IS_ALIGNED size 4 && in_chip addr size c
    then (Some (ztake size (zdrop addr (cells c))), c)
    else (None, c).

Definition program (old new : list Z) : list Z := zip_with Z.land old new.

Definition bootloader_flash_write (addr : Z) (src : list Z) (size : Z)
  : M bool :=
  log_op (RawWrite addr (ztake size src)) ;;;
  fun c =>
    if IS_ALIGNED addr 4 && IS_ALIGNED size 4 && in_chip addr size c
       && (size <=? zlen src)
    then (true,
          mk_chip (ztake addr (cells c)
                   ++ program (ztake size (zdrop addr (cells c))) (ztake size src)
                   ++ zdrop (addr + size) (cells c))
                  (oplog c))
    else (false, c).

Definition bootloader_flash_erase_range (addr len : Z) : M bool :=
  log_op (RawErase addr len) ;;;
  fun c =>
    if in_chip addr len c
    then (true,
          mk_chip (ztake addr (cells c) ++ memset 255 len
                   ++ zdrop (addr + len) (cells c))
                  (oplog c))
    else (false, c).

(** The bytes of the chip after programming [data] at [addr]. *)
Definition programmed (cs : list Z) (addr : Z) (data : list Z) : list Z :=
  ztake addr cs ++ program (ztake (zlen data) (zdrop addr cs)) data
  ++ zdrop (addr + zlen data) cs.

(** The bytes of the chip after erasing [len] bytes at [addr]. *)
Definition erased (cs : list Z) (addr len : Z) : list Z :=
  ztake addr cs ++ memset 255 len ++ zdrop (addr + len) cs.

(** ** Board configuration

    Constants of [sysflash.h] and of the build configuration, which the port
    includes but the sources do not contain. *)
Record sysflash : Type := mk_sysflash {
  FLASH_DEVICE_INTERNAL_FLASH : Z;
  FLASH_SECTOR_SIZE : Z;
  FLASH_AREA_BOOTLOADER : Z;
  FLASH_AREA_IMAGE_PRIMARY : Z -> Z;
  FLASH_AREA_IMAGE_SECONDARY : Z -> Z;
  FLASH_AREA_IMAGE_SCRATCH : Z;
  BOOTLOADER_SIZE : Z;
  APPLICATION_PRIMARY_START_ADDRESS : Z;
  APPLICATION_SECONDARY_START_ADDRESS : Z;
  APPLICATION_SIZE : Z;
  SCRATCH_OFFSET : Z;
  SCRATCH_SIZE : Z
}.

Definition BOOTLOADER_START_ADDRESS : Z := 0x1000.

Section Port.

Variable cfg : sysflash.

Definition bootloader : flash_area :=
  mk_flash_area (FLASH_AREA_BOOTLOADER cfg) (FLASH_DEVICE_INTERNAL_FLASH cfg)
                BOOTLOADER_START_ADDRESS (BOOTLOADER_SIZE cfg).
Definition primary_img0 : flash_area :=
  mk_flash_area (FLASH_AREA_IMAGE_PRIMARY cfg 0) (FLASH_DEVICE_INTERNAL_FLASH cfg)
                (APPLICATION_PRIMARY_START_ADDRESS cfg) (APPLICATION_SIZE cfg).
Definition secondary_img0 : flash_area :=
  mk_flash_area (FLASH_AREA_IMAGE_SECONDARY cfg 0) (FLASH_DEVICE_INTERNAL_FLASH cfg)
                (APPLICATION_SECONDARY_START_ADDRESS cfg) (APPLICATION_SIZE cfg).
Definition scratch_img0 : flash_area :=
  mk_flash_area (FLASH_AREA_IMAGE_SCRATCH cfg) (FLASH_DEVICE_INTERNAL_FLASH cfg)
                (SCRATCH_OFFSET cfg) (SCRATCH_SIZE cfg).

Definition s_flash_areas : list flash_area :=
  [bootloader; primary_img0; secondary_img0; scratch_img0].

(** [prv_lookup_flash_area]: first entry of the table with the given id;
    [None] is the [NULL] result. *)
Fixpoint lookup_area (id : Z) (areas : list flash_area) : option flash_area :=
  match areas with
  | [] => None
  | area :: rest => if id =? fa_id area then Some area else lookup_area id rest
  end.

Definition prv_lookup_flash_area (id : Z) : option flash_area :=
  lookup_area id s_flash_areas.

(** [flash_area_open]: the id parameter is a [uint8_t]. *)
Definition flash_area_open (id : Z) : Z * option flash_area :=
  let area := prv_lookup_flash_area (u8 id) in
  (match area with Some _ => 0 | None => -1 end, area).

Definition flash_area_align (fa : flash_area) : Z := 4.
Definition flash_area_erased_val (fa : flash_area) : Z := 0xff.

(** [aligned_flash_read].  [dest_aligned] tells whether the destination
    pointer is 4-byte aligned.  The result is the [size] bytes delivered to
    [dest], or [None] when a raw read failed ([false] in C). *)
Fixpoint read_remaining (fuel : nat) (aligned_addr offset bytes_read
                         bytes_remaining : Z) (dest : list Z)
  : M (option (list Z)) :=
  if bytes_remaining =? 0 then ret (Some dest)
  else match fuel with
       | O => ret None
       | S fuel' =>
         let bytes := MIN bytes_remaining FLASH_BUFFER_SIZE in
         r <- bootloader_flash_read (u32 (aligned_addr + offset))
                                    (ALIGN_UP bytes 4) ;;
         match r with
         | None => ret None
         | Some read_data =>
           read_remaining fuel' aligned_addr (u32 (offset + bytes))
                          (u32 (bytes_read + bytes))
                          (u32 (bytes_remaining - bytes))
                          (dest ++ ztake bytes read_data)
         end
       end.

Definition aligned_flash_read (addr : Z) (dest_aligned : bool) (size : Z)
  : M (option (list Z)) :=
  if IS_ALIGNED addr 4 && dest_aligned && IS_ALIGNED size 4
  then bootloader_flash_read addr size
  else
    let aligned_addr := ALIGN_DOWN addr 4 in
    let addr_offset := ALIGN_OFFSET addr 4 in
    let bytes_remaining := size in
    let bytes := MIN (u32 (bytes_remaining + addr_offset)) FLASH_BUFFER_SIZE in
    r <- bootloader_flash_read aligned_addr (ALIGN_UP bytes 4) ;;
    match r with
    | None => ret None
    | Some read_data =>
      let bytes_read := u32 (bytes - addr_offset) in
      let dest := ztake bytes_read (zdrop addr_offset read_data) in
      let bytes_remaining := u32 (bytes_remaining - bytes_read) in
      let offset := bytes in
      read_remaining (Z.to_nat bytes_remaining) aligned_addr offset bytes_read
                     bytes_remaining dest
    end.

(** [flash_area_read]: [Some bytes] is return code 0 with the bytes stored
    to [dst]; [None] is return code -1. *)
Definition flash_area_read (fa : flash_area) (off : Z) (dst_aligned : bool)
                           (len : Z) : M (option (list Z)) :=
  if negb (fa_device_id fa =? FLASH_DEVICE_INTERNAL_FLASH cfg) then ret None
  else
    let end_offset := u32 (off + len) in
    if end_offset >? fa_size fa then ret None
    else aligned_flash_read (u32 (fa_off fa + off)) dst_aligned len.

(** [flash_area_write] of the first [len] bytes of [src]. *)
Definition flash_area_write (fa : flash_area) (off : Z) (src : list Z)
                            (len : Z) : M Z :=
  let write_len := len in
  let write_data := [0; 0; 0; 0] in
  let write_ptr := src in
  if negb (fa_device_id fa =? FLASH_DEVICE_INTERNAL_FLASH cfg) then ret (-1)
  else
    let end_offset := u32 (off + len) in
    if end_offset >? fa_size fa then ret (-1)
    else
      let start_addr := u32 (fa_off fa + off) in
      w <- (if len <? 4 then
              r <- flash_area_read fa start_addr true 4 ;;
              let write_data :=
                match r with Some word => word | None => write_data end in
              let write_data := memcpy write_data src len in
              ret (write_data, 4)
            else ret (write_ptr, write_len)) ;;
      ok <- bootloader_flash_write start_addr (fst w) (snd w) ;;
      if ok then ret 0 else ret (-1).

(** [flash_area_erase]. *)
Definition flash_area_erase (fa : flash_area) (off len : Z) : M Z :=
  if negb (fa_device_id fa =? FLASH_DEVICE_INTERNAL_FLASH cfg) then ret (-1)
  else if negb (len mod FLASH_SECTOR_SIZE cfg =? 0)
          || negb (off mod FLASH_SECTOR_SIZE cfg =? 0) then ret (-1)
  else
    let start_addr := u32 (fa_off fa + off) in
    ok <- bootloader_flash_erase_range start_addr len ;;
    if ok then ret 0 else ret (-1).

(** [struct flash_sector]; both fields are [uint32_t]. *)
Record flash_sector : Type := mk_flash_sector {
  fs_off : Z;
  fs_size : Z
}.

(** The [for] loop of [flash_area_get_sectors]: [off] is a [size_t],
    [total_count] a [uint32_t], and [sectors] holds the entries stored so
    far.  The C loop has no bound of its own; the model runs at most [fuel]
    iterations and gives [None] when they do not suffice. *)
Fixpoint sectors_loop (fuel : nat) (area_size sector_size off total_count : Z)
                      (sectors : list flash_sector)
  : option (Z * list flash_sector) :=
  if off <? area_size then
    match fuel with
    | O => None
    | S fuel' =>
      sectors_loop fuel' area_size sector_size (u32 (off + sector_size))
                   (u32 (total_count + 1))
                   (sectors ++ [mk_flash_sector off sector_size])
    end
  else Some (total_count, sectors).

Inductive sectors_outcome : Type :=
| SectorsNull          (* the lookup gave [NULL], which is dereferenced *)
| SectorsLoop          (* the loop did not end within the fuel *)
| SectorsError         (* return code -1; nothing is stored *)
| SectorsOk (count : Z) (sectors : list flash_sector).   (* return code 0 *)

(** [flash_area_get_sectors].  The [int] id is converted to the [uint8_t]
    parameter of the lookup; the capacity of the caller's array is not an
    input of the function. *)
Definition flash_area_get_sectors (fuel : nat) (fa_id : Z) : sectors_outcome :=
  match prv_lookup_flash_area (u8 fa_id) with
  | None => SectorsNull
  | Some fa =>
    if negb (fa_device_id fa =? FLASH_DEVICE_INTERNAL_FLASH cfg)
    then SectorsError
    else
      let sector_size := u32 (FLASH_SECTOR_SIZE cfg) in
      match sectors_loop fuel (fa_size fa) sector_size 0 0 [] with
      | None => SectorsLoop
      | Some (total_count, sectors) => SectorsOk total_count sectors
      end
  end.

(** [flash_area_id_from_multi_image_slot]. *)
Definition flash_area_id_from_multi_image_slot (image_index slot : Z) : Z :=
  if slot =? 0 then FLASH_AREA_IMAGE_PRIMARY cfg image_index
  else if slot =? 1 then FLASH_AREA_IMAGE_SECONDARY cfg image_index
  else -1.

Definition flash_area_id_from_image_slot (slot : Z) : Z :=
  flash_area_id_from_multi_image_slot 0 slot.

End Port.

End Flash.

(** * Part II: boot_udp.c *)

Module Smp.

Import Flash.

Definition MGMT_ERR_OK : Z := 0.
Definition MGMT_ERR_EUNKNOWN : Z := 1.
Definition MGMT_ERR_ENOMEM : Z := 2.
Definition MGMT_ERR_EINVAL : Z := 3.
Definition MGMT_ERR_ENOENT : Z := 5.
Definition MGMT_ERR_ENOTSUP : Z := 8.
Definition MGMT_ERR_EBUSY : Z := 10.

Definition NMGR_OP_READ : Z := 0.
Definition NMGR_OP_WRITE : Z := 2.

Definition MGMT_GROUP_ID_OS : Z := 0.
Definition MGMT_GROUP_ID_IMAGE : Z := 1.
Definition MGMT_GROUP_ID_PERUSER : Z := 64.

Definition NMGR_ID_RESET : Z := 5.
Definition NMGR_ID_PARAMS : Z := 6.

Definition NMGR_ID_STATE : Z := 0.
Definition NMGR_ID_UPLOAD : Z := 1.
Definition NMGR_ID_SLOT_INFO : Z := 6.

(** ** [struct nmgr_hdr] over the first eight bytes of a buffer

    The struct is packed; the host is little-endian, and the bit-field
    [nh_op : 3] occupies the three low bits of byte 0. *)
Definition sizeof_hdr : Z := 8.

(** [sizeof(udp_buffer)]. *)
Definition UDP_BUFFER_SIZE : Z := 2048.

Definition byte_at (buf : list Z) (i : nat) : Z := default 0 (buf !! i).

Definition load16 (buf : list Z) (i : nat) : Z :=
  byte_at buf i + 256 * byte_at buf (S i).
Definition store16 (buf : list Z) (i : nat) (v : Z) : list Z :=
  <[S i := u16 v / 256]> (<[i := u16 v mod 256]> buf).

Definition nh_op (buf : list Z) : Z := Z.land (byte_at buf 0) 7.
Definition nh_flags (buf : list Z) : Z := byte_at buf 1.
Definition nh_len (buf : list Z) : Z := load16 buf 2.
Definition nh_group (buf : list Z) : Z := load16 buf 4.
Definition nh_seq (buf : list Z) : Z := byte_at buf 6.
Definition nh_id (buf : list Z) : Z := byte_at buf 7.

(** [htons] / [ntohs] on a little-endian host: swap the two bytes. *)
Definition htons (x : Z) : Z := u16 x mod 256 * 256 + u16 x / 256.
Definition ntohs (x : Z) : Z := htons x.

(** ** [boot_grp_procces]: header check and routing

    The handler the dispatcher calls, with the arguments it passes. *)
Inductive handler_call : Type :=
| Call_bs_list_set (op : Z) (buf : list Z) (len : Z)
| Call_bs_upload (buf : list Z) (len : Z)
| Call_bs_slot_info (op : Z) (buf : list Z) (len : Z)
| Call_bs_reset (buf : list Z) (len : Z)
| Call_bs_params (op : Z) (buf : list Z) (len : Z)
| Call_bs_rc_rsp (rc_code : Z).

(** [None]: the early [return] (nothing is called, nothing is sent).
    [Some (udp_buffer', call)]: the receive buffer after the in-place
    [ntohs] of [nh_group], and the handler called. *)
Definition boot_grp_procces (buf : list Z) (len : Z)
  : option (list Z * handler_call) :=
  if (len <? sizeof_hdr)
     || (negb (nh_op buf =? NMGR_OP_READ) && negb (nh_op buf =? NMGR_OP_WRITE))
     || (ntohs (nh_len buf) <? u32 (len - sizeof_hdr))
  then None
  else
    let hdr := store16 buf 4 (ntohs (nh_group buf)) in
    let buf := zdrop sizeof_hdr hdr in
    let len := u32 (len - sizeof_hdr) in
    Some (hdr,
      if nh_group hdr =? MGMT_GROUP_ID_IMAGE then
        if nh_id hdr =? NMGR_ID_STATE then Call_bs_list_set (nh_op hdr) buf len
        else if nh_id hdr =? NMGR_ID_UPLOAD then Call_bs_upload buf len
        else if nh_id hdr =? NMGR_ID_SLOT_INFO
             then Call_bs_slot_info (nh_op hdr) buf len
        else Call_bs_rc_rsp MGMT_ERR_ENOTSUP
      else if nh_group hdr =? MGMT_GROUP_ID_OS then
        if nh_id hdr =? NMGR_ID_RESET then Call_bs_reset buf len
        else if nh_id hdr =? NMGR_ID_PARAMS then Call_bs_params (nh_op hdr) buf len
        else Call_bs_rc_rsp MGMT_ERR_ENOTSUP
      else Call_bs_rc_rsp MGMT_ERR_ENOTSUP).

(** ** [boot_grp_send] and [bs_reset]: the reply datagram

    [obuf] holds the bytes of [bs_obuf] up to [payload_mut], the output of the
    CBOR encoder.  The result is the receive buffer after the update and the
    datagram handed to [zsock_sendto]. *)
Definition boot_grp_send (udp_buffer obuf : list Z) : list Z * list Z :=
  let len := zlen obuf in
  let hdr := store16 udp_buffer 2 (htons len) in
  let hdr := store16 hdr 4 (htons (nh_group hdr)) in
  let udp_buffer := ztake sizeof_hdr hdr
                    ++ memcpy (zdrop sizeof_hdr hdr) obuf len in
  let len := len + sizeof_hdr in
  (udp_buffer, ztake len udp_buffer).

Definition bs_reset (udp_buffer : list Z) : list Z * list Z :=
  let hdr := store16 udp_buffer 2 0 in
  let hdr := store16 hdr 4 (htons (nh_group hdr)) in
  (hdr, ztake sizeof_hdr hdr).

(** ** Replies

    The CBOR map a handler encodes, as its key / value pairs in order. *)
Definition reply : Type := list (string * Z).

(** The map written at label [out] of [bs_upload] and by [bs_rc_rsp]. *)
Definition rc_reply (rc : Z) (off : Z) : reply :=
  if rc =? 0 then [("rc"%string, rc); ("off"%string, off)]
  else [("rc"%string, rc)].

(** ** External collaborators of the handlers

    Calls that leave the file, in program order. *)
Inductive ext_call : Type :=
| ProgressBar (idx : Z)
| UploadedHook (img_num : Z) (img_size : Z)
| SetPending (image_index : Z) (permanent : bool).

(** One step of the TLV iterator: [bootutil_tlv_iter_next] returning a
    negative code, or an entry; the end of the list is the positive code. *)
Inductive tlv_next : Type :=
| TlvError
| TlvEntry (offset len type : Z).

(** What the bootloader core reports for a slot of an image, at the places
    [bs_set] and [bs_list] consult it.  The layout of [struct image_header]
    and [IMAGE_MAGIC] are bootutil's: the test of the magic is taken by its
    outcome. *)
Record slot_probe : Type := mk_slot_probe {
  (** [boot_read_image_header_hook] returns [BOOT_HOOK_REGULAR], so that the
      handler reads the header itself; always so in a build without hooks *)
  sp_hook_regular : bool;
  (** [hdr.ih_magic == IMAGE_MAGIC] on the header the hook or the read left *)
  sp_magic : bool;
  (** [fih_rc == FIH_SUCCESS] after the check hook / [bootutil_img_validate] *)
  sp_fih_success : bool;
  (** [bootutil_tlv_iter_begin]: [None] when it fails, else the entries *)
  sp_tlv : option (list tlv_next)
}.

(** Constants and functions of bootutil and of the build configuration that
    [boot_udp.c] uses but the sources do not contain. *)
Record bootutil : Type := mk_bootutil {
  BOOT_IMAGE_NUMBER : Z;
  BOOT_MAX_ALIGN : Z;
  IMAGE_HASH_SIZE : Z;
  IMAGE_SHA_TLV : Z;
  (** [BOOT_HOOK_CALL(boot_serial_uploaded_hook, 0, img_num, fap, img_size)] *)
  boot_serial_uploaded_hook : Z -> flash_area -> Z -> Z;
  boot_set_pending_multi : Z -> bool -> Z;
  secondary_probe : Z -> slot_probe;
  (** whether the local array [hash] of the caller is 4-byte aligned *)
  hash_buf_aligned : bool;
  (** [sizeof(struct image_header)] *)
  sizeof_image_header : Z
}.

(** ** [proccess_bar_print]

    The function fills [sbuf[256]] with [idx] marks after the title and
    [total - idx] blanks; both counts are converted to [size_t] by [memset].
    The result tells whether every store stays inside [sbuf]. *)
Definition title : string := "Firmware upgrade proccess".

Definition proccess_bar_print (title_len idx total : Z) : bool :=
  let sbuf_size := 256 in
  let offset := title_len + 3 in
  let fill := u32 idx in
  (offset + fill <=? sbuf_size)
  && (let offset := offset + idx in
      if negb (idx =? total)
      then offset + u32 (total - idx) <=? sbuf_size
      else true).

(** ** [bs_upload] *)

(** The [static] variables of [bs_upload]. *)
Record upload_state : Type := mk_upload_state {
  img_size : Z;
  curr_off : Z;
  img_num : Z
}.

Definition upload_init : upload_state := mk_upload_state 0 0 0.

(** The entries of the request map, as the decode loop classifies them. *)
Inductive upload_field : Type :=
| F_image (v : Z)
| F_data (bytes : list Z)
| F_len (v : Z)
| F_off (v : Z)
| F_skip.

(** The locals the decode loop assigns.  [img_chunk_data] is [None] for a
    [NULL] value pointer, else the bytes it points to. *)
Record upload_locals : Type := mk_upload_locals {
  img_num_tmp : Z;
  img_chunk_data : option (list Z);
  img_size_tmp : Z;
  img_chunk_off : Z
}.

Definition decode_field (l : upload_locals) (f : upload_field) : upload_locals :=
  match f with
  | F_image v => mk_upload_locals (u32 v) (img_chunk_data l) (img_size_tmp l)
                                  (img_chunk_off l)
  | F_data b => mk_upload_locals (img_num_tmp l) (Some b) (img_size_tmp l)
                                 (img_chunk_off l)
  | F_len v => mk_upload_locals (img_num_tmp l) (img_chunk_data l) (u32 v)
                                (img_chunk_off l)
  | F_off v => mk_upload_locals (img_num_tmp l) (img_chunk_data l)
                                (img_size_tmp l) (u32 v)
  | F_skip => l
  end.

(** [img_chunk_data] has no initialiser: [stack] is what the struct holds
    when the map has no "data" entry. *)
Definition decode_upload (stack : option (list Z)) (fields : list upload_field)
  : upload_locals :=
  fold_left decode_field fields
            (mk_upload_locals UINT_MAX stack SIZE_MAX SIZE_MAX).

(** A map entry that leaves [img_chunk_off] at [SIZE_MAX], and one that
    leaves [img_chunk_data] alone. *)
Definition no_offset (f : upload_field) : Prop :=
  match f with F_off v => u32 v = SIZE_MAX | _ => True end.

Definition no_data (f : upload_field) : Prop :=
  match f with F_data _ => False | _ => True end.

(** The state a request runs in and leaves behind. *)
Record world : Type := mk_world {
  ust : upload_state;
  dev : chip;
  calls : list ext_call
}.

Inductive fault : Type :=
| DivisionByZero
| BufferOverrun.

Inductive outcome : Type :=
| Fault (f : fault)
| Replied (r : reply) (w : world).

Section Handlers.

Variable cfg : sysflash.
Variable env : bootutil.

(** Label [out] of [bs_upload]. *)
Definition upload_out (rc : Z) (st : upload_state) (d : chip)
                      (cs : list ext_call) : outcome :=
  Replied (rc_reply rc (curr_off st)) (mk_world st d cs).

(** Lines 457-461: the split of the chunk into whole words and a residue.
    The result is [img_chunk_len] and [rem_bytes] as line 462 sees them. *)
Definition upload_split (fap : flash_area) (img_chunk : list Z)
                        (st : upload_state) : Z * Z :=
  let img_chunk_len := zlen img_chunk in
  let rem_bytes := img_chunk_len mod flash_area_align fap in
  let img_chunk_len := u32 (img_chunk_len - rem_bytes) in
  let rem_bytes :=
    if u32 (curr_off st + img_chunk_len + rem_bytes) <? img_size st
    then 0 else rem_bytes in
  (img_chunk_len, rem_bytes).

(** Lines 467-475: the write of the whole words, then of the padded residue.
    The result is [rc] as line 476 sees it. *)
Definition upload_store (fap : flash_area) (img_chunk : list Z)
                        (st : upload_state) : M Z :=
  let '(img_chunk_len, rem_bytes) := upload_split fap img_chunk st in
  rc <- flash_area_write cfg fap (curr_off st) img_chunk img_chunk_len ;;
  if (rc =? 0) && negb (rem_bytes =? 0) then
    let wbs_aligned := memset (flash_area_erased_val fap)
                              (BOOT_MAX_ALIGN env) in
    let wbs_aligned := memcpy wbs_aligned (zdrop img_chunk_len img_chunk)
                              rem_bytes in
    flash_area_write cfg fap (u32 (curr_off st + img_chunk_len))
                     wbs_aligned (flash_area_align fap)
  else ret rc.

(** Lines 463-466: the two progress percentages and the progress bar.
    [None] is a division by zero; otherwise the calls made, and whether the
    progress bar stayed inside its buffer. *)
Definition upload_progress (img_chunk_len : Z) (st : upload_state)
  : option (list ext_call * bool) :=
  if img_size st =? 0 then None
  else
    let idx_old := to_int (u32 (curr_off st * 100) / img_size st) in
    let idx := to_int (u32 (u32 (curr_off st + img_chunk_len) * 100)
                       / img_size st) in
    if negb (idx_old =? idx)
    then Some ([ProgressBar idx],
               proccess_bar_print (Z.of_nat (String.length title)) idx 100)
    else Some ([], true).

(** Lines 457-490: the write of an accepted chunk. *)
Definition upload_write (fap : flash_area) (img_chunk : list Z)
                        (st : upload_state) (d : chip) (cs : list ext_call)
  : outcome :=
  let '(img_chunk_len, rem_bytes) := upload_split fap img_chunk st in
  match upload_progress img_chunk_len st with
  | None => Fault DivisionByZero
  | Some (_, false) => Fault BufferOverrun
  | Some (bar, true) =>
    let cs := cs ++ bar in
    let '(rc, d) := upload_store fap img_chunk st d in
    if rc =? 0 then
      let st := mk_upload_state (img_size st)
                  (u32 (curr_off st + u32 (img_chunk_len + rem_bytes)))
                  (img_num st) in
      if curr_off st =? img_size st then
        let rc := boot_serial_uploaded_hook env (img_num st) fap (img_size st) in
        let cs := cs ++ [UploadedHook (img_num st) (img_size st)] in
        if negb (rc =? 0) then upload_out rc st d cs
        else
          let rc := boot_set_pending_multi env 0 true in
          upload_out rc st d (cs ++ [SetPending 0 true])
      else upload_out rc st d cs
    else upload_out MGMT_ERR_EINVAL st d cs
  end.

(** The secondary area of image [n], when it opens. *)
Definition secondary_of (n : Z) : option flash_area :=
  snd (flash_area_open cfg
         (flash_area_id_from_multi_image_slot cfg (to_int n) 1)).

(** The image number a chunk at offset 0 selects. *)
Definition chosen_image (l : upload_locals) : Z :=
  if negb (img_num_tmp l =? UINT_MAX) then img_num_tmp l else 0.

(** Lines 400-456: what the handler decides before it writes.  Either the
    request ends at label [out] with a reply, or the chunk is accepted and
    lines 457-490 run on the given area, chunk, state and device. *)
Inductive verdict : Type :=
| Answered (o : outcome)
| Accepted (fap : flash_area) (img_chunk : list Z) (st : upload_state)
           (d : chip).

(** [req] is [None] when the payload does not start a map, else the locals
    after the decode loop. *)
Definition upload_accept (req : option upload_locals) (w : world) : verdict :=
  let st := ust w in
  match req with
  | None => Answered (upload_out MGMT_ERR_EINVAL st (dev w) (calls w))
  | Some l =>
    match img_chunk_data l with
    | None => Answered (upload_out MGMT_ERR_EINVAL st (dev w) (calls w))
    | Some img_chunk =>
      if img_chunk_off l =? SIZE_MAX
      then Answered (upload_out MGMT_ERR_EINVAL st (dev w) (calls w))
      else
        let st :=
          if img_chunk_off l =? 0 then
            mk_upload_state (img_size st) (curr_off st)
              (if negb (img_num_tmp l =? UINT_MAX) then img_num_tmp l else 0)
          else st in
        match flash_area_open cfg
                (flash_area_id_from_multi_image_slot cfg (to_int (img_num st)) 1)
        with
        | (_, None) =>
          Answered (upload_out MGMT_ERR_EINVAL st (dev w) (calls w))
        | (_, Some fap) =>
          if img_chunk_off l =? 0 then
            let area_size := fa_size fap in
            let st := mk_upload_state (img_size st) 0 (img_num st) in
            if img_size_tmp l >? area_size
            then Answered (upload_out MGMT_ERR_EINVAL st (dev w) (calls w))
            else
              let '(rc, d) := flash_area_erase cfg fap 0 area_size (dev w) in
              if negb (rc =? 0)
              then Answered (upload_out MGMT_ERR_EINVAL st d (calls w))
              else
                let st := mk_upload_state (img_size_tmp l) (curr_off st)
                                          (img_num st) in
                Accepted fap img_chunk st d
          else if negb (img_chunk_off l =? curr_off st)
          then Answered (upload_out 0 st (dev w) (calls w))
          else if u32 (curr_off st + zlen img_chunk) >? img_size st
          then Answered (upload_out MGMT_ERR_EINVAL st (dev w) (calls w))
          else Accepted fap img_chunk st (dev w)
        end
    end
  end.

(** [bs_upload]. *)
Definition bs_upload (req : option upload_locals) (w : world) : outcome :=
  match upload_accept req w with
  | Answered o => o
  | Accepted fap img_chunk st d => upload_write fap img_chunk st d (calls w)
  end.

(** ** Sequences of requests *)

(** A decoded request as the transport can deliver it: every value fits its
    C type, and the chunk lies inside the receive buffer. *)
Definition wf_request (req : option upload_locals) : Prop :=
  match req with
  | None => True
  | Some l =>
    0 <= img_num_tmp l < 2 ^ 32
    /\ 0 <= img_size_tmp l < 2 ^ 32
    /\ 0 <= img_chunk_off l < 2 ^ 32
    /\ match img_chunk_data l with
       | Some img_chunk => zlen img_chunk <= UDP_BUFFER_SIZE
       | None => True
       end
  end.

(** The worlds the handler can be in: the statics start at zero on any
    device; an upload request that is answered moves to the world it leaves;
    anything else (another handler, a reboot of the peer) leaves the statics
    alone. *)
Inductive reachable : world -> Prop :=
| reach_init (d : chip) : reachable (mk_world upload_init d [])
| reach_upload (w : world) (req : option upload_locals) (r : reply)
               (w' : world) :
    reachable w -> wf_request req -> bs_upload req w = Replied r w' ->
    reachable w'
| reach_other (w : world) (d : chip) (cs : list ext_call) :
    reachable w -> reachable (mk_world (ust w) d cs).

(** What the board must provide for the secondary slots: internal flash,
    word-aligned base and size, and addresses below [2^31]. *)
Definition board_ok : Prop :=
  4 <= BOOT_MAX_ALIGN env
  /\ forall (n : Z) (fap : flash_area),
      secondary_of n = Some fap ->
      fa_device_id fap = FLASH_DEVICE_INTERNAL_FLASH cfg
      /\ 0 <= fa_off fap /\ fa_off fap mod 4 = 0
      /\ 0 <= fa_size fap /\ fa_size fap mod 4 = 0
      /\ fa_off fap + fa_size fap < 2 ^ 31.

(** What holds of the statics in every reachable world. *)
Definition upload_inv (st : upload_state) : Prop :=
  0 <= curr_off st
  /\ 0 <= img_size st < 2 ^ 31
  /\ (curr_off st <= img_size st \/ curr_off st <= UDP_BUFFER_SIZE)
  /\ (curr_off st < img_size st -> curr_off st mod 4 = 0)
  /\ (forall fap : flash_area,
        curr_off st <> 0 -> secondary_of (img_num st) = Some fap ->
        img_size st <= fa_size fap).

(** ** [boot_serial_get_hash] and [bs_set] *)

(** The [while (true)] loop over the TLV entries; [None] is return code -1,
    [Some hash] is return code 0 with the bytes stored to [hash]. *)
Fixpoint tlv_find_hash (fap : flash_area) (it : list tlv_next)
  : M (option (list Z)) :=
  match it with
  | [] => ret None
  | TlvError :: _ => ret None
  | TlvEntry offset len type :: it' =>
    if type =? IMAGE_SHA_TLV env then
      if negb (len =? IMAGE_HASH_SIZE env) then ret None
      else flash_area_read cfg fap offset (hash_buf_aligned env) len
    else tlv_find_hash fap it'
  end.

Definition boot_serial_get_hash (probe : slot_probe) (fap : flash_area)
  : M (option (list Z)) :=
  match sp_tlv probe with
  | None => ret None
  | Some it => tlv_find_hash fap it
  end.

(** An entry the loop of [boot_serial_get_hash] steps over: not an error,
    and not of the hash type. *)
Definition tlv_skipped (e : tlv_next) : Prop :=
  match e with
  | TlvEntry _ _ type => type <> IMAGE_SHA_TLV env
  | TlvError => False
  end.

(** Lines 304-309 of [bs_set] and 173-178 of [bs_list]: after the header
    hook, [flash_area_read(fap, 0, &hdr, sizeof(hdr))] when the hook returned
    [BOOT_HOOK_REGULAR].  The return value of the read is not looked at, and
    [hdr], a struct with 32-bit members, is 4-byte aligned. *)
Definition read_image_header (probe : slot_probe) (fap : flash_area)
  : M (option (list Z)) :=
  if sp_hook_regular probe
  then flash_area_read cfg fap 0 true (sizeof_image_header env)
  else ret None.

(** The locals of [bs_set] after its decode loop. *)
Record set_locals : Type := mk_set_locals {
  confirm : bool;
  img_hash_value : list Z;
  img_hash_len : Z
}.

(** The entries of the request map, as the decode loop of [bs_set]
    classifies them. *)
Inductive set_field : Type :=
| Set_confirm (v : bool)
| Set_hash (bytes : list Z)
| Set_skip.

Definition decode_set_field (l : set_locals) (f : set_field) : set_locals :=
  match f with
  | Set_confirm v => mk_set_locals v (img_hash_value l) (img_hash_len l)
  | Set_hash b => mk_set_locals (confirm l) b (zlen b)
  | Set_skip => l
  end.

(** [confirm] and [img_hash] have no initialiser: [stack] is what they hold
    on entry, and keep when the map has no entry for them. *)
Definition decode_set (stack : set_locals) (fields : list set_field)
  : set_locals :=
  fold_left decode_set_field fields stack.

(** A map entry that leaves [img_hash] alone, and one that leaves
    [confirm] alone. *)
Definition no_hash (f : set_field) : Prop :=
  match f with Set_hash _ => False | _ => True end.

Definition no_confirm (f : set_field) : Prop :=
  match f with Set_confirm _ => False | _ => True end.

Inductive set_reply : Type :=
| SetList                    (* [bs_list]: the list of images *)
| SetRc (rc : Z).            (* the map with the single key "rc" *)

(** Lines 293-332: the scan, from [image_index] on, [n] iterations left.
    The result is [found] and the value of [image_index] at loop exit.
    [image_index] is a [uint8_t]; [BOOT_IMAGE_NUMBER] is at most 255. *)
Fixpoint set_scan (n : nat) (image_index : Z) (l : set_locals)
  : M (bool * Z) :=
  match n with
  | O => ret (false, image_index)
  | S n' =>
    let next := set_scan n' (u8 (image_index + 1)) l in
    let area_id := flash_area_id_from_multi_image_slot cfg image_index 1 in
    match flash_area_open cfg area_id with
    | (_, None) => next
    | (_, Some fap) =>
      let probe := secondary_probe env image_index in
      _ <- read_image_header probe fap ;;
      if sp_magic probe && negb (sp_fih_success probe) then next
      else
        r <- boot_serial_get_hash probe fap ;;
        match r with
        | Some hash =>
          if bool_decide (hash = ztake (IMAGE_HASH_SIZE env) (img_hash_value l))
          then ret (true, image_index)
          else next
        | None => next
        end
    end
  end.

(** [bs_set].  [req] is [None] when the payload does not start a map. *)
Definition bs_set (req : option set_locals) (d : chip)
  : set_reply * chip * list ext_call :=
  let out (rc : Z) (d : chip) (cs : list ext_call) :=
    (if rc =? 0 then SetList else SetRc rc, d, cs) in
  match req with
  | None => out MGMT_ERR_EINVAL d []
  | Some l =>
    if (negb (img_hash_len l =? IMAGE_HASH_SIZE env)
        && negb (img_hash_len l =? 0))
       || ((img_hash_len l =? 0) && (BOOT_IMAGE_NUMBER env >? 1))
    then out MGMT_ERR_EINVAL d []
    else
      let '(found, image_index, d) :=
        if negb (img_hash_len l =? 0)
        then set_scan (Z.to_nat (BOOT_IMAGE_NUMBER env)) 0 l d
        else ((true, 0), d) in
      if negb found then out MGMT_ERR_ENOENT d []
      else
        let rc := boot_set_pending_multi env image_index (confirm l) in
        out rc d [SetPending image_index (confirm l)]
  end.

(** What the scan of [bs_set] looks for in the secondary slot of image [j]:
    its area opens, the slot is not one whose validation failed, and the hash
    found in its TLV area is the one of the request. *)
Definition slot_matches (l : set_locals) (d : chip) (j : Z) : Prop :=
  exists fap,
    flash_area_open cfg (flash_area_id_from_multi_image_slot cfg j 1)
    = (0, Some fap)
    /\ (sp_magic (secondary_probe env j) = true ->
        sp_fih_success (secondary_probe env j) = true)
    /\ fst (boot_serial_get_hash (secondary_probe env j) fap d)
       = Some (ztake (IMAGE_HASH_SIZE env) (img_hash_value l)).

End Handlers.

(** ** [bs_list_img_ver] *)

(** [struct image_version]: [iv_major] and [iv_minor] are [uint8_t],
    [iv_revision] is a [uint16_t] and [iv_build_num] a [uint32_t]. *)
Record image_version : Type := mk_image_version {
  iv_major : Z;
  iv_minor : Z;
  iv_revision : Z;
  iv_build_num : Z
}.

(** The decimal digits that the conversions [%hu] and [%u] of the C library
    write for [n], most significant first; ten digits cover 32 bits. *)
Definition digit (d : Z) : ascii := ascii_of_nat (48 + Z.to_nat d).

Fixpoint decimal (fuel : nat) (n : Z) (acc : string) : string :=
  match fuel with
  | O => acc
  | S fuel' =>
    let acc := String (digit (n mod 10)) acc in
    if n / 10 =? 0 then acc else decimal fuel' (n / 10) acc
  end.

Definition print_u (n : Z) : string := decimal 10 n EmptyString.

(** [snprintf(dst, size, fmt, ...)] of the C library, where [s] is the text
    the conversions produce: the text held at [dst] afterwards (up to its
    terminating NUL) and the return value, the length of [s].  At most
    [size - 1] characters are stored; with [size] 0 nothing is stored. *)
Definition snprintf (dst : string) (size : Z) (s : string) : string * Z :=
  (if size =? 0 then dst else substring 0 (Z.to_nat (size - 1)) s,
   Z.of_nat (String.length s)).

(** [bs_list_img_ver]: [dst] is the text the buffer holds on entry; the
    result is the text it holds on return. *)
Definition bs_list_img_ver (dst : string) (maxlen : Z) (ver : image_version)
  : string :=
  let dot := String "."%char EmptyString in
  let r := snprintf dst (u32 maxlen)
             (String.append (print_u (u16 (iv_major ver)))
                (String.append dot
                   (String.append (print_u (u16 (iv_minor ver)))
                      (String.append dot (print_u (u16 (iv_revision ver))))))) in
  let dst := fst r in
  let len := snd r in
  if negb (iv_build_num ver =? 0) && (0 <? len) && (len <? maxlen)
  then String.append dst
         (fst (snprintf EmptyString (u32 (maxlen - len))
                 (String.append dot (print_u (u32 (iv_build_num ver))))))
  else dst.

(** ** [bs_list] *)

(** More of bootutil, as [bs_list] uses it: the slot constants, the swap
    types, the swap oracle and, for each slot of image 0, what the header
    read (or its hook), the check hook and the validator leave behind. *)
Record bootlist : Type := mk_bootlist {
  BOOT_NUM_SLOTS : Z;
  BOOT_PRIMARY_SLOT : Z;
  BOOT_SWAP_TYPE_NONE : Z;
  BOOT_SWAP_TYPE_TEST : Z;
  BOOT_SWAP_TYPE_PERM : Z;
  BOOT_SWAP_TYPE_REVERT : Z;
  boot_swap_type_multi : Z -> Z;
  (** magic, validation result and TLV iterator for the slot *)
  list_probe : Z -> slot_probe;
  (** [hdr.ih_flags & IMAGE_F_NON_BOOTABLE] is nonzero *)
  ih_non_bootable : Z -> bool;
  (** [hdr.ih_ver] *)
  ih_ver : Z -> image_version
}.

(** The map [bs_list] encodes for one slot: a flag is [true] when its key is
    emitted; [e_hash] is present when [boot_serial_get_hash] returned 0. *)
Record slot_entry : Type := mk_slot_entry {
  e_bootable : bool;
  e_confirmed : bool;
  e_active : bool;
  e_pending : bool;
  e_permanent : bool;
  e_slot : Z;
  e_hash : option (list Z);
  e_version : string
}.

(** The locals [active], [confirmed], [pending] and [permanent] after the
    chain of tests on [swap_status]. *)
Record slot_flags : Type := mk_slot_flags {
  active : bool;
  confirmed : bool;
  pending : bool;
  permanent : bool
}.

Section Listing.

Variable cfg : sysflash.
Variable env : bootutil.
Variable lst : bootlist.

(** Lines 197-221. *)
Definition swap_flags (swap_status slot : Z) : slot_flags :=
  let primary := slot =? BOOT_PRIMARY_SLOT lst in
  if swap_status =? BOOT_SWAP_TYPE_NONE lst then
    if primary then mk_slot_flags true true false false
    else mk_slot_flags false false false false
  else if swap_status =? BOOT_SWAP_TYPE_TEST lst then
    if primary then mk_slot_flags false true false false
    else mk_slot_flags false false true false
  else if swap_status =? BOOT_SWAP_TYPE_PERM lst then
    if primary then mk_slot_flags false true false false
    else mk_slot_flags false false true true
  else if swap_status =? BOOT_SWAP_TYPE_REVERT lst then
    if primary then mk_slot_flags true false false false
    else mk_slot_flags false true false false
  else mk_slot_flags false false false false.

(** Lines 162-253: the loop over the slots, from [slot] on, [n] iterations
    left.  [fih_rc] starts as [FIH_FAILURE] in every iteration and the
    validator runs only under the magic test, so a slot is listed when its
    header has the magic and the validation succeeded. *)
Fixpoint list_slots (n : nat) (slot : Z) (swap_status : Z)
  : M (list slot_entry) :=
  match n with
  | O => ret []
  | S n' =>
    let next := list_slots n' (u32 (slot + 1)) swap_status in
    let area_id := flash_area_id_from_multi_image_slot cfg 0 (to_int slot) in
    match flash_area_open cfg area_id with
    | (_, None) => next
    | (_, Some fap) =>
      let probe := list_probe lst slot in
      _ <- read_image_header cfg env probe fap ;;
      if negb (sp_magic probe && sp_fih_success probe) then next
      else
        rc <- boot_serial_get_hash cfg env probe fap ;;
        let flags := swap_flags swap_status slot in
        let entry :=
          mk_slot_entry (negb (ih_non_bootable lst slot))
                        (confirmed flags) (active flags) (pending flags)
                        (permanent flags) slot rc
                        (bs_list_img_ver EmptyString 64 (ih_ver lst slot)) in
        rest <- next ;;
        ret (entry :: rest)
    end
  end.

(** [bs_list]: the entries of the list under the key "images". *)
Definition bs_list : M (list slot_entry) :=
  let image_index := 0 in
  let swap_status := boot_swap_type_multi lst image_index in
  list_slots (Z.to_nat (BOOT_NUM_SLOTS lst)) 0 swap_status.

End Listing.

End Smp.

(** * The specification's own words, for comparison with the code *)

Module Spec.

Import Smp.

(** The length field as it travels on the wire (big-endian), and the group
    field likewise. *)
Definition wire16 (buf : list Z) (i : nat) : Z :=
  256 * byte_at buf i + byte_at buf (S i).

(** Section 4.4, "On receive", as the specification words it: drop when the
    datagram is shorter than the header, or the op is neither READ nor WRITE,
    or [header.length] exceeds [datagram_length - 8]. *)
Definition spec_drops (buf : list Z) (len : Z) : Prop :=
  len < 8
  \/ (nh_op buf <> NMGR_OP_READ /\ nh_op buf <> NMGR_OP_WRITE)
  \/ wire16 buf 2 > len - 8.

(** Section 4.8, the routing table keyed by [(group, id)]. *)
Definition spec_route (op group id : Z) (payload : list Z) (len : Z)
  : handler_call :=
  if (group =? MGMT_GROUP_ID_IMAGE) && (id =? NMGR_ID_STATE)
  then Call_bs_list_set op payload len
  else if (group =? MGMT_GROUP_ID_IMAGE) && (id =? NMGR_ID_UPLOAD)
  then Call_bs_upload payload len
  else if (group =? MGMT_GROUP_ID_IMAGE) && (id =? NMGR_ID_SLOT_INFO)
  then Call_bs_slot_info op payload len
  else if (group =? MGMT_GROUP_ID_OS) && (id =? NMGR_ID_RESET)
  then Call_bs_reset payload len
  else if (group =? MGMT_GROUP_ID_OS) && (id =? NMGR_ID_PARAMS)
  then Call_bs_params op payload len
  else Call_bs_rc_rsp MGMT_ERR_ENOTSUP.

End Spec.

(** * Part III: a concrete board

    One image, sectors of 1 KiB, a chip of 6 KiB: primary slot at [0x0000],
    secondary slot at [0x0800], bootloader at [0x1000], scratch at [0x1400]. *)

Import Flash Smp Spec.

Definition demo_cfg : sysflash := {|
  FLASH_DEVICE_INTERNAL_FLASH := 0x7F;
  FLASH_SECTOR_SIZE := 0x400;
  FLASH_AREA_BOOTLOADER := 0;
  FLASH_AREA_IMAGE_PRIMARY := fun i => if i =? 0 then 1 else 255;
  FLASH_AREA_IMAGE_SECONDARY := fun i => if i =? 0 then 2 else 255;
  FLASH_AREA_IMAGE_SCRATCH := 3;
  BOOTLOADER_SIZE := 0x400;
  APPLICATION_PRIMARY_START_ADDRESS := 0x0000;
  APPLICATION_SECONDARY_START_ADDRESS := 0x0800;
  APPLICATION_SIZE := 0x800;
  SCRATCH_OFFSET := 0x1400;
  SCRATCH_SIZE := 0x400
|}.

(** The byte at address [a] is [0xC0 | (a mod 64)]. *)
Definition demo_cells : list Z :=
  map (fun a => Z.lor 0xC0 (Z.of_nat a mod 64)) (seq 0 (Z.to_nat 0x1800)).
Definition demo_chip : chip := mk_chip demo_cells [].

(** An area near the start of the chip, for small examples. *)
Definition low_area : flash_area := mk_flash_area 9 0x7F 16 64.

(** The bytes of the chip in [addr, addr + n). *)
Definition peek (c : chip) (addr n : Z) : list Z :=
  ztake n (zdrop addr (cells c)).

(** One image, SHA-256; the upload hook and [boot_set_pending_multi]
    succeed; the header hook supplies the header of the secondary slot, a
    valid image without TLVs. *)
Definition demo_env : bootutil := {|
  BOOT_IMAGE_NUMBER := 1;
  BOOT_MAX_ALIGN := 8;
  IMAGE_HASH_SIZE := 32;
  IMAGE_SHA_TLV := 0x10;
  boot_serial_uploaded_hook := fun _ _ _ => 0;
  boot_set_pending_multi := fun _ _ => 0;
  secondary_probe := fun _ => mk_slot_probe false true true (Some []);
  hash_buf_aligned := true;
  sizeof_image_header := 32
|}.

Definition demo_world : world := mk_world upload_init demo_chip [].

(** An upload request with the given offset, total length and chunk. *)
Definition chunk_at (off len : Z) (data : list Z) : option upload_locals :=
  Some (decode_upload None [F_off off; F_len len; F_data data]).

(** The world a request leaves behind ([w] itself after a fault). *)
Definition after (o : outcome) (w : world) : world :=
  match o with Replied _ w' => w' | Fault _ => w end.

(** The bytes of a chip on which an area of [size] bytes, placed after the
    bytes [pre], holds [stored] and is erased from there on. *)
Definition stored_cells (pre stored post : list Z) (size : Z) : list Z :=
  pre ++ stored ++ replicate (Z.to_nat (size - zlen stored)) 255 ++ post.

(** The bytes of an area, as the chip holds them. *)
Definition area_of (fa : flash_area) (c : chip) : list Z :=
  peek c (fa_off fa) (fa_size fa).

(** The offsets at which the chunks of an upload end, when the first one
    starts at [off]. *)
Fixpoint chunk_ends (off : Z) (chunks : list (list Z)) : list Z :=
  match chunks with
  | [] => []
  | data :: rest => (off + zlen data) :: chunk_ends (off + zlen data) rest
  end.

(** The chunks a peer may cut an image into: every chunk is at least one
    word long, and every chunk but the last is a whole number of words. *)
Fixpoint word_chunks (chunks : list (list Z)) : Prop :=
  match chunks with
  | [] => False
  | [data] => 4 <= zlen data
  | data :: rest => 4 <= zlen data /\ zlen data mod 4 = 0 /\ word_chunks rest
  end.

(** A peer that uploads an image of [len] bytes as the chunks [chunks], in
    order: the first at offset [off], each further one where the one before
    it ended.  The result is the list of replies and the world after the
    last chunk, or [None] when a request ends in a fault. *)
Fixpoint send_chunks (cfg : sysflash) (env : bootutil) (len off : Z)
                     (chunks : list (list Z)) (w : world)
  : option (list reply * world) :=
  match chunks with
  | [] => Some ([], w)
  | data :: rest =>
    match bs_upload cfg env (chunk_at off len data) w with
    | Fault _ => None
    | Replied r w' =>
      match send_chunks cfg env len (off + zlen data) rest w' with
      | None => None
      | Some (rs, w'') => Some (r :: rs, w'')
      end
    end
  end.

(** The world after the first 512 bytes of a 1024-byte upload. *)
Definition demo_image : list Z :=
  map (fun i => Z.of_nat i mod 251) (seq 0 1024).
Definition mid_upload : world :=
  after (bs_upload demo_cfg demo_env (chunk_at 0 1024 (take 512 demo_image))
                   demo_world) demo_world.

(** An image of 1025 bytes whose last byte is [0x5A]. *)
Definition odd_image : list Z := demo_image ++ [0x5A].

(** The world after a complete upload of 8 bytes in one chunk. *)
Definition done_upload : world :=
  after (bs_upload demo_cfg demo_env (chunk_at 0 8 [1; 2; 3; 4; 5; 6; 7; 8])
                   demo_world) demo_world.

(** The world after a first chunk that names image 1, which the board does
    not have. *)
Definition lost_upload : world :=
  after (bs_upload demo_cfg demo_env
           (Some (decode_upload None
                    [F_off 0; F_image 1; F_len 8; F_data [1; 2; 3; 4; 5; 6; 7; 8]]))
           demo_world) demo_world.

(** A list of external calls that holds at most a progress bar. *)
Definition progress_only (bar : list ext_call) : Prop :=
  bar = [] \/ exists idx, bar = [ProgressBar idx].

(** What a request did, at a glance: the fault, or the reply, the static
    variables, the raw driver calls and the external calls. *)
Definition summary (o : outcome)
  : fault + (reply * upload_state * list raw_op * list ext_call) :=
  match o with
  | Fault f => inl f
  | Replied r w => inr (r, ust w, oplog (dev w), calls w)
  end.

(** Two slots per image; a test swap is pending; the header hook supplies
    the headers: both slots hold a valid, bootable image of version 1.2.3
    without TLVs. *)
Definition demo_lst : bootlist := {|
  BOOT_NUM_SLOTS := 2;
  BOOT_PRIMARY_SLOT := 0;
  BOOT_SWAP_TYPE_NONE := 1;
  BOOT_SWAP_TYPE_TEST := 2;
  BOOT_SWAP_TYPE_PERM := 3;
  BOOT_SWAP_TYPE_REVERT := 4;
  boot_swap_type_multi := fun _ => 2;
  list_probe := fun _ => mk_slot_probe false true true (Some []);
  ih_non_bootable := fun _ => false;
  ih_ver := fun _ => mk_image_version 1 2 3 0
|}.

(** A build without hooks: the handler reads the header itself.  The
    secondary slot has a header whose magic is wrong, so that the validator
    never ran on it, and its TLV area carries a SHA-256 entry at area offset
    [0x100]. *)
Definition stale_env : bootutil := {|
  BOOT_IMAGE_NUMBER := 1;
  BOOT_MAX_ALIGN := 8;
  IMAGE_HASH_SIZE := 32;
  IMAGE_SHA_TLV := 0x10;
  boot_serial_uploaded_hook := fun _ _ _ => 0;
  boot_set_pending_multi := fun _ _ => 0;
  secondary_probe :=
    fun _ => mk_slot_probe true false false (Some [TlvEntry 0x100 32 0x10]);
  hash_buf_aligned := true;
  sizeof_image_header := 32
|}.

(** The 32 bytes stored at area offset [0x100] of the secondary slot. *)
Definition stale_hash : list Z := peek demo_chip 0x900 32.

(** * Part IV: the flash port, verified *)

(** ** Bit masks as arithmetic *)

Lemma ALIGN_OFFSET_4 (x : Z) : ALIGN_OFFSET x 4 = x mod 4.
Proof. unfold ALIGN_OFFSET. change (4 - 1) with (Z.ones 2). apply Z.land_ones. lia. Qed.

Lemma IS_ALIGNED_4 (x : Z) : IS_ALIGNED x 4 = (x mod 4 =? 0).
Proof. unfold IS_ALIGNED. by rewrite ALIGN_OFFSET_4. Qed.

Lemma u32_id (x : Z) : 0 <= x < 2 ^ 32 -> u32 x = x.
Proof. intros. unfold u32. apply Z.mod_small. lia. Qed.

Lemma u32_range (x : Z) : 0 <= u32 x < 2 ^ 32.
Proof. unfold u32. apply Z.mod_pos_bound. lia. Qed.

(** ** Out-of-bounds requests

    Where the 32-bit sum does not wrap, [flash_area_read] and
    [flash_area_write] reject a range that ends past the area before any
    raw call. *)
Lemma flash_area_read_out_of_bounds cfg fa off aligned len c :
  0 <= off -> 0 <= len -> off + len < 2 ^ 32 -> off + len > fa_size fa ->
  flash_area_read cfg fa off aligned len c = (None, c).
Proof.
  intros Hoff Hlen Hwrap Hout. unfold flash_area_read.
  destruct (negb _); [done|].
  rewrite u32_id by lia.
  destruct (Z.gtb_spec (off + len) (fa_size fa)); [done|lia].
Qed.

Lemma flash_area_write_out_of_bounds cfg fa off src len c :
  0 <= off -> 0 <= len -> off + len < 2 ^ 32 -> off + len > fa_size fa ->
  flash_area_write cfg fa off src len c = (-1, c).
Proof.
  intros Hoff Hlen Hwrap Hout. unfold flash_area_write.
  destruct (negb _); [done|].
  rewrite u32_id by lia.
  destruct (Z.gtb_spec (off + len) (fa_size fa)); [done|lia].
Qed.

(** C4 (the code departs from the specification).  On the demo board the
    primary slot is [0x800] bytes at address 0 and the secondary slot
    [0x800] bytes at address [0x800].
    - An erase of [0xC00] bytes at offset 0 of the primary slot ends past the
      area, yet [flash_area_erase] returns 0 after a raw erase that also
      wipes the first sector of the secondary slot.
    - A read of 8 bytes at offset [2^32 - 4] of the secondary slot, whose
      32-bit end offset wraps to 4, succeeds and delivers the last four bytes
      of the primary slot; a write there programs them. *)
Theorem flash_area_out_of_bounds_reaches_driver :
  (let fa := primary_img0 demo_cfg in
   let '(rc, c) := flash_area_erase demo_cfg fa 0 0xC00 demo_chip in
   fa_off fa = 0 /\ fa_size fa = 0x800 /\ 0 + 0xC00 > fa_size fa
   /\ rc = 0
   /\ oplog c = [RawErase 0 0xC00]
   /\ peek demo_chip 0x800 4 = [0xC0; 0xC1; 0xC2; 0xC3]
   /\ peek c 0x800 4 = [0xFF; 0xFF; 0xFF; 0xFF])
  /\ (let fa := secondary_img0 demo_cfg in
      let '(r, c) := flash_area_read demo_cfg fa (2 ^ 32 - 4) true 8 demo_chip in
      fa_off fa = 0x800 /\ fa_size fa = 0x800 /\ (2 ^ 32 - 4) + 8 > fa_size fa
      /\ r = Some [0xFC; 0xFD; 0xFE; 0xFF; 0xC0; 0xC1; 0xC2; 0xC3]
      /\ oplog c = [RawRead 0x7FC 8])
  /\ (let fa := secondary_img0 demo_cfg in
      let '(rc, c) := flash_area_write demo_cfg fa (2 ^ 32 - 4)
                                       [0; 0; 0; 0; 0; 0; 0; 0] 8 demo_chip in
      rc = 0
      /\ oplog c = [RawWrite 0x7FC [0; 0; 0; 0; 0; 0; 0; 0]]
      /\ peek demo_chip 0x7FC 4 = [0xFC; 0xFD; 0xFE; 0xFF]
      /\ peek c 0x7FC 4 = [0; 0; 0; 0]).
Proof. vm_compute. repeat split; reflexivity. Qed.

(** C3 (the code departs from the specification).  [flash_area_write]
    hands the device address [fa_off + off] to [flash_area_read], which takes
    an area offset and adds [fa_off] again.  Writing the single byte [0xC0] at area
    offset 0:
    - in the area at address 16, the word is read at address 32, not 16, and
      the three bytes after the written one change from [D1 D2 D3] to
      [C1 C2 C3], their AND with [E1 E2 E3];
    - in the secondary slot at [0x800], the read is rejected as out of
      bounds, no raw read happens, and the three bytes are programmed with
      zeros. *)
Theorem flash_area_write_short_reads_wrong_word :
  (let '(rc, c) := flash_area_write demo_cfg low_area 0 [0xC0] 1 demo_chip in
   rc = 0 /\
   oplog c = [RawRead 32 4; RawWrite 16 [0xC0; 0xE1; 0xE2; 0xE3]] /\
   peek demo_chip 16 4 = [0xD0; 0xD1; 0xD2; 0xD3] /\
   peek c 16 4 = [0xC0; 0xC1; 0xC2; 0xC3]) /\
  (let fa := secondary_img0 demo_cfg in
   let '(rc, c) := flash_area_write demo_cfg fa 0 [0xC0] 1 demo_chip in
   fa_off fa = 0x800 /\ rc = 0 /\
   oplog c = [RawWrite 0x800 [0xC0; 0; 0; 0]] /\
   peek demo_chip 0x800 4 = [0xC0; 0xC1; 0xC2; 0xC3] /\
   peek c 0x800 4 = [0xC0; 0; 0; 0]).
Proof. vm_compute. repeat split; reflexivity. Qed.

(** ** The read loop

    The loop of [aligned_flash_read] is modelled with a fuel of one unit per
    remaining byte.  More fuel never changes the result: the loop ends by its
    own test, not by lack of fuel. *)
Lemma MIN_buffer (n : Z) :
  0 < n -> 0 < MIN n FLASH_BUFFER_SIZE <= n.
Proof.
  unfold MIN, FLASH_BUFFER_SIZE. intros Hn.
  destruct (Z.ltb_spec n 256); lia.
Qed.

Lemma read_remaining_fuel (fuel : nat) :
  forall (aligned_addr offset bytes_read bytes_remaining : Z)
         (dest : list Z) (c : chip),
    0 <= bytes_remaining < 2 ^ 32 ->
    bytes_remaining <= Z.of_nat fuel ->
    read_remaining (S fuel) aligned_addr offset bytes_read
                   bytes_remaining dest c
    = read_remaining fuel aligned_addr offset bytes_read
                     bytes_remaining dest c.
Proof.
  induction fuel as [|fuel IH];
    intros aligned_addr offset bytes_read bytes_remaining dest c Hrange Hfuel.
  - assert (bytes_remaining = 0) as -> by lia. reflexivity.
  - change (read_remaining (S (S fuel)) aligned_addr offset bytes_read
                           bytes_remaining dest c)
      with ((if bytes_remaining =? 0 then ret (Some dest)
             else
               let bytes := MIN bytes_remaining FLASH_BUFFER_SIZE in
               r <- bootloader_flash_read (u32 (aligned_addr + offset))
                                          (ALIGN_UP bytes 4) ;;
               match r with
               | None => ret None
               | Some read_data =>
                 read_remaining (S fuel) aligned_addr (u32 (offset + bytes))
                                (u32 (bytes_read + bytes))
                                (u32 (bytes_remaining - bytes))
                                (dest ++ ztake bytes read_data)
               end) c).
    change (read_remaining (S fuel) aligned_addr offset bytes_read
                           bytes_remaining dest c)
      with ((if bytes_remaining =? 0 then ret (Some dest)
             else
               let bytes := MIN bytes_remaining FLASH_BUFFER_SIZE in
               r <- bootloader_flash_read (u32 (aligned_addr + offset))
                                          (ALIGN_UP bytes 4) ;;
               match r with
               | None => ret None
               | Some read_data =>
                 read_remaining fuel aligned_addr (u32 (offset + bytes))
                                (u32 (bytes_read + bytes))
                                (u32 (bytes_remaining - bytes))
                                (dest ++ ztake bytes read_data)
               end) c).
    destruct (Z.eqb_spec bytes_remaining 0) as [|Hnz]; [done|].
    cbv zeta. unfold bind.
    destruct (bootloader_flash_read _ _ c) as [[read_data|] c']; [|done].
    pose proof (MIN_buffer bytes_remaining ltac:(lia)) as Hmin.
    apply IH; rewrite u32_id; lia.
Qed.

(** ** Successful raw calls *)

Lemma zlen_ztake (n : Z) (l : list Z) :
  0 <= n <= zlen l -> zlen (ztake n l) = n.
Proof. unfold zlen, ztake. intros. rewrite length_take_le; lia. Qed.

Lemma zlen_nonneg (l : list Z) : 0 <= zlen l.
Proof. unfold zlen. lia. Qed.

Lemma bootloader_flash_write_ok (addr : Z) (src : list Z) (size : Z) (c : chip) :
  addr mod 4 = 0 -> size mod 4 = 0 -> 0 <= addr -> 0 <= size ->
  addr + size <= zlen (cells c) -> size <= zlen src ->
  bootloader_flash_write addr src size c
  = (true, mk_chip (programmed (cells c) addr (ztake size src))
                   (oplog c ++ [RawWrite addr (ztake size src)])).
Proof.
  intros Ha Hs Ha0 Hs0 Hin Hsrc.
  unfold bootloader_flash_write, bind, log_op, in_chip. cbn [cells oplog].
  rewrite !IS_ALIGNED_4, Ha, Hs. simpl.
  destruct (Z.leb_spec 0 addr); [|lia].
  destruct (Z.leb_spec 0 size); [|lia].
  destruct (Z.leb_spec (addr + size) (zlen (cells c))); [|lia].
  destruct (Z.leb_spec size (zlen src)); [|lia].
  simpl. unfold programmed. rewrite zlen_ztake by lia. done.
Qed.

Lemma bootloader_flash_erase_range_ok (addr len : Z) (c : chip) :
  0 <= addr -> 0 <= len -> addr + len <= zlen (cells c) ->
  bootloader_flash_erase_range addr len c
  = (true, mk_chip (erased (cells c) addr len) (oplog c ++ [RawErase addr len])).
Proof.
  intros Ha0 Hl0 Hin.
  unfold bootloader_flash_erase_range, bind, log_op, in_chip. cbn [cells oplog].
  destruct (Z.leb_spec 0 addr); [|lia].
  destruct (Z.leb_spec 0 len); [|lia].
  destruct (Z.leb_spec (addr + len) (zlen (cells c))); [|lia].
  done.
Qed.

(** A write of whole words inside an aligned area goes to the raw driver
    as it is. *)
Lemma flash_area_write_words cfg (fa : flash_area) (off : Z) (src : list Z)
      (len : Z) (c : chip) :
  fa_device_id fa = FLASH_DEVICE_INTERNAL_FLASH cfg ->
  0 <= fa_off fa -> fa_off fa mod 4 = 0 ->
  0 <= off -> off mod 4 = 0 -> 4 <= len -> len mod 4 = 0 ->
  off + len <= fa_size fa ->
  fa_off fa + fa_size fa <= zlen (cells c) -> fa_off fa + fa_size fa < 2 ^ 32 ->
  len <= zlen src ->
  flash_area_write cfg fa off src len c
  = (0, mk_chip (programmed (cells c) (fa_off fa + off) (ztake len src))
                (oplog c ++ [RawWrite (fa_off fa + off) (ztake len src)])).
Proof.
  intros Hdev Hb0 Hb4 Ho0 Ho4 Hl4 Hlm Hin Hchip Hwrap Hsrc.
  unfold flash_area_write. rewrite Hdev, Z.eqb_refl. simpl negb. cbv iota.
  rewrite (u32_id (off + len)) by lia.
  destruct (Z.gtb_spec (off + len) (fa_size fa)); [lia|].
  rewrite (u32_id (fa_off fa + off)) by lia.
  destruct (Z.ltb_spec len 4); [lia|].
  cbn [negb]. unfold bind, ret. cbn [fst snd].
  rewrite bootloader_flash_write_ok; try lia; [done|].
  rewrite Z.add_mod, Hb4, Ho4 by lia. done.
Qed.

(** An erase of a whole area that lies on sector boundaries. *)
Lemma flash_area_erase_whole cfg (fa : flash_area) (c : chip) :
  fa_device_id fa = FLASH_DEVICE_INTERNAL_FLASH cfg ->
  0 <= fa_off fa -> 0 <= fa_size fa ->
  fa_size fa mod FLASH_SECTOR_SIZE cfg = 0 ->
  fa_off fa + fa_size fa <= zlen (cells c) -> fa_off fa + fa_size fa < 2 ^ 32 ->
  flash_area_erase cfg fa 0 (fa_size fa) c
  = (0, mk_chip (erased (cells c) (fa_off fa) (fa_size fa))
                (oplog c ++ [RawErase (fa_off fa) (fa_size fa)])).
Proof.
  intros Hdev Hb0 Hs0 Hsec Hchip Hwrap.
  unfold flash_area_erase. rewrite Hdev, Z.eqb_refl.
  rewrite Hsec, Zmod_0_l. cbn [negb orb Z.eqb].
  rewrite Z.add_0_r, u32_id by lia.
  unfold bind. rewrite bootloader_flash_erase_range_ok by lia. done.
Qed.

(** ** What the chip holds after a raw call *)

Lemma land_255 (b : Z) : is_byte b -> Z.land 255 b = b.
Proof.
  unfold is_byte. intros Hb. rewrite Z.land_comm.
  change 255 with (Z.ones 8). rewrite Z.land_ones by lia.
  apply Z.mod_small. lia.
Qed.

(** Programming erased cells stores the data. *)
Lemma program_erased (data : list Z) :
  Forall is_byte data -> program (replicate (length data) 255) data = data.
Proof.
  unfold program. induction 1 as [|b data Hb _ IH]; simpl; [done|].
  by rewrite land_255, IH.
Qed.

Lemma length_program (old new : list Z) :
  length old = length new -> length (program old new) = length new.
Proof. intros H. unfold program. rewrite length_zip_with. lia. Qed.

Section Cells.

Variables (cs : list Z) (addr : Z) (data : list Z).
Hypothesis Haddr : 0 <= addr.
Hypothesis Hfit : addr + zlen data <= zlen cs.

Lemma programmed_parts :
  programmed cs addr data
  = take (Z.to_nat addr) cs
    ++ program (take (length data) (drop (Z.to_nat addr) cs)) data
    ++ drop (Z.to_nat addr + length data) cs.
Proof.
  unfold programmed, ztake, zdrop, zlen in *.
  rewrite Nat2Z.id, Z2Nat.inj_add, Nat2Z.id by lia. done.
Qed.

Lemma length_programmed_mid :
  length (program (take (length data) (drop (Z.to_nat addr) cs)) data)
  = length data.
Proof.
  unfold zlen in *. apply length_program.
  rewrite length_take_le; [done|]. rewrite length_drop. lia.
Qed.

Lemma zlen_programmed : zlen (programmed cs addr data) = zlen cs.
Proof.
  rewrite programmed_parts. unfold zlen in *.
  rewrite !length_app, length_programmed_mid, length_take_le, length_drop
    by lia.
  lia.
Qed.

(** The programmed range holds the AND of the old bytes and the data. *)
Lemma peek_programmed :
  ztake (zlen data) (zdrop addr (programmed cs addr data))
  = program (ztake (zlen data) (zdrop addr cs)) data.
Proof.
  rewrite programmed_parts. unfold ztake, zdrop, zlen in *.
  rewrite Nat2Z.id.
  rewrite drop_app_length' by (rewrite length_take_le; lia).
  rewrite take_app_length' by (by rewrite length_programmed_mid).
  done.
Qed.

(** The cells after the programmed range are untouched. *)
Lemma drop_programmed (n : Z) :
  addr + zlen data <= n ->
  zdrop n (programmed cs addr data) = zdrop n cs.
Proof.
  intros Hn. rewrite programmed_parts. unfold zdrop, zlen in *.
  rewrite app_assoc, drop_app_ge;
    rewrite length_app, length_programmed_mid, length_take_le;
    try lia.
  rewrite drop_drop. f_equal. lia.
Qed.

End Cells.

(** Inside an erased range every byte reads [0xFF]. *)
Lemma peek_erased (cs : list Z) (addr len : Z) (pos n : Z) :
  0 <= addr -> addr <= pos -> 0 <= n -> pos + n <= addr + len ->
  addr + len <= zlen cs ->
  ztake n (zdrop pos (erased cs addr len)) = replicate (Z.to_nat n) 255.
Proof.
  intros Ha Hpos Hn Hin Hfit. unfold erased, memset, ztake, zdrop, zlen in *.
  rewrite drop_app_ge by (rewrite length_take_le; lia).
  rewrite length_take_le by lia.
  rewrite drop_app_le by (rewrite length_replicate; lia).
  rewrite take_app_le by (rewrite length_drop, length_replicate; lia).
  rewrite drop_replicate, take_replicate. f_equal. lia.
Qed.

Lemma zlen_erased (cs : list Z) (addr len : Z) :
  0 <= addr -> 0 <= len -> addr + len <= zlen cs ->
  zlen (erased cs addr len) = zlen cs.
Proof.
  intros Ha Hl Hfit. unfold erased, memset, ztake, zdrop, zlen in *.
  rewrite !length_app, length_replicate, length_take_le, length_drop by lia.
  lia.
Qed.

(** An erase, successful or not, keeps the size of the chip. *)
Lemma flash_area_erase_zlen cfg (fa : flash_area) (off len : Z) (c : chip) :
  zlen (cells (snd (flash_area_erase cfg fa off len c))) = zlen (cells c).
Proof.
  unfold flash_area_erase.
  destruct (negb _); [done|]. destruct (_ || _); [done|].
  unfold bootloader_flash_erase_range, bind, log_op, in_chip, ret.
  cbn [cells oplog].
  destruct (Z.leb_spec 0 (u32 (fa_off fa + off))); [|done].
  destruct (Z.leb_spec 0 len); [|done].
  destruct (Z.leb_spec (u32 (fa_off fa + off) + len) (zlen (cells c))); [|done].
  cbn [andb snd cells]. fold (erased (cells c) (u32 (fa_off fa + off)) len).
  by apply zlen_erased.
Qed.

(** ** Writes shorter than a word *)

Lemma u32_mod4 (x : Z) : u32 x mod 4 = x mod 4.
Proof.
  unfold u32. apply Z.mod_mod_divide. exists (2 ^ 30). lia.
Qed.

(** A read of one word at an aligned place: nothing but one raw read, the
    cells unchanged, and a word of four bytes when it succeeds. *)
Lemma flash_area_read_word cfg (fa : flash_area) (off : Z) (c : chip) :
  fa_off fa mod 4 = 0 -> off mod 4 = 0 ->
  exists r ops,
    flash_area_read cfg fa off true 4 c = (r, mk_chip (cells c) (oplog c ++ ops))
    /\ match r with Some word => zlen word = 4 | None => True end.
Proof.
  intros Hb4 Ho4. unfold flash_area_read.
  destruct (negb _).
  { exists None, []. by rewrite app_nil_r; destruct c. }
  destruct (_ >? _).
  { exists None, []. by rewrite app_nil_r; destruct c. }
  unfold aligned_flash_read.
  rewrite !IS_ALIGNED_4, u32_mod4, Z.add_mod, Hb4, Ho4 by lia.
  change ((0 + 0) mod 4 =? 0) with true. change (4 mod 4 =? 0) with true.
  cbn [andb].
  unfold bootloader_flash_read, bind, log_op, in_chip. cbn [cells oplog].
  rewrite !IS_ALIGNED_4, u32_mod4, Z.add_mod, Hb4, Ho4 by lia.
  change ((0 + 0) mod 4 =? 0) with true. change (4 mod 4 =? 0) with true.
  cbn [andb].
  set (addr := u32 (fa_off fa + off)).
  destruct (Z.leb_spec 0 addr); [|by exists None, [RawRead addr 4]].
  destruct (Z.leb_spec (addr + 4) (zlen (cells c)));
    [|by exists None, [RawRead addr 4]].
  exists (Some (ztake 4 (zdrop addr (cells c)))), [RawRead addr 4].
  split; [done|]. unfold zlen, ztake, zdrop in *.
  rewrite length_take_le; [lia|]. rewrite length_drop. lia.
Qed.

(** A write of fewer than four bytes at an aligned place in the area: after
    at most one raw read, one word is programmed at the place, and its first
    [len] bytes are those of [src]. *)
Lemma flash_area_write_short cfg (fa : flash_area) (off : Z) (src : list Z)
      (len : Z) (c : chip) :
  fa_device_id fa = FLASH_DEVICE_INTERNAL_FLASH cfg ->
  0 <= fa_off fa -> fa_off fa mod 4 = 0 ->
  0 <= off -> off mod 4 = 0 -> 0 <= len < 4 ->
  off + 4 <= fa_size fa ->
  fa_off fa + fa_size fa <= zlen (cells c) -> fa_off fa + fa_size fa < 2 ^ 32 ->
  len <= zlen src ->
  exists ops word,
    flash_area_write cfg fa off src len c
    = (0, mk_chip (programmed (cells c) (fa_off fa + off) word)
                  (oplog c ++ ops ++ [RawWrite (fa_off fa + off) word]))
    /\ zlen word = 4
    /\ ztake len word = ztake len src.
Proof.
  intros Hdev Hb0 Hb4 Ho0 Ho4 Hlen Hin Hchip Hwrap Hsrc.
  unfold flash_area_write. rewrite Hdev, Z.eqb_refl. cbn [negb].
  rewrite (u32_id (off + len)) by lia.
  destruct (Z.gtb_spec (off + len) (fa_size fa)); [lia|].
  rewrite (u32_id (fa_off fa + off)) by lia.
  destruct (Z.ltb_spec len 4); [|lia].
  destruct (flash_area_read_word cfg fa (fa_off fa + off) c)
    as (r & ops & Hread & Hword); [done|by rewrite Z.add_mod, Hb4, Ho4 by lia|].
  unfold bind, ret. cbv beta. rewrite Hread. cbn [fst snd].
  set (word := memcpy match r with Some w => w | None => [0; 0; 0; 0] end src len).
  assert (zlen word = 4) as Hw4.
  { unfold word, memcpy, zlen, ztake, zdrop in *.
    rewrite length_app, length_take_le, length_drop by lia.
    destruct r as [w|]; simpl length; lia. }
  assert (ztake 4 word = word) as Hw
    by (unfold ztake, zlen in *; apply take_ge; lia).
  rewrite bootloader_flash_write_ok; cbn [cells oplog]; try lia; try done.
  2:{ rewrite Z.add_mod, Hb4, Ho4 by lia. done. }
  exists ops, word. rewrite Hw, <- app_assoc. split; [done|]. split; [done|].
  unfold word, memcpy, ztake, zlen in *.
  rewrite take_app_le by (rewrite length_take_le; lia).
  rewrite take_take. f_equal. lia.
Qed.

(** * Part V: the SMP framing, verified *)

(** ** Bytes of a buffer *)

Lemma byte_at_is_byte (buf : list Z) (i : nat) :
  Forall is_byte buf -> is_byte (byte_at buf i).
Proof.
  intros Hbuf. unfold byte_at.
  destruct (buf !! i) as [b|] eqn:Hi; simpl.
  - eapply Forall_lookup_1; eauto.
  - unfold is_byte. lia.
Qed.

(** A decision procedure for [Forall is_byte], for concrete buffers. *)
Lemma all_bytes (buf : list Z) :
  forallb (fun b => (0 <=? b) && (b <? 256)) buf = true -> Forall is_byte buf.
Proof.
  intros H. apply Forall_forall. intros b Hb.
  apply list_elem_of_In in Hb.
  rewrite forallb_forall in H. specialize (H b Hb).
  unfold is_byte. lia.
Qed.

Lemma byte_at_insert_ne (buf : list Z) (i j : nat) (x : Z) :
  i <> j -> byte_at (<[i:=x]> buf) j = byte_at buf j.
Proof. intros. unfold byte_at. by rewrite list_lookup_insert_ne. Qed.

Lemma byte_at_insert_eq (buf : list Z) (i : nat) (x : Z) :
  (i < length buf)%nat -> byte_at (<[i:=x]> buf) i = x.
Proof. intros. unfold byte_at. by rewrite list_lookup_insert_eq. Qed.

Lemma byte_at_store16_ne (buf : list Z) (i j : nat) (v : Z) :
  j <> i -> j <> S i -> byte_at (store16 buf i v) j = byte_at buf j.
Proof.
  intros. unfold store16. rewrite !byte_at_insert_ne; auto.
Qed.

Lemma length_store16 (buf : list Z) (i : nat) (v : Z) :
  length (store16 buf i v) = length buf.
Proof. unfold store16. by rewrite !length_insert. Qed.

Lemma store16_bytes (buf : list Z) (i : nat) (v : Z) :
  (S i < length buf)%nat ->
  byte_at (store16 buf i v) i = u16 v mod 256
  /\ byte_at (store16 buf i v) (S i) = u16 v / 256.
Proof.
  intros. unfold store16. split.
  - rewrite byte_at_insert_ne by lia. apply byte_at_insert_eq. lia.
  - apply byte_at_insert_eq. rewrite length_insert. lia.
Qed.

Lemma u16_range (x : Z) : 0 <= u16 x < 65536.
Proof. unfold u16. apply Z.mod_pos_bound. lia. Qed.

Lemma load16_store16 (buf : list Z) (i : nat) (v : Z) :
  (S i < length buf)%nat -> load16 (store16 buf i v) i = u16 v.
Proof.
  intros H. unfold load16. destruct (store16_bytes buf i v H) as [-> ->].
  pose proof (Z.div_mod (u16 v) 256). lia.
Qed.

Lemma drop_store16 (buf : list Z) (i : nat) (v : Z) (n : nat) :
  (S i < n)%nat -> drop n (store16 buf i v) = drop n buf.
Proof.
  intros. unfold store16. rewrite !drop_insert_lt by lia. done.
Qed.

Lemma htons_bytes (lo hi : Z) :
  is_byte lo -> is_byte hi -> htons (lo + 256 * hi) = hi + 256 * lo.
Proof.
  unfold is_byte, htons, u16. intros Hlo Hhi.
  rewrite (Z.mod_small (lo + 256 * hi)) by lia.
  pose proof (Z.div_mod (lo + 256 * hi) 256).
  pose proof (Z.mod_pos_bound (lo + 256 * hi) 256).
  lia.
Qed.

Lemma ntohs_load16 (buf : list Z) (i : nat) :
  Forall is_byte buf -> ntohs (load16 buf i) = wire16 buf i.
Proof.
  intros Hbuf. unfold ntohs, load16, wire16.
  rewrite htons_bytes by (by apply byte_at_is_byte). lia.
Qed.

Lemma wire16_range (buf : list Z) (i : nat) :
  Forall is_byte buf -> 0 <= wire16 buf i < 65536.
Proof.
  intros Hbuf. unfold wire16.
  pose proof (byte_at_is_byte buf i Hbuf).
  pose proof (byte_at_is_byte buf (S i) Hbuf).
  unfold is_byte in *. lia.
Qed.

(** The header check of [boot_grp_procces], as a proposition. *)
Lemma boot_grp_procces_None (buf : list Z) (len : Z) :
  Forall is_byte buf -> 0 <= len < 2 ^ 32 ->
  boot_grp_procces buf len = None <->
  (len < 8
   \/ (nh_op buf <> NMGR_OP_READ /\ nh_op buf <> NMGR_OP_WRITE)
   \/ wire16 buf 2 < len - 8).
Proof.
  intros Hbuf Hlen. unfold boot_grp_procces, sizeof_hdr, nh_len.
  rewrite ntohs_load16 by done.
  destruct (Z.ltb_spec len 8) as [Hshort|Hlong]; simpl.
  { split; [intros _; by left | done]. }
  rewrite (u32_id (len - 8)) by lia.
  destruct (Z.eqb_spec (nh_op buf) NMGR_OP_READ) as [Hr|Hr];
    destruct (Z.eqb_spec (nh_op buf) NMGR_OP_WRITE) as [Hw|Hw]; simpl;
    destruct (Z.ltb_spec (wire16 buf 2) (len - 8)) as [Hl|Hl]; simpl;
    split; try done; try (intros _; right; auto; fail);
    intros [?|[[? ?]|?]]; try lia; try done.
Qed.

Ltac bytes_ok :=
  repeat first [ apply Forall_nil_2
               | apply Forall_cons_2; [unfold is_byte; lia|] ].

(** C1 (as the specification words it, refuted).  A datagram of exactly 8
    bytes whose length field says 5 has
    [header.length > datagram_length - 8], so the specification wants it
    dropped; the dispatcher routes it and a reply is sent.  A datagram of
    12 bytes whose length field says 0 is within the specification's bound,
    and the dispatcher drops it. *)
Lemma boot_grp_procces_length_check_counterexample :
  (spec_drops [0; 0; 0; 5; 0; 0; 0; 0] 8
   /\ boot_grp_procces [0; 0; 0; 5; 0; 0; 0; 0] 8
      = Some ([0; 0; 0; 5; 0; 0; 0; 0], Call_bs_rc_rsp MGMT_ERR_ENOTSUP))
  /\ (~ spec_drops [0; 0; 0; 0; 0; 0; 0; 0; 1; 1; 1; 1] 12
      /\ boot_grp_procces [0; 0; 0; 0; 0; 0; 0; 0; 1; 1; 1; 1] 12 = None).
Proof.
  split; split; try reflexivity.
  - right; right. vm_compute. reflexivity.
  - unfold spec_drops. vm_compute. intros [H|[[H _]|H]]; congruence.
Qed.

(** The routing of a datagram that passes the header check. *)
Lemma boot_grp_procces_Some (buf : list Z) (len : Z) :
  Forall is_byte buf -> 8 <= len <= zlen buf -> len < 2 ^ 32 ->
  boot_grp_procces buf len <> None ->
  boot_grp_procces buf len
  = Some (store16 buf 4 (wire16 buf 4),
          spec_route (nh_op buf) (wire16 buf 4) (nh_id buf)
                     (zdrop 8 buf) (len - 8)).
Proof.
  intros Hbuf Hlen Hlt Hsome. unfold zlen in Hlen.
  pose proof (wire16_range buf 4 Hbuf) as Hw.
  assert (ntohs (nh_group buf) = wire16 buf 4) as Hgrp
    by (by apply ntohs_load16).
  assert (nh_group (store16 buf 4 (wire16 buf 4)) = wire16 buf 4) as Hg'.
  { unfold nh_group. rewrite load16_store16 by lia.
    unfold u16. apply Z.mod_small. lia. }
  assert (nh_id (store16 buf 4 (wire16 buf 4)) = nh_id buf) as Hid
    by (apply byte_at_store16_ne; lia).
  assert (nh_op (store16 buf 4 (wire16 buf 4)) = nh_op buf) as Hop
    by (unfold nh_op; f_equal; apply byte_at_store16_ne; lia).
  assert (zdrop sizeof_hdr (store16 buf 4 (wire16 buf 4)) = zdrop 8 buf) as Hpl
    by (apply drop_store16; vm_compute; lia).
  unfold boot_grp_procces in *.
  destruct (_ || _ || _); [done|]. clear Hsome.
  cbv zeta. rewrite Hgrp, Hg', Hid, Hop, Hpl.
  unfold sizeof_hdr. rewrite (u32_id (len - 8)) by lia.
  f_equal. f_equal. unfold spec_route.
  destruct (Z.eqb_spec (wire16 buf 4) MGMT_GROUP_ID_IMAGE) as [Hg|Hg]; simpl.
  - destruct (nh_id buf =? NMGR_ID_STATE); [done|].
    destruct (nh_id buf =? NMGR_ID_UPLOAD); [done|].
    destruct (nh_id buf =? NMGR_ID_SLOT_INFO); [done|].
    rewrite Hg. done.
  - destruct (wire16 buf 4 =? MGMT_GROUP_ID_OS); simpl; [|done].
    destruct (nh_id buf =? NMGR_ID_RESET); [done|].
    destruct (nh_id buf =? NMGR_ID_PARAMS); done.
Qed.

(** C1 (amended).  A datagram is dropped, with no handler called and nothing
    sent, exactly when it is shorter than 8 bytes, or its op is neither READ
    nor WRITE, or its big-endian length field is LESS than the datagram
    length minus 8.  Every other datagram reaches the handler the routing
    table gives for its (group, id), with its op, its payload and the payload
    length; its seq byte stays in the header the reply is built from. *)
Theorem boot_grp_procces_drops_iff (buf : list Z) (len : Z) :
  Forall is_byte buf -> 0 <= len <= zlen buf -> len < 2 ^ 32 ->
  (boot_grp_procces buf len = None <->
   (len < 8
    \/ (nh_op buf <> NMGR_OP_READ /\ nh_op buf <> NMGR_OP_WRITE)
    \/ wire16 buf 2 < len - 8))
  /\ (boot_grp_procces buf len <> None ->
      exists hdr,
        boot_grp_procces buf len
        = Some (hdr, spec_route (nh_op buf) (wire16 buf 4) (nh_id buf)
                                (zdrop 8 buf) (len - 8))
        /\ nh_seq hdr = nh_seq buf).
Proof.
  intros Hbuf Hlen Hlt. split.
  - apply boot_grp_procces_None; [done|lia].
  - intros Hsome.
    assert (8 <= len) as Hlong.
    { destruct (Z.lt_ge_cases len 8) as [Hs|]; [|done].
      exfalso. apply Hsome. apply boot_grp_procces_None; [done|lia|by left]. }
    eexists. split.
    + apply boot_grp_procces_Some; auto with lia.
    + unfold nh_seq. apply byte_at_store16_ne; lia.
Qed.

Lemma boot_grp_procces_drops_iff_witness :
  let buf := [2; 0; 0; 5; 0; 1; 7; 1; 9; 9; 9; 9; 9] in
  (boot_grp_procces buf 13 = None <->
   (13 < 8
    \/ (nh_op buf <> NMGR_OP_READ /\ nh_op buf <> NMGR_OP_WRITE)
    \/ wire16 buf 2 < 13 - 8))
  /\ (boot_grp_procces buf 13 <> None ->
      exists hdr,
        boot_grp_procces buf 13
        = Some (hdr, spec_route (nh_op buf) (wire16 buf 4) (nh_id buf)
                                (zdrop 8 buf) (13 - 8))
        /\ nh_seq hdr = nh_seq buf).
Proof.
  apply (boot_grp_procces_drops_iff [2; 0; 0; 5; 0; 1; 7; 1; 9; 9; 9; 9; 9] 13).
  - bytes_ok.
  - vm_compute. split; discriminate.
  - lia.
Defined.

(** ** The reply header *)

Lemma htons_split (v : Z) :
  0 <= v < 65536 ->
  u16 (htons v) mod 256 = v / 256 /\ u16 (htons v) / 256 = v mod 256.
Proof.
  intros Hv. unfold htons, u16.
  rewrite (Z.mod_small v) by lia.
  pose proof (Z.div_mod v 256). pose proof (Z.mod_pos_bound v 256).
  assert (0 <= v / 256 < 256) by lia.
  rewrite (Z.mod_small (v mod 256 * 256 + v / 256)) by lia.
  pose proof (Z.div_mod (v mod 256 * 256 + v / 256) 256).
  pose proof (Z.mod_pos_bound (v mod 256 * 256 + v / 256) 256).
  lia.
Qed.

(** Storing [htons v] puts [v] on the wire in big-endian order. *)
Lemma wire16_store16_htons (buf : list Z) (i : nat) (v : Z) :
  (S i < length buf)%nat -> 0 <= v < 65536 ->
  byte_at (store16 buf i (htons v)) i = v / 256
  /\ byte_at (store16 buf i (htons v)) (S i) = v mod 256.
Proof.
  intros Hi Hv.
  destruct (store16_bytes buf i (htons v) Hi) as [-> ->].
  by apply htons_split.
Qed.

Lemma byte_at_app_l (l k : list Z) (i : nat) :
  (i < length l)%nat -> byte_at (l ++ k) i = byte_at l i.
Proof. intros. unfold byte_at. by rewrite lookup_app_l. Qed.

Lemma byte_at_take (l : list Z) (n i : nat) :
  (i < n)%nat -> byte_at (take n l) i = byte_at l i.
Proof. intros. unfold byte_at. by rewrite lookup_take_lt. Qed.

(** The datagram [boot_grp_send] hands to the socket: the eight header
    bytes of the buffer, then the encoded payload. *)
Lemma boot_grp_send_datagram (udp_buffer obuf : list Z) :
  (8 <= length udp_buffer)%nat ->
  snd (boot_grp_send udp_buffer obuf)
  = take 8 (store16 (store16 udp_buffer 2 (htons (zlen obuf))) 4
              (htons (nh_group (store16 udp_buffer 2 (htons (zlen obuf))))))
    ++ obuf.
Proof.
  intros Hlen. unfold boot_grp_send, memcpy, ztake, zdrop, sizeof_hdr, zlen.
  cbv zeta. simpl snd.
  set (hdr := store16 (store16 udp_buffer 2 _) 4 _).
  assert (length hdr = length udp_buffer) as Hh
    by (unfold hdr; by rewrite !length_store16).
  rewrite Nat2Z.id, (take_ge obuf) by lia.
  change (Z.to_nat 8) with 8%nat.
  rewrite Z2Nat.inj_add, Nat2Z.id by lia.
  change (Z.to_nat 8) with 8%nat.
  rewrite take_app, length_take_le by lia.
  rewrite take_take, Nat.min_r by lia.
  replace (length obuf + 8 - 8)%nat with (length obuf) by lia.
  by rewrite take_app_length.
Qed.

(** C10.  For every datagram the dispatcher does not drop, and whatever
    payload the handler encodes, the datagram sent back by [boot_grp_send]
    (and the acknowledgement sent by [bs_reset]) starts with a header whose
    seq and id bytes, and whose first two bytes, are those of the request;
    the group field is back in the byte order it arrived in, and only the
    length field is new: the payload length, big-endian. *)
Theorem reply_header_round_trips_seq
        (buf : list Z) (len : Z) (obuf hdr : list Z) (call : handler_call) :
  Forall is_byte buf -> 0 <= len <= zlen buf -> len < 2 ^ 32 ->
  zlen obuf < 2 ^ 16 ->
  boot_grp_procces buf len = Some (hdr, call) ->
  (let sent := snd (boot_grp_send hdr obuf) in
   nh_seq sent = nh_seq buf /\ nh_id sent = nh_id buf
   /\ byte_at sent 0 = byte_at buf 0 /\ byte_at sent 1 = byte_at buf 1
   /\ byte_at sent 4 = byte_at buf 4 /\ byte_at sent 5 = byte_at buf 5
   /\ wire16 sent 2 = zlen obuf
   /\ drop 8 sent = obuf)
  /\ (let ack := snd (bs_reset hdr) in
      nh_seq ack = nh_seq buf /\ nh_id ack = nh_id buf
      /\ byte_at ack 0 = byte_at buf 0 /\ byte_at ack 1 = byte_at buf 1
      /\ byte_at ack 4 = byte_at buf 4 /\ byte_at ack 5 = byte_at buf 5
      /\ wire16 ack 2 = 0
      /\ length ack = 8%nat).
Proof.
  intros Hbuf Hlen Hlt Hobuf Hrun.
  assert (boot_grp_procces buf len <> None) as Hsome by congruence.
  assert (8 <= len) as Hlong.
  { destruct (Z.lt_ge_cases len 8) as [Hs|]; [|done].
    exfalso. apply Hsome. apply boot_grp_procces_None; [done|lia|by left]. }
  rewrite boot_grp_procces_Some in Hrun by auto with lia.
  injection Hrun as <- _. unfold zlen in Hlen.
  pose proof (wire16_range buf 4 Hbuf) as Hw.
  pose proof (byte_at_is_byte buf 4 Hbuf) as Hb4.
  pose proof (byte_at_is_byte buf 5 Hbuf) as Hb5.
  set (hdr := store16 buf 4 (wire16 buf 4)).
  assert (length hdr = length buf) as Hh by apply length_store16.
  (* the group field in host order, for either length store *)
  assert (forall v, nh_group (store16 hdr 2 v) = wire16 buf 4) as Hgrp.
  { intros v. unfold nh_group, load16.
    rewrite !byte_at_store16_ne by lia.
    fold (load16 hdr 4). unfold hdr. rewrite load16_store16 by lia.
    unfold u16. apply Z.mod_small. lia. }
  (* the header bytes after both stores *)
  assert (forall v, 0 <= v < 65536 ->
            let h := store16 (store16 hdr 2 (htons v)) 4
                             (htons (nh_group (store16 hdr 2 (htons v)))) in
            length h = length buf
            /\ byte_at h 0 = byte_at buf 0 /\ byte_at h 1 = byte_at buf 1
            /\ byte_at h 2 = v / 256 /\ byte_at h 3 = v mod 256
            /\ byte_at h 4 = byte_at buf 4 /\ byte_at h 5 = byte_at buf 5
            /\ byte_at h 6 = byte_at buf 6 /\ byte_at h 7 = byte_at buf 7)
    as Hhdr.
  { intros v Hv h. unfold h. rewrite Hgrp.
    destruct (wire16_store16_htons (store16 hdr 2 (htons v)) 4 (wire16 buf 4))
      as [H4 H5]; [rewrite length_store16; lia|lia|].
    destruct (wire16_store16_htons hdr 2 v) as [H2 H3]; [lia|lia|].
    rewrite !length_store16. split; [done|].
    rewrite H4, H5. rewrite !(byte_at_store16_ne _ 4) by lia.
    rewrite H2, H3. rewrite !(byte_at_store16_ne _ 2) by lia.
    unfold hdr. rewrite !(byte_at_store16_ne _ 4) by lia.
    unfold wire16. unfold is_byte in *.
    pose proof (Z.div_mod (256 * byte_at buf 4 + byte_at buf 5) 256).
    pose proof (Z.mod_pos_bound (256 * byte_at buf 4 + byte_at buf 5) 256).
    repeat split; lia. }
  split.
  - cbv zeta. rewrite boot_grp_send_datagram by lia.
    destruct (Hhdr (zlen obuf)) as (Hl & H0 & H1 & H2 & H3 & H4 & H5 & H6 & H7);
      [unfold zlen in *; lia|].
    unfold nh_seq, nh_id, wire16.
    rewrite !byte_at_app_l by (rewrite length_take_le; lia).
    rewrite !byte_at_take by lia.
    rewrite H0, H1, H2, H3, H4, H5, H6, H7.
    repeat split; try done.
    + pose proof (Z.div_mod (zlen obuf) 256). lia.
    + rewrite drop_app_length'; [done|]. rewrite length_take_le; lia.
  - cbv zeta. unfold bs_reset. simpl snd.
    destruct (Hhdr 0) as (Hl & H0 & H1 & H2 & H3 & H4 & H5 & H6 & H7); [lia|].
    change (htons 0) with 0 in *.
    unfold nh_seq, nh_id, wire16, ztake, sizeof_hdr.
    change (Z.to_nat 8) with 8%nat.
    rewrite !byte_at_take by lia.
    rewrite H0, H1, H2, H3, H4, H5, H6, H7.
    repeat split; try done. rewrite length_take_le; lia.
Qed.

Lemma reply_header_round_trips_seq_witness :
  let buf := [2; 0; 0; 5; 0; 1; 7; 1; 9; 9; 9; 9; 9] in
  let hdr := [2; 0; 0; 5; 1; 0; 7; 1; 9; 9; 9; 9; 9] in
  let obuf := [0xA1; 0x62; 0x72; 0x63; 0x03] in
  (let sent := snd (boot_grp_send hdr obuf) in
   nh_seq sent = nh_seq buf /\ nh_id sent = nh_id buf
   /\ byte_at sent 0 = byte_at buf 0 /\ byte_at sent 1 = byte_at buf 1
   /\ byte_at sent 4 = byte_at buf 4 /\ byte_at sent 5 = byte_at buf 5
   /\ wire16 sent 2 = zlen obuf
   /\ drop 8 sent = obuf)
  /\ (let ack := snd (bs_reset hdr) in
      nh_seq ack = nh_seq buf /\ nh_id ack = nh_id buf
      /\ byte_at ack 0 = byte_at buf 0 /\ byte_at ack 1 = byte_at buf 1
      /\ byte_at ack 4 = byte_at buf 4 /\ byte_at ack 5 = byte_at buf 5
      /\ wire16 ack 2 = 0
      /\ length ack = 8%nat).
Proof.
  apply (reply_header_round_trips_seq
           [2; 0; 0; 5; 0; 1; 7; 1; 9; 9; 9; 9; 9] 13
           [0xA1; 0x62; 0x72; 0x63; 0x03]
           [2; 0; 0; 5; 1; 0; 7; 1; 9; 9; 9; 9; 9]
           (Call_bs_upload [9; 9; 9; 9; 9] 5)).
  - bytes_ok.
  - vm_compute. split; discriminate.
  - lia.
  - vm_compute. reflexivity.
  - vm_compute. reflexivity.
Defined.

(** * Part VI: the upload state machine, verified *)

Section Upload.

Variable cfg : sysflash.
Variable env : bootutil.

Lemma decode_chunk (stack : option (list Z)) (off len : Z) (data : list Z) :
  decode_upload stack [F_off off; F_len len; F_data data]
  = mk_upload_locals UINT_MAX (Some data) (u32 len) (u32 off).
Proof. reflexivity. Qed.

(** [upload_accept] on a chunk at offset 0 whose target area opens. *)
Lemma upload_accept_first (l : upload_locals) (w : world) (img_chunk : list Z)
      (fap : flash_area) :
  img_chunk_data l = Some img_chunk ->
  img_chunk_off l = 0 ->
  secondary_of cfg (chosen_image l) = Some fap ->
  upload_accept cfg (Some l) w
  = if img_size_tmp l >? fa_size fap
    then Answered (upload_out MGMT_ERR_EINVAL
                     (mk_upload_state (img_size (ust w)) 0 (chosen_image l))
                     (dev w) (calls w))
    else
      let '(rc, d) := flash_area_erase cfg fap 0 (fa_size fap) (dev w) in
      if negb (rc =? 0)
      then Answered (upload_out MGMT_ERR_EINVAL
                       (mk_upload_state (img_size (ust w)) 0 (chosen_image l))
                       d (calls w))
      else Accepted fap img_chunk
                    (mk_upload_state (img_size_tmp l) 0 (chosen_image l)) d.
Proof.
  intros Hdata Hoff Hopen. unfold upload_accept, secondary_of in *.
  rewrite Hdata, Hoff. change (0 =? SIZE_MAX) with false.
  change (0 =? 0) with true. cbv iota. cbn [img_num img_size curr_off].
  fold (chosen_image l).
  destruct (flash_area_open cfg _) as [rc o]. simpl in Hopen. subst o.
  done.
Qed.

(** [upload_accept] on a chunk at a nonzero offset, when the area of the
    stored image number opens. *)
Lemma upload_accept_next (l : upload_locals) (w : world) (img_chunk : list Z)
      (fap : flash_area) :
  img_chunk_data l = Some img_chunk ->
  img_chunk_off l <> SIZE_MAX ->
  img_chunk_off l <> 0 ->
  secondary_of cfg (img_num (ust w)) = Some fap ->
  upload_accept cfg (Some l) w
  = if negb (img_chunk_off l =? curr_off (ust w))
    then Answered (upload_out 0 (ust w) (dev w) (calls w))
    else if u32 (curr_off (ust w) + zlen img_chunk) >? img_size (ust w)
    then Answered (upload_out MGMT_ERR_EINVAL (ust w) (dev w) (calls w))
    else Accepted fap img_chunk (ust w) (dev w).
Proof.
  intros Hdata Hmax Hoff Hopen. unfold upload_accept, secondary_of in *.
  rewrite Hdata.
  destruct (Z.eqb_spec (img_chunk_off l) SIZE_MAX); [done|].
  destruct (Z.eqb_spec (img_chunk_off l) 0); [done|].
  destruct (flash_area_open cfg _) as [rc o]. simpl in Hopen. subst o.
  done.
Qed.

(** C9.  On any board where the secondary slot of image 0 opens and its
    erase succeeds, the request with "off" 0, "len" 0 and a "data" entry
    (empty or not) is accepted with [img_size = 0] and runs into the
    division [curr_off * 100 / img_size]: no test of [img_size] stands
    between the public interface and the divisor. *)
Theorem upload_of_zero_len_divides_by_zero
        (w : world) (stack : option (list Z)) (data : list Z)
        (fap : flash_area) (d' : chip) :
  secondary_of cfg 0 = Some fap ->
  0 <= fa_size fap ->
  flash_area_erase cfg fap 0 (fa_size fap) (dev w) = (0, d') ->
  let req := Some (decode_upload stack [F_off 0; F_len 0; F_data data]) in
  upload_accept cfg req w = Accepted fap data (mk_upload_state 0 0 0) d'
  /\ img_size (mk_upload_state 0 0 0) = 0
  /\ bs_upload cfg env req w = Fault DivisionByZero.
Proof.
  intros Hopen Hsize Herase req.
  assert (upload_accept cfg req w = Accepted fap data (mk_upload_state 0 0 0) d')
    as Hacc.
  { unfold req. rewrite decode_chunk.
    rewrite (upload_accept_first _ w data fap) by done.
    cbn [img_size_tmp]. change (u32 0) with 0.
    destruct (Z.gtb_spec 0 (fa_size fap)); [lia|].
    rewrite Herase. done. }
  split; [done|]. split; [done|].
  unfold bs_upload. rewrite Hacc.
  unfold upload_write, upload_split, upload_progress.
  cbn [img_size curr_off]. by destruct (_ <? 0).
Qed.

(** ** The statics across a request *)

(** A request answered before the write leaves the statics as they were,
    but for [img_num] (when the area does not open) or for [img_num] and a
    cursor reset to 0. *)
Lemma upload_accept_answered_state (req : option upload_locals) (w : world)
      (r : reply) (w' : world) :
  upload_accept cfg req w = Answered (Replied r w') ->
  ust w' = ust w
  \/ (exists n, ust w' = mk_upload_state (img_size (ust w)) (curr_off (ust w)) n
                /\ secondary_of cfg n = None)
  \/ (exists n, ust w' = mk_upload_state (img_size (ust w)) 0 n).
Proof.
  unfold upload_accept, secondary_of, upload_out. intros Hacc.
  destruct req as [l|]; [|injection Hacc as _ <-; by left].
  destruct (img_chunk_data l) as [img_chunk|];
    [|injection Hacc as _ <-; by left].
  destruct (img_chunk_off l =? SIZE_MAX); [injection Hacc as _ <-; by left|].
  destruct (img_chunk_off l =? 0).
  - cbn [img_num img_size curr_off] in Hacc.
    destruct (flash_area_open cfg _) as [rc [fap|]] eqn:Hopen.
    + destruct (_ >? _); [injection Hacc as _ <-; right; right; eauto|].
      destruct (flash_area_erase cfg fap 0 _ _) as [rc' d'].
      destruct (negb (rc' =? 0)); [injection Hacc as _ <-; right; right; eauto|done].
    + injection Hacc as _ <-. right; left. eexists. split; [done|].
      by rewrite Hopen.
  - destruct (flash_area_open cfg _) as [rc [fap|]];
      [|injection Hacc as _ <-; by left].
    destruct (negb _); [injection Hacc as _ <-; by left|].
    destruct (_ >? _); [injection Hacc as _ <-; by left|done].
Qed.

(** What is known of an accepted chunk. *)
Lemma upload_accept_accepted (req : option upload_locals) (w : world)
      (fap : flash_area) (img_chunk : list Z) (st : upload_state) (d : chip) :
  upload_accept cfg req w = Accepted fap img_chunk st d ->
  wf_request req ->
  secondary_of cfg (img_num st) = Some fap
  /\ zlen img_chunk <= UDP_BUFFER_SIZE
  /\ zlen (cells d) = zlen (cells (dev w))
  /\ ((curr_off st = 0 /\ 0 <= img_size st <= fa_size fap)
      \/ (st = ust w /\ curr_off st <> 0
          /\ u32 (curr_off st + zlen img_chunk) <= img_size st)).
Proof.
  unfold upload_accept, secondary_of, wf_request. intros Hacc Hwf.
  destruct req as [l|]; [|done].
  destruct Hwf as (_ & Hsize & _ & Hchunk).
  destruct (img_chunk_data l) as [c|]; [|done].
  destruct (img_chunk_off l =? SIZE_MAX); [done|].
  destruct (Z.eqb_spec (img_chunk_off l) 0) as [Hoff|Hoff].
  - cbn [img_num img_size curr_off] in Hacc.
    destruct (flash_area_open cfg _) as [rc [fa|]] eqn:Hopen; [|done].
    destruct (Z.gtb_spec (img_size_tmp l) (fa_size fa)); [done|].
    pose proof (flash_area_erase_zlen cfg fa 0 (fa_size fa) (dev w)) as Hz.
    destruct (flash_area_erase cfg fa 0 _ _) as [rc' d'].
    destruct (negb (rc' =? 0)); [done|]. injection Hacc as <- <- <- <-.
    cbn [img_num img_size curr_off]. rewrite Hopen.
    split; [done|]. split; [done|]. split; [done|]. left. lia.
  - destruct (flash_area_open cfg _) as [rc [fa|]] eqn:Hopen; [|done].
    destruct (Z.eqb_spec (img_chunk_off l) (curr_off (ust w))) as [Hcur|];
      [|done].
    cbn [negb] in Hacc.
    destruct (Z.gtb_spec (u32 (curr_off (ust w) + zlen c)) (img_size (ust w)));
      [done|].
    injection Hacc as <- <- <- <-. rewrite Hopen.
    split; [done|]. split; [done|]. split; [done|].
    right. split; [done|]. split; [lia|done].
Qed.

(** The write of an accepted chunk either leaves the statics alone or
    advances the cursor by the bytes it stored. *)
Lemma upload_write_state (fap : flash_area) (img_chunk : list Z)
      (st : upload_state) (d : chip) (cs : list ext_call)
      (r : reply) (w' : world) :
  upload_write cfg env fap img_chunk st d cs = Replied r w' ->
  ust w' = st
  \/ ust w' = mk_upload_state
                (img_size st)
                (u32 (curr_off st
                      + u32 ((upload_split fap img_chunk st).1
                             + (upload_split fap img_chunk st).2)))
                (img_num st).
Proof.
  unfold upload_write, upload_out.
  destruct (upload_split fap img_chunk st) as [n rem]. cbn [fst snd].
  destruct (upload_progress n st) as [[bar [|]]|]; try done.
  destruct (upload_store cfg env fap img_chunk st d) as [rc d'].
  destruct (rc =? 0); [|intros [= _ <-]; by left].
  cbn [curr_off img_size img_num].
  destruct (_ =? _); [destruct (negb _)|]; intros [= _ <-]; by right.
Qed.

(** The two results of [upload_split]: the residue is kept only when the
    chunk reaches [img_size]. *)
Lemma upload_split_cases (fap : flash_area) (img_chunk : list Z)
      (st : upload_state) :
  zlen img_chunk < 2 ^ 32 ->
  exists n rem,
    upload_split fap img_chunk st = (n, rem)
    /\ n = zlen img_chunk - zlen img_chunk mod 4
    /\ 0 <= n /\ n mod 4 = 0 /\ n <= zlen img_chunk
    /\ (rem = 0
        \/ (rem = zlen img_chunk mod 4
            /\ img_size st <= u32 (curr_off st + zlen img_chunk))).
Proof.
  intros Hlen. unfold upload_split, flash_area_align.
  pose proof (zlen_nonneg img_chunk) as Hlen0.
  pose proof (Z.mod_pos_bound (zlen img_chunk) 4 ltac:(lia)) as Hrr.
  pose proof (Z.mod_le (zlen img_chunk) 4 ltac:(lia) ltac:(lia)) as Hrl.
  rewrite (u32_id (zlen img_chunk - _)) by lia.
  replace (curr_off st + (zlen img_chunk - zlen img_chunk mod 4)
           + zlen img_chunk mod 4)
    with (curr_off st + zlen img_chunk) by lia.
  eexists _, _. split; [done|]. split; [done|]. split; [lia|].
  split.
  { rewrite (Z.div_mod (zlen img_chunk) 4) at 1 by lia.
    rewrite Z.add_simpl_r, Z.mul_comm. apply Z.mod_mul. lia. }
  split; [lia|].
  destruct (Z.ltb_spec (u32 (curr_off st + zlen img_chunk)) (img_size st));
    [by left|by right].
Qed.

Section Invariant.

Hypothesis Hboard : board_ok cfg env.

(** Every answered request keeps the invariant of the statics. *)
Lemma upload_inv_step (req : option upload_locals) (w : world) (r : reply)
      (w' : world) :
  upload_inv cfg (ust w) -> wf_request req ->
  bs_upload cfg env req w = Replied r w' ->
  upload_inv cfg (ust w').
Proof.
  intros Hinv Hwf Hrun. unfold bs_upload in Hrun.
  destruct (upload_accept cfg req w) as [o|fap img_chunk st d] eqn:Hacc.
  - subst o.
    destruct (upload_accept_answered_state req w r w' Hacc)
      as [->|[(n & -> & Hnone)|(n & ->)]]; [done| |];
      destruct Hinv as (H1 & H2 & H3 & H4 & H5); unfold upload_inv;
      cbn [curr_off img_size img_num].
    + do 4 (split; [done|]). intros fap _ Hopen. congruence.
    + unfold UDP_BUFFER_SIZE. split; [lia|]. split; [done|].
      split; [right; lia|]. split; [done|]. intros fap Hne. lia.
  - destruct (upload_accept_accepted req w fap img_chunk st d Hacc Hwf)
      as (Hopen & Hchunk & _ & Hcase).
    destruct Hboard as [_ Hareas].
    destruct (Hareas _ _ Hopen) as (_ & Hb0 & _ & _ & _ & Hb31).
    unfold UDP_BUFFER_SIZE in *.
    (* the invariant at the state the write starts from *)
    assert (upload_inv cfg st) as Hst.
    { destruct Hcase as [(Hc0 & Hsz)|(-> & _ & _)]; [|done].
      unfold upload_inv, UDP_BUFFER_SIZE. rewrite Hc0.
      split; [lia|]. split; [lia|]. split; [right; lia|]. split; [done|].
      intros fa Hne. lia. }
    destruct (upload_write_state fap img_chunk st d (calls w) r w' Hrun)
      as [->| ->]; [done|].
    destruct (upload_split_cases fap img_chunk st)
      as (n & rem & -> & Hn & Hn0 & Hn4 & Hnle & Hrem); [lia|].
    cbn [fst snd].
    pose proof (Z.mod_pos_bound (zlen img_chunk) 4 ltac:(lia)) as Hrr.
    destruct Hst as (H1 & H2 & H3 & H4 & H5).
    unfold upload_inv, UDP_BUFFER_SIZE in *.
    cbn [curr_off img_size img_num].
    assert (curr_off st + zlen img_chunk < 2 ^ 32) as Hnowrap by lia.
    rewrite (u32_id (curr_off st + zlen img_chunk)) in Hrem by lia.
    assert (0 <= rem /\ n + rem <= zlen img_chunk) as [Hrem0 Hsum]
      by (destruct Hrem as [->|[-> _]]; lia).
    rewrite (u32_id (n + rem)), (u32_id (curr_off st + (n + rem))) by lia.
    destruct Hcase as [(Hc0 & Hsz)|(_ & Hcnz & Hguard)].
    + (* the first chunk *)
      rewrite Hc0 in *. rewrite Z.add_0_l.
      split; [lia|]. split; [done|]. split; [right; lia|]. split.
      * intros Hlt. destruct Hrem as [->|[-> Hreach]]; [|lia].
        by rewrite Z.add_0_r.
      * intros fa _ Hfa. rewrite Hopen in Hfa. injection Hfa as <-. lia.
    + (* a later chunk *)
      rewrite u32_id in Hguard by lia.
      split; [lia|]. split; [done|]. split; [left; lia|]. split.
      * intros Hlt. destruct Hrem as [->|[-> Hreach]]; [|lia].
        rewrite Z.add_0_r, Z.add_mod, Hn4, H4 by lia. done.
      * intros fa _ Hfa. by apply H5.
Qed.

(** The invariant holds in every reachable world. *)
Lemma reachable_inv (w : world) :
  reachable cfg env w -> upload_inv cfg (ust w).
Proof.
  induction 1 as [d|w req r w' _ IH Hwf Hrun|w d cs _ IH].
  - unfold upload_inv, upload_init, UDP_BUFFER_SIZE.
    cbn [ust curr_off img_size img_num].
    split; [lia|]. split; [lia|]. split; [left; lia|]. split; [done|].
    intros fa Hne. lia.
  - by eapply upload_inv_step.
  - done.
Qed.

End Invariant.

(** ** The unaligned tail of an image *)

(** The word the handler builds from the residue of a chunk: the residue,
    then the erased value up to the alignment unit. *)
Lemma padded_residue (img_chunk : list Z) (n rem : Z) :
  zlen img_chunk = n + rem -> 0 <= n -> 0 < rem < 4 ->
  4 <= BOOT_MAX_ALIGN env ->
  ztake 4 (memcpy (memset 255 (BOOT_MAX_ALIGN env)) (zdrop n img_chunk) rem)
  = zdrop n img_chunk ++ replicate (Z.to_nat (4 - rem)) 255.
Proof.
  intros Hlen Hn Hrem Hmax. unfold memcpy, memset, ztake, zdrop, zlen in *.
  assert (length (drop (Z.to_nat n) img_chunk) = Z.to_nat rem) as Hres
    by (rewrite length_drop; lia).
  rewrite (take_ge (drop _ _)) by lia.
  rewrite take_app, (take_ge (drop _ _)), Hres by lia.
  rewrite drop_replicate, take_replicate. do 2 f_equal. lia.
Qed.

Lemma upload_split_final (fap : flash_area) (img_chunk : list Z)
      (st : upload_state) :
  0 <= curr_off st -> curr_off st + zlen img_chunk = img_size st ->
  img_size st < 2 ^ 32 ->
  upload_split fap img_chunk st
  = (zlen img_chunk - zlen img_chunk mod 4, zlen img_chunk mod 4).
Proof.
  intros Hc Hend Hwrap. unfold upload_split, flash_area_align.
  pose proof (zlen_nonneg img_chunk).
  pose proof (Z.mod_pos_bound (zlen img_chunk) 4).
  pose proof (Z.div_mod (zlen img_chunk) 4).
  rewrite (u32_id (zlen img_chunk - _)) by lia.
  rewrite u32_id by lia.
  destruct (Z.ltb_spec (curr_off st + (zlen img_chunk - zlen img_chunk mod 4)
                        + zlen img_chunk mod 4) (img_size st)); [lia|done].
Qed.

(** A chunk that stays within [img_size] never overruns the buffer of the
    progress bar, and [img_size] is not zero. *)
Lemma upload_progress_ok (n : Z) (st : upload_state) :
  0 <= curr_off st -> 0 <= n -> curr_off st + n <= img_size st ->
  0 < img_size st < 2 ^ 32 ->
  exists bar, upload_progress n st = Some (bar, true).
Proof.
  intros Hc Hn Hle Hsize. unfold upload_progress.
  destruct (Z.eqb_spec (img_size st) 0); [lia|].
  destruct (negb _); [|by eexists].
  eexists. do 2 f_equal.
  set (x := u32 (u32 (curr_off st + n) * 100) / img_size st).
  assert (0 <= x <= 100) as Hx.
  { unfold x. rewrite (u32_id (curr_off st + n)) by lia. split.
    - apply Z.div_pos; [apply u32_range|lia].
    - apply Z.div_le_upper_bound; [lia|].
      unfold u32. pose proof (Z.mod_le ((curr_off st + n) * 100) (2 ^ 32)).
      nia. }
  assert (to_int x = x) as ->.
  { unfold to_int. rewrite u32_id by lia.
    destruct (Z.leb_spec x INT_MAX); [done|]. unfold INT_MAX in *. lia. }
  change (Z.of_nat (String.length title)) with 25.
  unfold proccess_bar_print. rewrite (u32_id x) by lia.
  destruct (Z.leb_spec (25 + 3 + x) 256); [|lia]. cbn [andb].
  destruct (Z.eqb_spec x 100); [done|]. cbn [negb].
  rewrite u32_id by lia. apply Z.leb_le. lia.
Qed.

Section Tail.

Variable fap : flash_area.
Hypothesis Hdev : fa_device_id fap = FLASH_DEVICE_INTERNAL_FLASH cfg.
Hypothesis Hmax : 4 <= BOOT_MAX_ALIGN env.
Hypothesis Hbase : 0 <= fa_off fap.
Hypothesis Hbase4 : fa_off fap mod 4 = 0.
Hypothesis Hwrap : fa_off fap + fa_size fap < 2 ^ 32.

(** The stores of a final chunk whose length is not a multiple of 4. *)
Lemma upload_store_final (img_chunk : list Z) (st : upload_state) (d : chip) :
  0 <= curr_off st -> curr_off st mod 4 = 0 ->
  zlen img_chunk mod 4 <> 0 ->
  curr_off st + zlen img_chunk = img_size st ->
  img_size st - zlen img_chunk mod 4 + 4 <= fa_size fap ->
  fa_off fap + fa_size fap <= zlen (cells d) ->
  let rem := zlen img_chunk mod 4 in
  let n := zlen img_chunk - rem in
  let addr := fa_off fap + curr_off st + n in
  let word := zdrop n img_chunk ++ replicate (Z.to_nat (4 - rem)) 255 in
  exists ops d',
    upload_store cfg env fap img_chunk st d = (0, d')
    /\ oplog d' = oplog d ++ ops ++ [RawWrite addr word]
    /\ addr mod 4 = 0
    /\ zlen word = 4
    /\ (4 <= n -> peek d' addr 4 = program (peek d addr 4) word).
Proof.
  intros Hc Hc4 Hrem Hend Hfit Hchip rem n addr word.
  pose proof (zlen_nonneg img_chunk) as Hlen0.
  pose proof (Z.mod_pos_bound (zlen img_chunk) 4) as Hrem_range.
  pose proof (Z.div_mod (zlen img_chunk) 4) as Hdm.
  assert (n mod 4 = 0) as Hn4.
  { unfold n, rem. rewrite Hdm at 1 by lia.
    rewrite Z.add_simpl_r, Z.mul_comm. apply Z.mod_mul. lia. }
  assert (0 <= n) as Hn0 by (unfold n, rem; lia).
  assert (zlen word = 4) as Hw4.
  { unfold word, zlen, zdrop in *. rewrite length_app, length_drop, length_replicate.
    unfold n, rem in *. lia. }
  assert (addr mod 4 = 0) as Haddr4.
  { unfold addr. rewrite Z.add_mod, Hn4, Z.add_0_r by lia.
    rewrite Z.mod_mod, Z.add_mod, Hbase4, Hc4 by lia. done. }
  unfold upload_store.
  rewrite upload_split_final by lia. fold rem n.
  unfold flash_area_erased_val, flash_area_align.
  destruct (Z.eqb_spec rem 0) as [|_]; [done|].
  rewrite (u32_id (curr_off st + n)) by (unfold n, rem in *; lia).
  unfold bind.
  (* the whole words, or the read-modify-write of an empty range *)
  assert (exists ops d1,
             flash_area_write cfg fap (curr_off st) img_chunk n d = (0, d1)
             /\ oplog d1 = oplog d ++ ops
             /\ zlen (cells d1) = zlen (cells d)
             /\ (4 <= n -> zdrop (fa_off fap + curr_off st + n) (cells d1)
                           = zdrop (fa_off fap + curr_off st + n) (cells d)))
    as (ops & d1 & -> & Hlog1 & Hlen1 & Hrest).
  { destruct (Z.lt_ge_cases n 4) as [Hsmall|Hbig].
    - destruct (flash_area_write_short cfg fap (curr_off st) img_chunk n d)
        as (ops & w0 & -> & Hw0 & _); try done; try (unfold n, rem in *; lia).
      exists (ops ++ [RawWrite (fa_off fap + curr_off st) w0]). eexists.
      split; [done|]. cbn [oplog cells]. split; [done|].
      split; [|lia]. apply zlen_programmed; unfold n, rem in *; lia.
    - rewrite flash_area_write_words; try done; try (unfold n, rem in *; lia).
      exists [RawWrite (fa_off fap + curr_off st) (ztake n img_chunk)]. eexists.
      split; [done|]. cbn [oplog cells].
      assert (zlen (ztake n img_chunk) = n) as Htk
        by (apply zlen_ztake; unfold n, rem in *; lia).
      split; [done|]. split.
      + apply zlen_programmed; rewrite ?Htk; unfold n, rem in *; lia.
      + intros _. apply drop_programmed; rewrite ?Htk; unfold n, rem in *; lia. }
  cbn [Z.eqb andb negb].
  (* the padded residue *)
  rewrite flash_area_write_words; try done;
    try (unfold n, rem in *; lia);
    try (unfold memcpy, memset, zlen, ztake, zdrop in *;
         rewrite length_app, length_take_le, length_drop, length_replicate;
         rewrite ?length_drop; unfold n, rem in *; lia).
  2:{ rewrite Z.add_mod, Hc4, Hn4 by lia. done. }
  rewrite (padded_residue img_chunk n rem) by (unfold n, rem in *; lia).
  fold word. replace (fa_off fap + (curr_off st + n)) with addr
    by (unfold addr; lia).
  exists ops. eexists. split; [done|]. cbn [oplog cells].
  split; [by rewrite Hlog1, <- app_assoc|].
  split; [done|]. split; [done|].
  intros Hbig. unfold peek. cbn [cells].
  rewrite <- Hw4 at 1. rewrite peek_programmed;
    try (unfold addr, n, rem in *; lia).
  rewrite Hw4. unfold ztake. f_equal. f_equal.
  unfold addr. by apply Hrest.
Qed.

(** The padded tail on one area: for an accepted final chunk at an aligned
    cursor, and for an image of 1025 bytes sent as one chunk. *)
Lemma upload_tail_on_area :
  (forall (img_chunk : list Z) (st : upload_state) (d : chip)
          (cs : list ext_call),
      0 <= curr_off st -> curr_off st mod 4 = 0 ->
      zlen img_chunk mod 4 <> 0 ->
      curr_off st + zlen img_chunk = img_size st ->
      img_size st - zlen img_chunk mod 4 + 4 <= fa_size fap ->
      fa_off fap + fa_size fap <= zlen (cells d) ->
      let rem := zlen img_chunk mod 4 in
      let n := zlen img_chunk - rem in
      let addr := fa_off fap + curr_off st + n in
      let word := zdrop n img_chunk ++ replicate (Z.to_nat (4 - rem)) 255 in
      exists ops r w',
        upload_write cfg env fap img_chunk st d cs = Replied r w'
        /\ oplog (dev w') = oplog d ++ ops ++ [RawWrite addr word]
        /\ addr mod 4 = 0 /\ zlen word = 4
        /\ curr_off (ust w') = img_size st)
  /\ (forall (image : list Z) (w : world),
        secondary_of cfg 0 = Some fap ->
        zlen image = 1025 -> Forall is_byte image ->
        1028 <= fa_size fap ->
        fa_size fap mod FLASH_SECTOR_SIZE cfg = 0 ->
        fa_off fap + fa_size fap <= zlen (cells (dev w)) ->
        exists last_byte r w',
          zdrop 1024 image = [last_byte]
          /\ bs_upload cfg env (chunk_at 0 1025 image) w = Replied r w'
          /\ peek (dev w') (fa_off fap + 1024) 4 = [last_byte; 255; 255; 255]).
Proof.
  assert (forall (img_chunk : list Z) (st : upload_state) (d : chip)
                 (cs : list ext_call),
      0 <= curr_off st -> curr_off st mod 4 = 0 ->
      zlen img_chunk mod 4 <> 0 ->
      curr_off st + zlen img_chunk = img_size st ->
      img_size st - zlen img_chunk mod 4 + 4 <= fa_size fap ->
      fa_off fap + fa_size fap <= zlen (cells d) ->
      let rem := zlen img_chunk mod 4 in
      let n := zlen img_chunk - rem in
      let addr := fa_off fap + curr_off st + n in
      let word := zdrop n img_chunk ++ replicate (Z.to_nat (4 - rem)) 255 in
      exists ops r d',
        upload_write cfg env fap img_chunk st d cs
        = Replied r (mk_world (mk_upload_state (img_size st) (img_size st)
                                               (img_num st))
                              d' (calls (after (upload_write cfg env fap
                                                  img_chunk st d cs)
                                               (mk_world st d cs))))
        /\ upload_store cfg env fap img_chunk st d = (0, d')
        /\ oplog d' = oplog d ++ ops ++ [RawWrite addr word]
        /\ addr mod 4 = 0 /\ zlen word = 4
        /\ (4 <= n -> peek d' addr 4 = program (peek d addr 4) word))
    as Hgen.
  { intros img_chunk st d cs Hc Hc4 Hrem Hend Hfit Hchip rem n addr word.
    pose proof (zlen_nonneg img_chunk) as Hlen0.
    pose proof (Z.mod_pos_bound (zlen img_chunk) 4 ltac:(lia)) as Hrr.
    pose proof (Z.mod_le (zlen img_chunk) 4 ltac:(lia) ltac:(lia)) as Hrl.
    destruct (upload_store_final img_chunk st d Hc Hc4 Hrem Hend Hfit Hchip)
      as (ops & d' & Hstore & Hlog & Ha4 & Hw4 & Hpeek).
    destruct (upload_progress_ok (zlen img_chunk - zlen img_chunk mod 4) st)
      as (bar & Hbar); try lia.
    exists ops.
    unfold upload_write. rewrite upload_split_final by lia.
    rewrite Hbar, Hstore. cbn [Z.eqb curr_off img_size img_num].
    replace (u32 (curr_off st + u32 (zlen img_chunk - zlen img_chunk mod 4
                                     + zlen img_chunk mod 4)))
      with (img_size st)
      by (rewrite Z.sub_add, (u32_id (zlen img_chunk)), u32_id; lia).
    rewrite Z.eqb_refl.
    destruct (negb _); unfold upload_out; cbn [after calls];
      eexists _, d'; (split; [reflexivity|done]). }
  split.
  - intros img_chunk st d cs Hc Hc4 Hrem Hend Hfit Hchip rem n addr word.
    destruct (Hgen img_chunk st d cs Hc Hc4 Hrem Hend Hfit Hchip)
      as (ops & r & d' & -> & _ & Hlog & Ha4 & Hw4 & _).
    exists ops, r. eexists. split; [done|]. done.
  - intros image w Hopen Hlen Hbytes Hsize Hsec Hchip.
    assert (exists last_byte, zdrop 1024 image = [last_byte] /\ is_byte last_byte)
      as (last_byte & Hlast & Hlb).
    { unfold zdrop, zlen in *.
      destruct (drop (Z.to_nat 1024) image) as [|b [|b' t]] eqn:Hd;
        assert (length (drop (Z.to_nat 1024) image) = 1%nat) as Hl
          by (rewrite length_drop; lia);
        rewrite Hd in Hl; simpl in Hl; try lia.
      exists b. split; [done|].
      assert (Forall is_byte (drop (Z.to_nat 1024) image)) as Hf
        by (by apply Forall_drop).
      rewrite Hd in Hf. by inversion Hf. }
    exists last_byte.
    unfold bs_upload, chunk_at. rewrite decode_chunk.
    rewrite (upload_accept_first _ w image fap) by done.
    cbn [img_size_tmp]. change (u32 1025) with 1025.
    destruct (Z.gtb_spec 1025 (fa_size fap)); [lia|].
    rewrite flash_area_erase_whole by (try done; lia).
    cbn [Z.eqb negb].
    set (d1 := mk_chip (erased (cells (dev w)) (fa_off fap) (fa_size fap)) _).
    set (st := mk_upload_state 1025 0 _).
    assert (zlen (cells d1) = zlen (cells (dev w))) as Hlen1
      by (apply zlen_erased; lia).
    destruct (Hgen image st d1 (calls w))
      as (ops & r & d' & -> & _ & _ & _ & _ & Hpeek);
      cbn [curr_off img_size]; rewrite ?Hlen; try done; try lia.
    exists r. eexists. split; [done|]. split; [done|]. cbn [dev].
    rewrite Hlen in Hpeek. change (1025 mod 4) with 1 in Hpeek.
    change (1025 - 1) with 1024 in Hpeek. cbn [curr_off st] in Hpeek.
    rewrite Z.add_0_r in Hpeek. rewrite Hpeek by lia.
    unfold peek, d1. cbn [cells].
    rewrite peek_erased by lia. rewrite Hlast.
    change (replicate (Z.to_nat 4) 255) with (replicate (length [last_byte; 255; 255; 255]) 255).
    change ([last_byte] ++ replicate (Z.to_nat (4 - 1)) 255)
      with [last_byte; 255; 255; 255].
    apply program_erased. repeat constructor; unfold is_byte in *; lia.
Qed.

End Tail.

(** The last write of a final chunk.  On a board whose secondary slots are
    internal-flash areas with a word-aligned base and size, and with
    [BOOT_MAX_ALIGN >= 4]:
    - in every reachable world, for every accepted chunk that ends exactly
      at [img_size] and whose length is not a multiple of 4, the handler
      answers, the cursor reaches [img_size], and the last raw call is the
      write of one 4-byte word at the aligned address
      [base + curr_off + chunk_len - rem]: the [rem] residual bytes, then
      [0xFF] up to the word.  The calls [ops] made before it are left
      open here: for a chunk shorter than 4 bytes they include a write at
      the same address;
    - for every image of 1025 bytes sent as one chunk at offset 0 to the
      secondary slot of image 0, in any world, the area bytes [1024, 1028)
      are the last byte of the image, then [0xFF; 0xFF; 0xFF]. *)
Theorem upload_tail_last_write :
  board_ok cfg env ->
  (forall (w : world) (req : option upload_locals) (fap : flash_area)
          (img_chunk : list Z) (st : upload_state) (d : chip),
      reachable cfg env w -> wf_request req ->
      upload_accept cfg req w = Accepted fap img_chunk st d ->
      zlen img_chunk mod 4 <> 0 ->
      curr_off st + zlen img_chunk = img_size st ->
      fa_off fap + fa_size fap <= zlen (cells (dev w)) ->
      let rem := zlen img_chunk mod 4 in
      let n := zlen img_chunk - rem in
      let addr := fa_off fap + curr_off st + n in
      let word := zdrop n img_chunk ++ replicate (Z.to_nat (4 - rem)) 255 in
      exists ops r w',
        bs_upload cfg env req w = Replied r w'
        /\ oplog (dev w') = oplog d ++ ops ++ [RawWrite addr word]
        /\ addr mod 4 = 0 /\ zlen word = 4
        /\ curr_off (ust w') = img_size st)
  /\ (forall (image : list Z) (w : world) (fap : flash_area),
        secondary_of cfg 0 = Some fap ->
        zlen image = 1025 -> Forall is_byte image ->
        1028 <= fa_size fap ->
        fa_size fap mod FLASH_SECTOR_SIZE cfg = 0 ->
        fa_off fap + fa_size fap <= zlen (cells (dev w)) ->
        exists last_byte r w',
          zdrop 1024 image = [last_byte]
          /\ bs_upload cfg env (chunk_at 0 1025 image) w = Replied r w'
          /\ peek (dev w') (fa_off fap + 1024) 4 = [last_byte; 255; 255; 255]).
Proof.
  intros Hboard. pose proof Hboard as [Hmax Hareas]. split.
  - intros w req fap img_chunk st d Hreach Hwf Hacc Hrem Hend Hchip
           rem n addr word.
    pose proof (reachable_inv Hboard w Hreach) as Hinv.
    destruct (upload_accept_accepted req w fap img_chunk st d Hacc Hwf)
      as (Hopen & Hchunk & Hlen & Hcase).
    destruct (Hareas _ _ Hopen) as (Hdev & Hb0 & Hb4 & Hs0 & Hs4 & Hb31).
    pose proof (zlen_nonneg img_chunk) as Hlen0.
    pose proof (Z.mod_pos_bound (zlen img_chunk) 4 ltac:(lia)) as Hrr.
    pose proof (Z.mod_le (zlen img_chunk) 4 ltac:(lia) ltac:(lia)) as Hrl.
    pose proof (Z.div_mod (zlen img_chunk) 4 ltac:(lia)) as Hdm.
    (* the cursor is on a word boundary and the image fits the area *)
    assert (0 <= curr_off st /\ curr_off st mod 4 = 0
            /\ img_size st <= fa_size fap) as (Hc0 & Hc4 & Hfits).
    { destruct Hcase as [(Hzero & Hsz)|(-> & Hcnz & _)].
      - rewrite Hzero. split; [lia|]. split; [done|lia].
      - destruct Hinv as (H1 & _ & _ & H4 & H5).
        split; [done|]. split; [apply H4; lia|]. by apply H5. }
    assert (img_size st - zlen img_chunk mod 4 + 4 <= fa_size fap) as Hfit.
    { pose proof (Z.div_mod (curr_off st) 4 ltac:(lia)) as Hcd.
      pose proof (Z.div_mod (fa_size fap) 4 ltac:(lia)) as Hsd.
      rewrite Hc4 in Hcd. rewrite Hs4 in Hsd. lia. }
    unfold bs_upload. rewrite Hacc.
    destruct (upload_tail_on_area fap Hdev Hmax Hb0 Hb4 ltac:(lia))
      as [Hgen _].
    apply Hgen; try done. lia.
  - intros image w fap Hopen Hlen Hbytes Hsize Hsec Hchip.
    destruct (Hareas _ _ Hopen) as (Hdev & Hb0 & Hb4 & Hs0 & Hs4 & Hb31).
    destruct (upload_tail_on_area fap Hdev Hmax Hb0 Hb4 ltac:(lia))
      as [_ Himage].
    by apply Himage.
Qed.


(** ** Replayed chunks *)

Lemma world_eta (w : world) : mk_world (ust w) (dev w) (calls w) = w.
Proof. by destruct w. Qed.

(** The data pointer after the decode loop is [NULL] exactly when the map
    has no "data" entry and the uninitialised struct held [NULL]. *)
Lemma decode_upload_data_None (stack : option (list Z))
      (fields : list upload_field) :
  img_chunk_data (decode_upload stack fields) = None
  <-> stack = None /\ Forall no_data fields.
Proof.
  unfold decode_upload.
  change stack
    with (img_chunk_data (mk_upload_locals UINT_MAX stack SIZE_MAX SIZE_MAX))
    at 2.
  generalize (mk_upload_locals UINT_MAX stack SIZE_MAX SIZE_MAX).
  induction fields as [|f fields IH]; intros l0; cbn [fold_left].
  { split; [by intros ->|by intros [? _]]. }
  rewrite IH, Forall_cons.
  destruct f; cbn [decode_field img_chunk_data no_data];
    first [tauto | split; [by intros [? _]|by intros (_ & [] & _)]].
Qed.

(** C5 (amended).  For every upload request whose offset is nonzero and
    differs from the cursor, the handler makes no raw flash call, changes no
    flash byte, makes no external call and leaves [img_num], [img_size] and
    [curr_off] as they were: the world after the request is the world before
    it, so a replay of the same request gives the same reply again.  For a
    request that carries a "data" entry the reply is
    [{"rc": 0, "off": curr_off}] when the offset is not [SIZE_MAX] (the value
    that stands for a missing "off") and the secondary area of the stored
    image number opens, and [{"rc": 3}] otherwise.  What decides is the data
    pointer the decode loop leaves: [img_chunk_data] has no initialiser, and
    the pointer is [NULL] exactly when the request has no "data" entry and
    the struct held [NULL] on entry; a request without data is answered
    [{"rc": 3}] then, and like a request with data when the stack held
    another value. *)
Theorem upload_replay_changes_nothing (l : upload_locals) (w : world) :
  img_chunk_off l <> 0 ->
  img_chunk_off l <> curr_off (ust w) ->
  (exists r, bs_upload cfg env (Some l) w = Replied r w
             /\ (r = [("rc"%string, 0); ("off"%string, curr_off (ust w))]
                 \/ r = [("rc"%string, MGMT_ERR_EINVAL)]))
  /\ (forall img_chunk fap,
        img_chunk_data l = Some img_chunk ->
        img_chunk_off l <> SIZE_MAX ->
        secondary_of cfg (img_num (ust w)) = Some fap ->
        bs_upload cfg env (Some l) w
        = Replied [("rc"%string, 0); ("off"%string, curr_off (ust w))] w)
  /\ (img_chunk_data l = None \/ img_chunk_off l = SIZE_MAX
      \/ secondary_of cfg (img_num (ust w)) = None ->
      bs_upload cfg env (Some l) w
      = Replied [("rc"%string, MGMT_ERR_EINVAL)] w)
  /\ (forall stack fields,
        l = decode_upload stack fields ->
        (img_chunk_data l = None <-> stack = None /\ Forall no_data fields)).
Proof.
  intros Hnz Hcur.
  assert (forall stack fields,
             l = decode_upload stack fields ->
             (img_chunk_data l = None
              <-> stack = None /\ Forall no_data fields)) as Hdecode
    by (intros stack fields ->; apply decode_upload_data_None).
  assert (forall img_chunk fap,
            img_chunk_data l = Some img_chunk ->
            img_chunk_off l <> SIZE_MAX ->
            secondary_of cfg (img_num (ust w)) = Some fap ->
            bs_upload cfg env (Some l) w
            = Replied [("rc"%string, 0); ("off"%string, curr_off (ust w))] w)
    as Hgood.
  { intros img_chunk fap Hdata Hmax Hopen. unfold bs_upload.
    rewrite (upload_accept_next l w img_chunk fap) by done.
    destruct (Z.eqb_spec (img_chunk_off l) (curr_off (ust w))); [done|].
    simpl. unfold upload_out, rc_reply. simpl. by rewrite world_eta. }
  assert (img_chunk_data l = None \/ img_chunk_off l = SIZE_MAX
          \/ secondary_of cfg (img_num (ust w)) = None ->
          bs_upload cfg env (Some l) w
          = Replied [("rc"%string, MGMT_ERR_EINVAL)] w) as Hbad.
  { intros Hwhy. unfold bs_upload, upload_accept, secondary_of in *.
    destruct (img_chunk_data l) as [img_chunk|];
      [|unfold upload_out, rc_reply; simpl; by rewrite world_eta].
    destruct (Z.eqb_spec (img_chunk_off l) SIZE_MAX) as [|Hmax];
      [unfold upload_out, rc_reply; simpl; by rewrite world_eta|].
    destruct Hwhy as [|[|Hopen]]; [done|done|].
    destruct (Z.eqb_spec (img_chunk_off l) 0); [done|].
    destruct (flash_area_open cfg _) as [rc o]. simpl in Hopen. subst o.
    unfold upload_out, rc_reply. simpl. by rewrite world_eta. }
  split; [|done].
  clear Hdecode.
  destruct (img_chunk_data l) as [img_chunk|] eqn:Hdata;
    [|eexists; split; [apply Hbad; by left|by right]].
  destruct (Z.eq_dec (img_chunk_off l) SIZE_MAX) as [Hmax|Hmax];
    [eexists; split; [apply Hbad; right; by left|by right]|].
  destruct (secondary_of cfg (img_num (ust w))) as [fap|] eqn:Hopen;
    [|eexists; split; [apply Hbad; right; by right|by right]].
  eexists. split; [by eapply Hgood|by left].
Qed.

(** ** Completion of an upload *)

Lemma upload_progress_bar (n : Z) (st : upload_state)
      (bar : list ext_call) (ok : bool) :
  upload_progress n st = Some (bar, ok) -> progress_only bar.
Proof.
  unfold upload_progress, progress_only.
  destruct (img_size st =? 0); [done|].
  destruct (negb _); intros [= <- _]; eauto.
Qed.

(** A request answered before the write makes no external call. *)
Lemma upload_accept_answered (req : option upload_locals) (w : world)
      (o : outcome) :
  upload_accept cfg req w = Answered o ->
  exists rc st d, o = upload_out rc st d (calls w).
Proof.
  unfold upload_accept. intros Hacc.
  destruct req as [l|]; [|injection Hacc as <-; eauto].
  destruct (img_chunk_data l) as [img_chunk|]; [|injection Hacc as <-; eauto].
  destruct (img_chunk_off l =? SIZE_MAX); [injection Hacc as <-; eauto|].
  destruct (flash_area_open cfg _) as [rc [fap|]];
    [|injection Hacc as <-; eauto].
  destruct (img_chunk_off l =? 0).
  - destruct (_ >? _); [injection Hacc as <-; eauto|].
    destruct (flash_area_erase cfg fap 0 _ _) as [rc' d'].
    destruct (negb _); [injection Hacc as <-; eauto|done].
  - destruct (negb _); [injection Hacc as <-; eauto|].
    destruct (_ >? _); [injection Hacc as <-; eauto|done].
Qed.

(** C8 (amended).  Let a request be answered with a reply.
    - If its chunk was accepted, the flash writes succeeded and the cursor
      then equals [img_size], the handler calls the post-upload hook once
      and, when the hook returns 0, [boot_set_pending_multi(0, true)] once,
      after it; a nonzero hook result is the reply's [rc] and no
      [boot_set_pending_multi] call is made.
    - If the cursor differs from [img_size] after the request, neither the
      hook nor [boot_set_pending_multi] is called.
    - A request that is not accepted (a replayed chunk, an invalid request)
      makes no external call at all, also when the cursor equals [img_size];
      nor does an accepted chunk whose flash write fails call the hook. *)
Theorem upload_completion_calls
        (req : option upload_locals) (w : world) (r : reply) (w' : world) :
  bs_upload cfg env req w = Replied r w' ->
  (forall fap img_chunk st d d',
      upload_accept cfg req w = Accepted fap img_chunk st d ->
      upload_store cfg env fap img_chunk st d = (0, d') ->
      curr_off (ust w') = img_size (ust w') ->
      let hook := boot_serial_uploaded_hook env (img_num st) fap (img_size st) in
      exists bar,
        progress_only bar
        /\ (hook <> 0 ->
            calls w' = calls w ++ bar
                       ++ [UploadedHook (img_num st) (img_size st)]
            /\ r = [("rc"%string, hook)])
        /\ (hook = 0 ->
            calls w' = calls w ++ bar
                       ++ [UploadedHook (img_num st) (img_size st);
                           SetPending 0 true]
            /\ r = rc_reply (boot_set_pending_multi env 0 true)
                            (curr_off (ust w'))))
  /\ (curr_off (ust w') <> img_size (ust w') ->
      exists bar, progress_only bar /\ calls w' = calls w ++ bar)
  /\ (forall o, upload_accept cfg req w = Answered o -> calls w' = calls w)
  /\ (forall fap img_chunk st d rc d',
        upload_accept cfg req w = Accepted fap img_chunk st d ->
        upload_store cfg env fap img_chunk st d = (rc, d') ->
        rc <> 0 ->
        exists bar, progress_only bar /\ calls w' = calls w ++ bar).
Proof.
  intros Hrun. unfold bs_upload in Hrun.
  destruct (upload_accept cfg req w) as [o|fap img_chunk st d] eqn:Hacc.
  - (* answered before the write *)
    assert (calls w' = calls w) as Hcalls.
    { destruct (upload_accept_answered req w o Hacc) as (rc & st & d & ->).
      unfold upload_out in Hrun. by injection Hrun as _ <-. }
    repeat split; try done.
    intros _. exists []. split; [by left|]. by rewrite app_nil_r.
  - (* accepted: lines 457-490 *)
    unfold upload_write in Hrun.
    destruct (upload_split fap img_chunk st) as [n rem].
    destruct (upload_progress n st) as [[bar [|]]|] eqn:Hbar; try done.
    apply upload_progress_bar in Hbar.
    destruct (upload_store cfg env fap img_chunk st d) as [rc dd] eqn:Hstore.
    destruct (Z.eqb_spec rc 0) as [->|Hrc].
    + (* the writes succeeded *)
      cbn [curr_off img_size img_num] in Hrun.
      destruct (Z.eqb_spec (u32 (curr_off st + u32 (n + rem))) (img_size st))
        as [Hfull|Hpart].
      * destruct (Z.eqb_spec
                    (boot_serial_uploaded_hook env (img_num st) fap (img_size st))
                    0) as [Hhook|Hhook]; simpl in Hrun;
          unfold upload_out in Hrun; injection Hrun as <- <-; simpl.
        -- (* the hook succeeded *)
           split; [|split; [|split]].
           ++ intros ? ? ? ? ? [= <- <- <- <-] _ _. exists bar.
              split; [done|]. split; [done|]. intros _.
              by rewrite <- !app_assoc.
           ++ done.
           ++ done.
           ++ intros ? ? ? ? ? ? [= <- <- <- <-] Hs Hne.
              rewrite Hstore in Hs. by injection Hs as <- _.
        -- (* the hook failed *)
           split; [|split; [|split]].
           ++ intros ? ? ? ? ? [= <- <- <- <-] _ _. exists bar.
              split; [done|]. split; [|done]. intros _.
              split; [by rewrite <- !app_assoc|].
              unfold rc_reply.
              by destruct (Z.eqb_spec
                    (boot_serial_uploaded_hook env (img_num st) fap (img_size st))
                    0).
           ++ done.
           ++ done.
           ++ intros ? ? ? ? ? ? [= <- <- <- <-] Hs Hne.
              rewrite Hstore in Hs. by injection Hs as <- _.
      * unfold upload_out in Hrun; injection Hrun as <- <-; simpl.
        split; [|split; [|split]].
        -- intros ? ? ? ? ? _ _ ?. done.
        -- intros _. by exists bar.
        -- done.
        -- intros ? ? ? ? ? ? [= <- <- <- <-] Hs Hne.
           rewrite Hstore in Hs. by injection Hs as <- _.
    + unfold upload_out in Hrun; injection Hrun as <- <-; simpl.
      split; [|split; [|split]].
      * intros ? ? ? ? ? [= <- <- <- <-] Hs.
        rewrite Hstore in Hs. by injection Hs as -> _.
      * intros _. by exists bar.
      * done.
      * intros. by exists bar.
Qed.

End Upload.

Lemma upload_of_zero_len_divides_by_zero_witness :
  let req := Some (decode_upload None [F_off 0; F_len 0; F_data []]) in
  upload_accept demo_cfg req demo_world
  = Accepted (secondary_img0 demo_cfg) []
             (mk_upload_state 0 0 0)
             (snd (flash_area_erase demo_cfg (secondary_img0 demo_cfg) 0 0x800
                                    demo_chip))
  /\ img_size (mk_upload_state 0 0 0) = 0
  /\ bs_upload demo_cfg demo_env req demo_world = Fault DivisionByZero.
Proof.
  apply (upload_of_zero_len_divides_by_zero demo_cfg demo_env demo_world None []
           (secondary_img0 demo_cfg)).
  - reflexivity.
  - vm_compute. discriminate.
  - vm_compute. reflexivity.
Defined.

(** C2 (the code departs from the specification).  From the initial state,
    the first chunk of an upload declares a total size of 5 bytes and carries 7:
    the test of the chunk against [img_size] sits only on the branch for
    [off != 0], so the chunk is written (one word, then the padded residue)
    and the cursor ends at 7, past [img_size = 5]. *)
Theorem upload_first_chunk_overruns_img_size :
  ust demo_world = upload_init
  /\ summary (bs_upload demo_cfg demo_env (chunk_at 0 5 [1; 2; 3; 4; 5; 6; 7])
                        demo_world)
     = inr ([("rc"%string, 0); ("off"%string, 7)],
            mk_upload_state 5 7 0,
            [RawErase 0x800 0x800; RawWrite 0x800 [1; 2; 3; 4];
             RawWrite 0x804 [5; 6; 7; 255]],
            [ProgressBar 80])
  /\ ~ (curr_off (mk_upload_state 5 7 0) <= img_size (mk_upload_state 5 7 0)).
Proof.
  split; [reflexivity|]. split; [vm_compute; reflexivity|]. simpl. lia.
Qed.

Lemma demo_board_ok : board_ok demo_cfg demo_env.
Proof.
  split; [vm_compute; discriminate|].
  intros n fap. unfold secondary_of, flash_area_open,
    flash_area_id_from_multi_image_slot.
  cbn [snd Z.eqb demo_cfg FLASH_AREA_IMAGE_SECONDARY].
  destruct (to_int n =? 0).
  - change (prv_lookup_flash_area demo_cfg _)
      with (Some (secondary_img0 demo_cfg)).
    intros [= <-].
    change (fa_off (secondary_img0 demo_cfg)) with 0x800.
    change (fa_size (secondary_img0 demo_cfg)) with 0x800.
    split; [reflexivity|]. split; [lia|]. split; [reflexivity|].
    split; [lia|]. split; [reflexivity|lia].
  - change (prv_lookup_flash_area demo_cfg _) with (@None flash_area).
    discriminate.
Qed.

Lemma upload_tail_last_write_witness :
  exists r w',
    bs_upload demo_cfg demo_env (chunk_at 0 1025 odd_image) demo_world
    = Replied r w'
    /\ peek (dev w') (0x800 + 1024) 4 = [0x5A; 255; 255; 255].
Proof.
  destruct (upload_tail_last_write demo_cfg demo_env demo_board_ok)
    as [_ Himage].
  destruct (Himage odd_image demo_world (secondary_img0 demo_cfg))
    as (last_byte & r & w' & Hlast & Hrun & Hpeek).
  - reflexivity.
  - vm_compute. reflexivity.
  - apply all_bytes. vm_compute. reflexivity.
  - vm_compute. discriminate.
  - vm_compute. reflexivity.
  - vm_compute. discriminate.
  - exists r, w'. split; [exact Hrun|].
    vm_compute in Hlast. injection Hlast as <-. exact Hpeek.
Defined.

(** C6 (the code departs from the specification).  An image of 9 bytes is
    sent to the secondary slot as a chunk of 8 bytes and a final chunk of one
    byte, [0x5A]; both requests are answered with success and the upload
    completes.  The final chunk has no whole word, and [bs_upload] still
    calls [flash_area_write] for its 0 whole bytes: the port takes that for a
    write of less than a word and programs a word of its own at the address
    of the residue (here all zeros, since its read with the device address
    in place of the area offset is refused) before the padded word
    [0x5A; 0xFF; 0xFF; 0xFF] is programmed there.  The residue is not stored
    as a single padded word, and the area bytes [8, 12) read
    [0; 0; 0; 0].  The same image sent as one chunk of 9 bytes is stored as
    the claim says. *)
Theorem upload_short_tail_is_overwritten :
  let image := [1; 2; 3; 4; 5; 6; 7; 8; 0x5A] in
  (exists w',
      send_chunks demo_cfg demo_env 9 0 [take 8 image; drop 8 image] demo_world
      = Some ([[("rc"%string, 0); ("off"%string, 8)];
               [("rc"%string, 0); ("off"%string, 9)]], w')
      /\ ust w' = mk_upload_state 9 9 0
      /\ oplog (dev w')
         = [RawErase 0x800 0x800; RawWrite 0x800 [1; 2; 3; 4; 5; 6; 7; 8];
            RawWrite 0x808 [0; 0; 0; 0]; RawWrite 0x808 [0x5A; 255; 255; 255]]
      /\ peek (dev w') (0x800 + 8) 4 = [0; 0; 0; 0]
      /\ calls w' = [ProgressBar 88; UploadedHook 0 9; SetPending 0 true])
  /\ (exists w',
        send_chunks demo_cfg demo_env 9 0 [image] demo_world
        = Some ([[("rc"%string, 0); ("off"%string, 9)]], w')
        /\ oplog (dev w')
           = [RawErase 0x800 0x800; RawWrite 0x800 [1; 2; 3; 4; 5; 6; 7; 8];
              RawWrite 0x808 [0x5A; 255; 255; 255]]
        /\ peek (dev w') (0x800 + 8) 4 = [0x5A; 255; 255; 255]).
Proof.
  cbv zeta. split.
  - eexists. split; [vm_compute; reflexivity|].
    split; [vm_compute; reflexivity|]. split; [vm_compute; reflexivity|].
    split; vm_compute; reflexivity.
  - eexists. split; [vm_compute; reflexivity|].
    split; vm_compute; reflexivity.
Qed.

(** C5 (as the specification words it, refuted).  Two requests whose offset
    is present, nonzero and different from the cursor, and which are answered
    with [{"rc": 3}], not [{"rc": 0, "off": curr_off}]:
    - after the first 512 bytes of an upload (cursor 512), a chunk whose
      "off" is [0xFFFFFFFF], the value the handler takes for a missing "off";
    - after a first chunk that named image 1, absent from the board (cursor
      0, stored image number 1), a chunk at offset 4: the area of the stored
      image number does not open. *)
Lemma upload_replay_reply_counterexample :
  (ust mid_upload = mk_upload_state 1024 512 0
   /\ let l := decode_upload None [F_off 0xFFFFFFFF; F_data [1; 2; 3; 4]] in
      img_chunk_off l <> 0 /\ img_chunk_off l <> curr_off (ust mid_upload)
      /\ bs_upload demo_cfg demo_env (Some l) mid_upload
         = Replied [("rc"%string, 3)] mid_upload)
  /\ (ust lost_upload = mk_upload_state 0 0 1
      /\ let l := decode_upload None [F_off 4; F_data [1; 2; 3; 4]] in
         img_chunk_off l <> 0 /\ img_chunk_off l <> curr_off (ust lost_upload)
         /\ bs_upload demo_cfg demo_env (Some l) lost_upload
            = Replied [("rc"%string, 3)] lost_upload).
Proof.
  split; (split; [vm_compute; reflexivity|]); cbv zeta;
    (split; [vm_compute; discriminate|]);
    (split; [vm_compute; discriminate|]);
    vm_compute; reflexivity.
Qed.

(** A replay without a "data" entry, on a stack that held a pointer other
    than [NULL]. *)
Lemma upload_replay_changes_nothing_witness :
  let l' := decode_upload (Some [0xAA]) [F_off 256] in
  (exists r, bs_upload demo_cfg demo_env (Some l') mid_upload = Replied r mid_upload
             /\ (r = [("rc"%string, 0); ("off"%string, curr_off (ust mid_upload))]
                 \/ r = [("rc"%string, MGMT_ERR_EINVAL)]))
  /\ (forall img_chunk fap,
        img_chunk_data l' = Some img_chunk ->
        img_chunk_off l' <> SIZE_MAX ->
        secondary_of demo_cfg (img_num (ust mid_upload)) = Some fap ->
        bs_upload demo_cfg demo_env (Some l') mid_upload
        = Replied [("rc"%string, 0); ("off"%string, curr_off (ust mid_upload))]
                  mid_upload)
  /\ (img_chunk_data l' = None \/ img_chunk_off l' = SIZE_MAX
      \/ secondary_of demo_cfg (img_num (ust mid_upload)) = None ->
      bs_upload demo_cfg demo_env (Some l') mid_upload
      = Replied [("rc"%string, MGMT_ERR_EINVAL)] mid_upload)
  /\ (forall stack fields,
        l' = decode_upload stack fields ->
        (img_chunk_data l' = None <-> stack = None /\ Forall no_data fields)).
Proof.
  apply (upload_replay_changes_nothing demo_cfg demo_env
           (decode_upload (Some [0xAA]) [F_off 256]) mid_upload).
  - vm_compute. discriminate.
  - vm_compute. discriminate.
Defined.

(** C8 (as the specification words it, refuted).  After a complete upload
    of 8 bytes the cursor equals [img_size]; the hook and
    [boot_set_pending_multi] were called for it.  A replay of the second half
    is answered [{"rc": 0, "off": 8}]: after it the cursor still equals
    [img_size], and neither the hook nor [boot_set_pending_multi] is called
    for this request. *)
Lemma upload_completion_counterexample :
  ust done_upload = mk_upload_state 8 8 0
  /\ calls done_upload = [ProgressBar 100; UploadedHook 0 8; SetPending 0 true]
  /\ bs_upload demo_cfg demo_env (chunk_at 4 8 [5; 6; 7; 8]) done_upload
     = Replied [("rc"%string, 0); ("off"%string, 8)] done_upload
  /\ curr_off (ust done_upload) = img_size (ust done_upload).
Proof.
  split; [vm_compute; reflexivity|].
  split; [vm_compute; reflexivity|].
  split; vm_compute; reflexivity.
Qed.

Lemma upload_completion_calls_witness :
  bs_upload demo_cfg demo_env (chunk_at 0 8 [1; 2; 3; 4; 5; 6; 7; 8]) demo_world
  = Replied [("rc"%string, 0); ("off"%string, 8)] done_upload
  /\ exists bar,
      progress_only bar
      /\ calls done_upload
         = calls demo_world ++ bar ++ [UploadedHook 0 8; SetPending 0 true].
Proof.
  assert (bs_upload demo_cfg demo_env (chunk_at 0 8 [1; 2; 3; 4; 5; 6; 7; 8])
                    demo_world
          = Replied [("rc"%string, 0); ("off"%string, 8)] done_upload) as Hrun
    by (vm_compute; reflexivity).
  split; [exact Hrun|].
  destruct (upload_completion_calls demo_cfg demo_env _ _ _ _ Hrun) as [Hfull _].
  edestruct Hfull as (bar & Hbar & _ & Hok).
  - vm_compute. reflexivity.
  - vm_compute. reflexivity.
  - vm_compute. reflexivity.
  - exists bar. split; [exact Hbar|]. apply Hok. reflexivity.
Defined.

(** * Part VII: set by hash *)

(** The slot the scan of [bs_set] settles on either passed validation or
    has a header without the image magic; the second kind never met the
    validator. *)
Lemma set_scan_found cfg env (n : nat) :
  forall (image_index : Z) (l : set_locals) (d : chip) (i : Z) (d' : chip),
    set_scan cfg env n image_index l d = ((true, i), d') ->
    sp_fih_success (secondary_probe env i) = true
    \/ sp_magic (secondary_probe env i) = false.
Proof.
  induction n as [|n IH]; intros image_index l d i d' Hscan; [done|].
  cbn [set_scan] in Hscan.
  destruct (flash_area_open cfg _) as [rc [fap|]]; [|by eapply IH].
  unfold bind in Hscan.
  destruct (read_image_header cfg env _ fap d) as [hdr d0].
  destruct (sp_magic (secondary_probe env image_index)) eqn:Hmagic;
    destruct (sp_fih_success (secondary_probe env image_index)) eqn:Hvalid;
    cbn [andb negb] in Hscan; try (by eapply IH);
    destruct (boot_serial_get_hash cfg env _ fap d0) as [[hash|] d1];
    try (by eapply IH);
    (destruct (bool_decide _); [|by eapply IH]);
    injection Hscan as <- <-; auto.
Qed.


(** * Part VIII: more of the flash port *)

(** ** The alignment macros *)

Lemma land_lnot_ones (x k : Z) :
  0 <= k -> Z.land x (Z.lnot (2 ^ k - 1)) = x - x mod 2 ^ k.
Proof.
  intros Hk. rewrite <- Z.sub_land_same_l.
  replace (2 ^ k - 1) with (Z.ones k) by (rewrite Z.ones_equiv; lia).
  by rewrite Z.land_ones.
Qed.

(** X1.  For an alignment that is a power of two and a 32-bit [num]:
    [ALIGN_OFFSET] is the remainder, [ALIGN_DOWN] rounds down to a multiple,
    the two add up to [num], and [IS_ALIGNED] tests the remainder.
    [ALIGN_UP] is the least multiple not below [num] as long as
    [num + align - 1] fits 32 bits; past that it wraps to a value below
    [num]. *)
Theorem alignment_macros_round (num k : Z) :
  0 <= k < 32 -> 0 <= num < 2 ^ 32 ->
  let align := 2 ^ k in
  ALIGN_OFFSET num align = num mod align
  /\ ALIGN_DOWN num align = num - num mod align
  /\ ALIGN_DOWN num align + ALIGN_OFFSET num align = num
  /\ (IS_ALIGNED num align = true <-> num mod align = 0)
  /\ (num + (align - 1) < 2 ^ 32 ->
      ALIGN_UP num align = (num + (align - 1)) / align * align
      /\ num <= ALIGN_UP num align < num + align
      /\ ALIGN_UP num align mod align = 0)
  /\ (2 ^ 32 <= num + (align - 1) -> ALIGN_UP num align < num).
Proof.
  intros Hk Hnum align.
  assert (0 < align) as Hpos by (apply Z.pow_pos_nonneg; lia).
  assert (align <= 2 ^ 31) as Hle by (apply Z.pow_le_mono_r; lia).
  assert (ALIGN_OFFSET num align = num mod align) as Hoff.
  { unfold ALIGN_OFFSET, align.
    replace (2 ^ k - 1) with (Z.ones k) by (rewrite Z.ones_equiv; lia).
    apply Z.land_ones. lia. }
  pose proof (Z.mod_pos_bound num align Hpos) as Hm.
  pose proof (Z.mod_le num align ltac:(lia) Hpos) as Hml.
  assert (ALIGN_DOWN num align = num - num mod align) as Hdown.
  { unfold ALIGN_DOWN, align. rewrite land_lnot_ones by lia.
    apply u32_id. fold align. lia. }
  split; [done|]. split; [done|]. split; [lia|]. split.
  { unfold IS_ALIGNED. rewrite Hoff. apply Z.eqb_eq. }
  split.
  - intros Hfit.
    assert (ALIGN_UP num align
            = num + (align - 1) - (num + (align - 1)) mod align) as Hup.
    { unfold ALIGN_UP. rewrite (u32_id (num + (align - 1))) by lia.
      unfold align. rewrite land_lnot_ones by lia. fold align.
      pose proof (Z.mod_pos_bound (num + (align - 1)) align Hpos).
      pose proof (Z.mod_le (num + (align - 1)) align ltac:(lia) Hpos).
      apply u32_id. lia. }
    pose proof (Z.mod_pos_bound (num + (align - 1)) align Hpos) as Hm'.
    pose proof (Z.div_mod (num + (align - 1)) align ltac:(lia)) as Hdm.
    rewrite Hup. split; [lia|]. split; [lia|].
    replace (num + (align - 1) - (num + (align - 1)) mod align)
      with ((num + (align - 1)) / align * align) by lia.
    apply Z.mod_mul. lia.
  - intros Hwrap. unfold ALIGN_UP.
    assert (u32 (num + (align - 1)) = num + (align - 1) - 2 ^ 32) as ->.
    { unfold u32. symmetry. apply (Z.mod_unique _ _ 1); lia. }
    unfold align. rewrite land_lnot_ones by lia. fold align.
    pose proof (Z.mod_pos_bound (num + (align - 1) - 2 ^ 32) align Hpos).
    pose proof (Z.mod_le (num + (align - 1) - 2 ^ 32) align ltac:(lia) Hpos).
    rewrite u32_id; lia.
Qed.

Lemma alignment_macros_round_witness :
  let align := 2 ^ 2 in
  ALIGN_OFFSET 0x1003 align = 0x1003 mod align
  /\ ALIGN_DOWN 0x1003 align = 0x1003 - 0x1003 mod align
  /\ ALIGN_DOWN 0x1003 align + ALIGN_OFFSET 0x1003 align = 0x1003
  /\ (IS_ALIGNED 0x1003 align = true <-> 0x1003 mod align = 0)
  /\ (0x1003 + (align - 1) < 2 ^ 32 ->
      ALIGN_UP 0x1003 align = (0x1003 + (align - 1)) / align * align
      /\ 0x1003 <= ALIGN_UP 0x1003 align < 0x1003 + align
      /\ ALIGN_UP 0x1003 align mod align = 0)
  /\ (2 ^ 32 <= 0x1003 + (align - 1) -> ALIGN_UP 0x1003 align < 0x1003).
Proof. apply (alignment_macros_round 0x1003 2); lia. Defined.

(** ** The registry of areas *)

Lemma lookup_area_Some (id : Z) (areas : list flash_area) (fa : flash_area) :
  lookup_area id areas = Some fa <->
  exists pre post,
    areas = pre ++ fa :: post /\ fa_id fa = id
    /\ Forall (fun x => fa_id x <> id) pre.
Proof.
  induction areas as [|a rest IH]; simpl.
  - split; [done|]. intros (pre & post & Heq & _). by destruct pre.
  - destruct (Z.eqb_spec id (fa_id a)) as [Hid|Hid].
    + split.
      * intros [= <-]. exists [], rest. by repeat split.
      * intros (pre & post & Heq & Hfa & Hpre).
        destruct pre as [|p pre]; simplify_eq/=; try done.
        by apply Forall_cons_1 in Hpre as [? _].
    + rewrite IH. split.
      * intros (pre & post & -> & Hfa & Hpre).
        exists (a :: pre), post. repeat split; [done|].
        apply Forall_cons_2; [congruence|done].
      * intros (pre & post & Heq & Hfa & Hpre).
        destruct pre as [|p pre]; simplify_eq/=; try done.
        apply Forall_cons_1 in Hpre as [_ Hpre]. by exists pre, post.
Qed.

Lemma lookup_area_None (id : Z) (areas : list flash_area) :
  lookup_area id areas = None <-> Forall (fun x => fa_id x <> id) areas.
Proof.
  induction areas as [|a rest IH]; simpl; [by split|].
  destruct (Z.eqb_spec id (fa_id a)) as [Hid|Hid].
  - split; [done|]. intros [? _]%Forall_cons_1. congruence.
  - rewrite IH. split.
    + intros. apply Forall_cons_2; [congruence|done].
    + by intros [_ ?]%Forall_cons_1.
Qed.

Lemma flash_area_open_Some (cfg : sysflash) (id : Z) (fa : flash_area) :
  flash_area_open cfg id = (0, Some fa) <->
  exists pre post,
    s_flash_areas cfg = pre ++ fa :: post /\ fa_id fa = u8 id
    /\ Forall (fun x => fa_id x <> u8 id) pre.
Proof.
  unfold flash_area_open, prv_lookup_flash_area.
  rewrite <- lookup_area_Some.
  destruct (lookup_area _ _); split; congruence.
Qed.

Lemma flash_area_open_None (cfg : sysflash) (id : Z) :
  flash_area_open cfg id = (-1, None) <->
  Forall (fun x => fa_id x <> u8 id) (s_flash_areas cfg).
Proof.
  unfold flash_area_open, prv_lookup_flash_area.
  rewrite <- lookup_area_None.
  destruct (lookup_area _ _); split; congruence.
Qed.

(** X2.  [flash_area_open] sees the low eight bits of the id.  It returns 0 with
    the first entry of the table whose [fa_id] is that byte, and -1 with
    [NULL] exactly when the table has no such entry; there is no third
    result. *)
Theorem flash_area_open_first_match (cfg : sysflash) (id : Z) :
  (forall fa,
      flash_area_open cfg id = (0, Some fa) <->
      exists pre post,
        s_flash_areas cfg = pre ++ fa :: post /\ fa_id fa = u8 id
        /\ Forall (fun x => fa_id x <> u8 id) pre)
  /\ (flash_area_open cfg id = (-1, None) <->
      Forall (fun x => fa_id x <> u8 id) (s_flash_areas cfg))
  /\ (flash_area_open cfg id = (-1, None)
      \/ exists fa, flash_area_open cfg id = (0, Some fa)).
Proof.
  split; [|split].
  - intros fa. apply flash_area_open_Some.
  - apply flash_area_open_None.
  - unfold flash_area_open. destruct (prv_lookup_flash_area _ _); eauto.
Qed.

(** X3.  When the ids of the table are pairwise different, every area of the
    table whose id fits a byte is found under its own id. *)
Theorem flash_area_open_registered (cfg : sysflash) (fa : flash_area) :
  fa ∈ s_flash_areas cfg ->
  NoDup (map fa_id (s_flash_areas cfg)) ->
  0 <= fa_id fa < 256 ->
  flash_area_open cfg (fa_id fa) = (0, Some fa).
Proof.
  intros Hin Hnd Hbyte.
  apply flash_area_open_Some.
  assert (u8 (fa_id fa) = fa_id fa) as -> by (apply Z.mod_small; lia).
  apply list_elem_of_split in Hin as (pre & post & Heq).
  exists pre, post. repeat split; [done|].
  rewrite Heq, map_app, map_cons in Hnd.
  apply NoDup_app in Hnd as (_ & Hdisj & _).
  apply Forall_forall. intros x Hx Hid.
  apply (Hdisj (fa_id x)).
  - apply list_elem_of_fmap. eauto.
  - rewrite Hid. apply elem_of_cons. by left.
Qed.

Lemma flash_area_open_registered_witness :
  flash_area_open demo_cfg (fa_id (secondary_img0 demo_cfg))
  = (0, Some (secondary_img0 demo_cfg)).
Proof.
  apply flash_area_open_registered.
  - vm_compute. do 2 apply list_elem_of_further. apply list_elem_of_here.
  - apply (bool_decide_unpack _). vm_compute. reflexivity.
  - vm_compute. split; congruence.
Defined.

(** ** Slot numbers *)

(** X4.  For a slot other than 0 and 1 the id is -1.  The source notes that
    [flash_area_open] fails on it; the [uint8_t] parameter turns -1 into 255,
    so it fails exactly when no area of the table has the id 255. *)
Theorem flash_area_open_invalid_slot (cfg : sysflash) (image_index slot : Z) :
  slot <> 0 -> slot <> 1 ->
  let id := flash_area_id_from_multi_image_slot cfg image_index slot in
  id = -1
  /\ (flash_area_open cfg id = (-1, None) <->
      Forall (fun fa => fa_id fa <> 255) (s_flash_areas cfg)).
Proof.
  intros H0 H1 id.
  assert (id = -1) as ->.
  { unfold id, flash_area_id_from_multi_image_slot.
    destruct (Z.eqb_spec slot 0); [done|].
    destruct (Z.eqb_spec slot 1); done. }
  split; [done|].
  apply (flash_area_open_None cfg (-1)).
Qed.

Lemma flash_area_open_invalid_slot_witness :
  let id := flash_area_id_from_multi_image_slot demo_cfg 0 2 in
  id = -1
  /\ (flash_area_open demo_cfg id = (-1, None) <->
      Forall (fun fa => fa_id fa <> 255) (s_flash_areas demo_cfg)).
Proof. apply flash_area_open_invalid_slot; lia. Defined.

(** ** The sectors of an area *)

Lemma sectors_count (area_size S i : Z) :
  0 < S -> 0 <= i ->
  (i * S < area_size <-> i < (area_size + S - 1) / S).
Proof.
  intros HS Hi.
  pose proof (Z.div_mod (area_size + S - 1) S ltac:(lia)).
  pose proof (Z.mod_pos_bound (area_size + S - 1) S HS).
  split; intros; nia.
Qed.

Lemma sectors_loop_tiles (fuel : nat) :
  forall (area_size S i : Z) (acc : list flash_sector),
    0 < S -> 0 <= i -> area_size + S <= 2 ^ 32 ->
    i <= (area_size + S - 1) / S ->
    area_size - i * S <= Z.of_nat fuel ->
    sectors_loop fuel area_size S (i * S) i acc
    = Some ((area_size + S - 1) / S,
            acc ++ map (fun j => mk_flash_sector (j * S) S)
                       (seqZ i ((area_size + S - 1) / S - i))).
Proof.
  induction fuel as [|fuel IH]; intros area_size S i acc HS Hi Hwrap Hn Hfuel.
  - simpl. destruct (Z.ltb_spec (i * S) area_size) as [Hlt|Hge]; [lia|].
    assert (~ i < (area_size + S - 1) / S) by (rewrite <- sectors_count; lia).
    replace ((area_size + S - 1) / S - i) with 0 by lia.
    rewrite app_nil_r. do 2 f_equal. lia.
  - simpl. destruct (Z.ltb_spec (i * S) area_size) as [Hlt|Hge].
    + assert (i < (area_size + S - 1) / S) as Hin by (by apply sectors_count).
      assert (0 <= i * S) by nia.
      rewrite (u32_id (i * S + S)), (u32_id (i + 1)) by nia.
      replace (i * S + S) with ((i + 1) * S) by lia.
      rewrite IH by (try lia; nia).
      rewrite <- app_assoc. do 3 f_equal.
      rewrite (seqZ_cons i) by lia. simpl. do 3 f_equal; lia.
    + assert (~ i < (area_size + S - 1) / S) by (rewrite <- sectors_count; lia).
      replace ((area_size + S - 1) / S - i) with 0 by lia.
      rewrite app_nil_r. do 2 f_equal. lia.
Qed.

(** X5.  For a registered area on the internal flash, where [fa_size] plus one
    sector fits 32 bits, and with fuel for one iteration per byte,
    [flash_area_get_sectors] returns 0 and stores [ceil (fa_size / sector)]
    sectors: the i-th at area offset [i * sector], all of one sector's size.
    They cover the area; the last one ends at [fa_size] when the size is a
    multiple of the sector size and past it otherwise. *)
Theorem flash_area_get_sectors_tiles (cfg : sysflash) (id : Z)
        (fa : flash_area) (fuel : nat) :
  prv_lookup_flash_area cfg (u8 id) = Some fa ->
  fa_device_id fa = FLASH_DEVICE_INTERNAL_FLASH cfg ->
  0 < FLASH_SECTOR_SIZE cfg < 2 ^ 32 -> 0 <= fa_size fa ->
  fa_size fa + FLASH_SECTOR_SIZE cfg <= 2 ^ 32 ->
  fa_size fa <= Z.of_nat fuel ->
  let sector := FLASH_SECTOR_SIZE cfg in
  let count := (fa_size fa + sector - 1) / sector in
  flash_area_get_sectors cfg fuel id
  = SectorsOk count
              (map (fun i => mk_flash_sector (i * sector) sector) (seqZ 0 count))
  /\ fa_size fa <= count * sector < fa_size fa + sector
  /\ (fa_size fa mod sector = 0 -> count * sector = fa_size fa).
Proof.
  intros Hfa Hdev. remember (FLASH_SECTOR_SIZE cfg) as sector eqn:Hsector.
  intros HS Hsize Hwrap Hfuel. cbv zeta.
  pose proof (Z.div_mod (fa_size fa + sector - 1) sector ltac:(lia)) as Hdm.
  pose proof (Z.mod_pos_bound (fa_size fa + sector - 1) sector ltac:(lia)) as Hm.
  set (count := (fa_size fa + sector - 1) / sector) in *.
  assert (0 <= count) as Hcount by nia.
  split.
  - unfold flash_area_get_sectors. rewrite Hfa, Hdev, Z.eqb_refl. cbn [negb].
    rewrite <- Hsector, (u32_id sector) by lia.
    change 0 with (0 * sector) at 1.
    rewrite sectors_loop_tiles by (fold count; lia).
    fold count. by rewrite Z.sub_0_r.
  - split; [nia|].
    intros Hal.
    pose proof (Z.div_mod (fa_size fa) sector ltac:(lia)) as Hdm'.
    rewrite Hal in Hdm'.
    destruct (Z.lt_trichotomy (fa_size fa / sector) count) as [?|[?|?]]; nia.
Qed.

Lemma flash_area_get_sectors_tiles_witness :
  flash_area_get_sectors demo_cfg 0x800 2
  = SectorsOk 2 [mk_flash_sector 0 0x400; mk_flash_sector 0x400 0x400]
  /\ 0x800 <= 2 * 0x400 < 0x800 + 0x400
  /\ (0x800 mod 0x400 = 0 -> 2 * 0x400 = 0x800).
Proof.
  apply (flash_area_get_sectors_tiles demo_cfg 2 (secondary_img0 demo_cfg)
           0x800); try reflexivity; cbn; lia.
Defined.

(** ** Reads at any alignment *)

Lemma land_lnot_3 (x : Z) : Z.land x (Z.lnot 3) = x - x mod 4.
Proof.
  rewrite <- Z.sub_land_same_l. f_equal.
  change 3 with (Z.ones 2). apply Z.land_ones. lia.
Qed.

Lemma ALIGN_UP_4 (n : Z) :
  0 <= n -> n + 3 < 2 ^ 32 ->
  n <= ALIGN_UP n 4 < n + 4 /\ ALIGN_UP n 4 mod 4 = 0.
Proof.
  intros Hn Hfit. unfold ALIGN_UP. change (4 - 1) with 3.
  rewrite (u32_id (n + 3)) by lia.
  rewrite land_lnot_3.
  pose proof (Z.mod_pos_bound (n + 3) 4 ltac:(lia)).
  rewrite u32_id by lia.
  split; [lia|].
  rewrite <- Zminus_mod_idemp_l, Z.sub_diag. done.
Qed.

Lemma ALIGN_DOWN_4 (x : Z) :
  0 <= x < 2 ^ 32 -> ALIGN_DOWN x 4 = x - x mod 4.
Proof.
  intros Hx. unfold ALIGN_DOWN. change (4 - 1) with 3.
  rewrite land_lnot_3.
  pose proof (Z.mod_pos_bound x 4 ltac:(lia)).
  pose proof (Z.mod_le x 4 ltac:(lia) ltac:(lia)).
  apply u32_id. lia.
Qed.

Lemma peek_app (c : chip) (addr n m : Z) :
  0 <= addr -> 0 <= n -> 0 <= m ->
  peek c addr n ++ peek c (addr + n) m = peek c addr (n + m).
Proof.
  intros Ha Hn Hm. unfold peek, ztake, zdrop.
  rewrite !Z2Nat.inj_add by lia.
  rewrite <- drop_drop. apply take_take_drop.
Qed.

Lemma peek_cells (c c' : chip) (addr n : Z) :
  cells c' = cells c -> peek c' addr n = peek c addr n.
Proof. unfold peek. by intros ->. Qed.

Lemma bootloader_flash_read_ok (addr size : Z) (c : chip) :
  addr mod 4 = 0 -> size mod 4 = 0 -> 0 <= addr -> 0 <= size ->
  addr + size <= zlen (cells c) ->
  bootloader_flash_read addr size c
  = (Some (peek c addr size),
     mk_chip (cells c) (oplog c ++ [RawRead addr size])).
Proof.
  intros Ha Hs Ha0 Hs0 Hin.
  unfold bootloader_flash_read, bind, log_op, in_chip. cbn [cells oplog].
  rewrite !IS_ALIGNED_4, Ha, Hs. simpl.
  destruct (Z.leb_spec 0 addr); [|lia].
  destruct (Z.leb_spec 0 size); [|lia].
  destruct (Z.leb_spec (addr + size) (zlen (cells c))); [|lia].
  done.
Qed.

(** A raw read, successful or not, leaves the bytes of the chip alone. *)
Lemma bootloader_flash_read_frame (addr size : Z) (c : chip) :
  exists r,
    bootloader_flash_read addr size c
    = (r, mk_chip (cells c) (oplog c ++ [RawRead addr size])).
Proof.
  unfold bootloader_flash_read, bind, log_op. cbn [cells oplog].
  destruct (_ && _); eauto.
Qed.

(** The first [bytes] bytes of a raw read of [bytes] rounded up. *)
Lemma peek_rounded (c : chip) (addr bytes size : Z) :
  bytes <= size -> ztake bytes (peek c addr size) = peek c addr bytes.
Proof.
  intros Hle. unfold peek, ztake. rewrite take_take. f_equal. lia.
Qed.

Lemma read_remaining_bytes (fuel : nat) :
  forall (aligned_addr offset bytes_read bytes_remaining : Z)
         (dest : list Z) (c : chip),
    0 <= aligned_addr -> 0 <= offset ->
    bytes_remaining = 0 \/ (aligned_addr + offset) mod 4 = 0 ->
    0 <= bytes_remaining <= Z.of_nat fuel ->
    aligned_addr + offset + bytes_remaining <= zlen (cells c) ->
    zlen (cells c) mod 4 = 0 -> zlen (cells c) < 2 ^ 32 ->
    exists ops,
      read_remaining fuel aligned_addr offset bytes_read bytes_remaining
                     dest c
      = (Some (dest ++ peek c (aligned_addr + offset) bytes_remaining),
         mk_chip (cells c) (oplog c ++ ops))
      /\ forallb is_raw_read ops = true.
Proof.
  induction fuel as [|fuel IH];
    intros aligned_addr offset bytes_read bytes_remaining dest c
           Ha Ho Hal Hrem Hin Hz4 Hz.
  - assert (bytes_remaining = 0) as -> by lia. exists [].
    simpl. unfold ret, peek, ztake. simpl. rewrite !app_nil_r. by destruct c.
  - cbn [read_remaining].
    destruct (Z.eqb_spec bytes_remaining 0) as [->|Hnz].
    { exists []. unfold ret, peek, ztake. simpl. rewrite !app_nil_r.
      by destruct c. }
    destruct Hal as [?|Hal]; [done|].
    cbv zeta.
    pose proof (MIN_buffer bytes_remaining ltac:(lia)) as Hmin.
    set (bytes := MIN bytes_remaining FLASH_BUFFER_SIZE) in *.
    assert (bytes <= 256) as H256.
    { unfold bytes, MIN, FLASH_BUFFER_SIZE.
      destruct (Z.ltb_spec bytes_remaining 256); lia. }
    destruct (ALIGN_UP_4 bytes ltac:(lia) ltac:(lia)) as [Hup Hup4].
    set (up := ALIGN_UP bytes 4) in *.
    rewrite (u32_id (aligned_addr + offset)) by lia.
    unfold bind at 1.
    rewrite bootloader_flash_read_ok;
      [|first [lia|revert Hal Hup4 Hz4;
                   Z.to_euclidean_division_equations; lia]..].
    rewrite peek_rounded by lia.
    rewrite (u32_id (offset + bytes)), (u32_id (bytes_remaining - bytes))
      by lia.
    set (c' := mk_chip (cells c) (oplog c ++ [RawRead (aligned_addr + offset) up])).
    destruct (IH aligned_addr (offset + bytes) (u32 (bytes_read + bytes))
                 (bytes_remaining - bytes)
                 (dest ++ peek c (aligned_addr + offset) bytes) c')
      as (ops & Hrun & Hops); try (cbn [cells c']; lia).
    { destruct (Z.eq_dec (bytes_remaining - bytes) 0) as [?|Hmore]; [by left|].
      right. assert (bytes = 256) as ->.
      { unfold bytes, MIN, FLASH_BUFFER_SIZE in *.
        destruct (Z.ltb_spec bytes_remaining 256); lia. }
      rewrite Z.add_assoc, Z.add_mod, Hal by lia. done. }
    exists (RawRead (aligned_addr + offset) up :: ops).
    rewrite Hrun. cbn [cells oplog c']. split; [|done].
    rewrite <- !app_assoc. cbn [app].
    rewrite (peek_cells c c') by done.
    rewrite Z.add_assoc, peek_app by lia.
    by replace (bytes + (bytes_remaining - bytes)) with bytes_remaining by lia.
Qed.

Lemma aligned_flash_read_bytes (addr : Z) (dest_aligned : bool) (size : Z)
      (c : chip) :
  0 <= addr -> 0 <= size -> addr + size <= zlen (cells c) ->
  zlen (cells c) mod 4 = 0 -> zlen (cells c) < 2 ^ 32 ->
  exists ops,
    aligned_flash_read addr dest_aligned size c
    = (Some (peek c addr size), mk_chip (cells c) (oplog c ++ ops))
    /\ forallb is_raw_read ops = true.
Proof.
  intros Ha Hs Hin Hz4 Hz.
  assert (zlen (cells c) <= 2 ^ 32 - 4) as Hz'
    by (revert Hz4 Hz; Z.to_euclidean_division_equations; lia).
  unfold aligned_flash_read.
  rewrite !IS_ALIGNED_4.
  destruct (Z.eqb_spec (addr mod 4) 0) as [Ha4|Ha4];
    [destruct dest_aligned;
     [destruct (Z.eqb_spec (size mod 4) 0) as [Hs4|Hs4]|]|];
    cbn [andb].
  { exists [RawRead addr size]. by rewrite bootloader_flash_read_ok. }
  all: cbv zeta.
  all: rewrite ALIGN_DOWN_4 by lia.
  all: rewrite ALIGN_OFFSET_4.
  all: pose proof (Z.mod_pos_bound addr 4 ltac:(lia)) as Ho.
  all: pose proof (Z.mod_le addr 4 ltac:(lia) ltac:(lia)) as Hole.
  all: rewrite (u32_id (size + addr mod 4)) by lia.
  all: set (o := addr mod 4) in *.
  all: set (bytes := MIN (size + o) FLASH_BUFFER_SIZE).
  all: assert (o <= bytes <= size + o /\ bytes <= 256
               /\ (bytes < size + o -> bytes = 256)) as (Hb1 & Hb2 & Hb3)
         by (unfold bytes, MIN, FLASH_BUFFER_SIZE;
             destruct (Z.ltb_spec (size + o) 256); lia).
  all: destruct (ALIGN_UP_4 bytes ltac:(lia) ltac:(lia)) as [Hup Hup4].
  all: set (up := ALIGN_UP bytes 4) in *.
  all: assert ((addr - o) mod 4 = 0) as Hbase
         by (unfold o; rewrite Zminus_mod_idemp_r, Z.sub_diag; done).
  all: unfold bind at 1.
  all: rewrite bootloader_flash_read_ok;
         [|first [lia|revert Hbase Hup4 Hz4;
                      Z.to_euclidean_division_equations; lia]..].
  all: rewrite (u32_id (bytes - o)), (u32_id (size - (bytes - o))) by lia.
  all: set (c' := mk_chip (cells c) (oplog c ++ [RawRead (addr - o) up])).
  all: assert (ztake (bytes - o) (zdrop o (peek c (addr - o) up))
               = peek c addr (bytes - o)) as ->
         by (unfold peek, ztake, zdrop;
             rewrite skipn_firstn_comm, take_take, drop_drop;
             f_equal; [lia|f_equal; lia]).
  all: destruct (read_remaining_bytes (Z.to_nat (size - (bytes - o)))
                   (addr - o) bytes (bytes - o) (size - (bytes - o))
                   (peek c addr (bytes - o)) c')
         as (ops & Hrun & Hops); try (cbn [cells c']; lia);
         [destruct (Z.eq_dec (size - (bytes - o)) 0) as [?|Hmore];
          [by left|right; rewrite Hb3 by lia;
                   rewrite Z.add_mod, Hbase by lia; done]|].
  all: exists (RawRead (addr - o) up :: ops).
  all: rewrite Hrun; cbn [cells oplog c']; split; [|done].
  all: rewrite <- !app_assoc; cbn [app].
  all: rewrite (peek_cells c c') by done.
  all: replace (addr - o + bytes) with (addr + (bytes - o)) by lia.
  all: rewrite peek_app by lia.
  all: by replace (bytes - o + (size - (bytes - o))) with size by lia.
Qed.

(** The loop, whatever it is asked, only reads. *)
Lemma read_remaining_frame (fuel : nat) :
  forall (aligned_addr offset bytes_read bytes_remaining : Z)
         (dest : list Z) (c : chip),
    exists r ops,
      read_remaining fuel aligned_addr offset bytes_read bytes_remaining
                     dest c
      = (r, mk_chip (cells c) (oplog c ++ ops))
      /\ forallb is_raw_read ops = true.
Proof.
  induction fuel as [|fuel IH];
    intros aligned_addr offset bytes_read bytes_remaining dest c;
    cbn [read_remaining]; destruct (bytes_remaining =? 0).
  1-3: eexists _, []; rewrite app_nil_r; by destruct c.
  cbv zeta. unfold bind at 1.
  destruct (bootloader_flash_read_frame
              (u32 (aligned_addr + offset))
              (ALIGN_UP (MIN bytes_remaining FLASH_BUFFER_SIZE) 4) c)
    as [r ->].
  destruct r as [read_data|].
  - edestruct IH as (r & ops & -> & Hops).
    eexists r, (_ :: ops). cbn [cells oplog].
    rewrite <- app_assoc. split; [done|]. by cbn.
  - eexists None, [_]. done.
Qed.

Lemma aligned_flash_read_frame (addr : Z) (dest_aligned : bool) (size : Z)
      (c : chip) :
  exists r ops,
    aligned_flash_read addr dest_aligned size c
    = (r, mk_chip (cells c) (oplog c ++ ops))
    /\ forallb is_raw_read ops = true.
Proof.
  unfold aligned_flash_read. destruct (_ && _).
  - destruct (bootloader_flash_read_frame addr size c) as [r ->].
    by eexists r, [_].
  - cbv zeta. unfold bind at 1.
    match goal with
    | |- context [bootloader_flash_read ?a ?n c] =>
      destruct (bootloader_flash_read_frame a n c) as [r ->]
    end.
    destruct r as [read_data|].
    + edestruct read_remaining_frame as (r & ops & -> & Hops).
      eexists r, (_ :: ops). cbn [cells oplog].
      rewrite <- app_assoc. split; [done|]. by cbn.
    + eexists None, [_]. done.
Qed.

(** [flash_area_read] never changes a byte of the chip, and the raw calls
    it makes are reads. *)
Lemma flash_area_read_frame cfg (fa : flash_area) (off : Z)
      (dst_aligned : bool) (len : Z) (c : chip) :
  exists r ops,
    flash_area_read cfg fa off dst_aligned len c
    = (r, mk_chip (cells c) (oplog c ++ ops))
    /\ forallb is_raw_read ops = true.
Proof.
  unfold flash_area_read.
  destruct (negb _); [|destruct (_ >? _)].
  1-2: eexists None, []; rewrite app_nil_r; by destruct c.
  apply aligned_flash_read_frame.
Qed.

Lemma read_image_header_frame cfg env (probe : slot_probe)
      (fap : flash_area) (c : chip) :
  exists r ops,
    read_image_header cfg env probe fap c
    = (r, mk_chip (cells c) (oplog c ++ ops))
    /\ forallb is_raw_read ops = true.
Proof.
  unfold read_image_header. destruct (sp_hook_regular probe).
  - apply flash_area_read_frame.
  - eexists None, []. rewrite app_nil_r. by destruct c.
Qed.

(** X6.  A read inside an area of the internal flash, at any offset, of any
    length and into a buffer of any alignment, returns 0 and delivers exactly
    the bytes the chip holds at [fa_off + off]; it makes raw reads only and
    leaves the bytes of the chip as they are.  The chip is a whole number of
    words, so that the word-aligned raw reads stay inside it. *)
Theorem flash_area_read_bytes cfg (fa : flash_area) (off : Z)
        (dst_aligned : bool) (len : Z) (c : chip) :
  fa_device_id fa = FLASH_DEVICE_INTERNAL_FLASH cfg ->
  0 <= fa_off fa -> 0 <= off -> 0 <= len -> off + len <= fa_size fa ->
  fa_off fa + fa_size fa <= zlen (cells c) ->
  zlen (cells c) mod 4 = 0 -> zlen (cells c) < 2 ^ 32 ->
  exists ops,
    flash_area_read cfg fa off dst_aligned len c
    = (Some (peek c (fa_off fa + off) len),
       mk_chip (cells c) (oplog c ++ ops))
    /\ forallb is_raw_read ops = true.
Proof.
  intros Hdev Hb Ho Hl Hin Hchip Hz4 Hz. unfold flash_area_read.
  rewrite Hdev, Z.eqb_refl. cbn [negb].
  rewrite (u32_id (off + len)) by lia.
  destruct (Z.gtb_spec (off + len) (fa_size fa)); [lia|].
  rewrite (u32_id (fa_off fa + off)) by lia.
  apply aligned_flash_read_bytes; lia.
Qed.

Lemma flash_area_read_bytes_witness :
  exists ops,
    flash_area_read demo_cfg (secondary_img0 demo_cfg) 5 false 300 demo_chip
    = (Some (peek demo_chip (0x800 + 5) 300),
       mk_chip (cells demo_chip) (oplog demo_chip ++ ops))
    /\ forallb is_raw_read ops = true.
Proof.
  apply (flash_area_read_bytes demo_cfg (secondary_img0 demo_cfg) 5 false 300
           demo_chip); try reflexivity; vm_compute; congruence.
Defined.

(** ** Erase and write, and what a read finds afterwards *)

(** Replacing the bytes in [s, s + |mid|) leaves every other range alone. *)
Lemma peek_splice (cs mid : list Z) (s a n : Z) :
  0 <= s -> s + zlen mid <= zlen cs -> 0 <= a -> 0 <= n ->
  a + n <= s \/ s + zlen mid <= a ->
  ztake n (zdrop a (ztake s cs ++ mid ++ zdrop (s + zlen mid) cs))
  = ztake n (zdrop a cs).
Proof.
  intros Hs Hfit Ha Hn [Hlow|Hhigh]; unfold ztake, zdrop, zlen in *.
  - rewrite drop_app_le by (rewrite length_take_le; lia).
    rewrite take_app_le
      by (rewrite length_drop, length_take_le; lia).
    rewrite skipn_firstn_comm, take_take. f_equal. lia.
  - rewrite app_assoc, drop_app_ge
      by (rewrite length_app, length_take_le; lia).
    rewrite length_app, length_take_le by lia.
    rewrite drop_drop. do 2 f_equal. lia.
Qed.

Lemma zlen_memset (v n : Z) : 0 <= n -> zlen (memset v n) = n.
Proof. intros. unfold zlen, memset. rewrite length_replicate. lia. Qed.

Lemma peek_erased_outside (c : chip) (cs : list Z) (addr len a n : Z) :
  0 <= addr -> 0 <= len -> addr + len <= zlen cs -> 0 <= a -> 0 <= n ->
  a + n <= addr \/ addr + len <= a ->
  ztake n (zdrop a (erased cs addr len)) = ztake n (zdrop a cs).
Proof.
  intros. unfold erased.
  rewrite <- (zlen_memset 255 len) at 2 by done.
  apply peek_splice; rewrite ?zlen_memset; lia.
Qed.

Lemma peek_programmed_outside (cs : list Z) (addr : Z) (data : list Z)
      (a n : Z) :
  0 <= addr -> addr + zlen data <= zlen cs -> 0 <= a -> 0 <= n ->
  a + n <= addr \/ addr + zlen data <= a ->
  ztake n (zdrop a (programmed cs addr data)) = ztake n (zdrop a cs).
Proof.
  intros Haddr Hfit Ha Hn Hout. unfold programmed.
  set (mid := program (ztake (zlen data) (zdrop addr cs)) data).
  assert (zlen mid = zlen data) as Hmid.
  { unfold mid, zlen, ztake, zdrop in *. rewrite length_program; [done|].
    rewrite length_take_le; [lia|]. rewrite length_drop. lia. }
  rewrite <- Hmid. apply peek_splice; rewrite ?Hmid; lia.
Qed.

(** X7.  [flash_area_erase] on the internal flash, for a range the chip holds.
    With offset and length on sector boundaries it returns 0 after one raw
    erase: every byte of the range reads [0xFF] and every byte outside the
    range is as before.  With an offset or a length off the sector
    boundaries it returns -1 and makes no raw call. *)
Theorem flash_area_erase_sectors cfg (fa : flash_area) (off len : Z)
        (c : chip) :
  fa_device_id fa = FLASH_DEVICE_INTERNAL_FLASH cfg ->
  0 < FLASH_SECTOR_SIZE cfg ->
  0 <= fa_off fa -> 0 <= off -> 0 <= len ->
  fa_off fa + off + len <= zlen (cells c) -> zlen (cells c) < 2 ^ 32 ->
  (off mod FLASH_SECTOR_SIZE cfg = 0 /\ len mod FLASH_SECTOR_SIZE cfg = 0 ->
   exists c',
     flash_area_erase cfg fa off len c = (0, c')
     /\ oplog c' = oplog c ++ [RawErase (fa_off fa + off) len]
     /\ peek c' (fa_off fa + off) len = replicate (Z.to_nat len) 255
     /\ (forall a n,
           0 <= a -> 0 <= n ->
           a + n <= fa_off fa + off \/ fa_off fa + off + len <= a ->
           peek c' a n = peek c a n))
  /\ (off mod FLASH_SECTOR_SIZE cfg <> 0
      \/ len mod FLASH_SECTOR_SIZE cfg <> 0 ->
      flash_area_erase cfg fa off len c = (-1, c)).
Proof.
  intros Hdev Hsec Hb Ho Hl Hchip Hz.
  unfold flash_area_erase. rewrite Hdev, Z.eqb_refl. cbn [negb].
  split.
  - intros [-> ->]. cbn [Z.eqb negb orb].
    rewrite u32_id by lia. unfold bind.
    rewrite bootloader_flash_erase_range_ok by lia.
    eexists. split; [done|]. cbn [cells oplog]. split; [done|].
    split.
    + by apply peek_erased; try lia.
    + intros a n Ha Hn Hout. unfold peek. cbn [cells].
      apply peek_erased_outside; try lia. exact c.
  - intros Hbad.
    destruct (Z.eqb_spec (len mod FLASH_SECTOR_SIZE cfg) 0);
      destruct (Z.eqb_spec (off mod FLASH_SECTOR_SIZE cfg) 0);
      cbn [negb orb]; try done.
    lia.
Qed.

Lemma flash_area_erase_sectors_witness :
  (0x400 mod FLASH_SECTOR_SIZE demo_cfg = 0
   /\ 0x400 mod FLASH_SECTOR_SIZE demo_cfg = 0 ->
   exists c',
     flash_area_erase demo_cfg (secondary_img0 demo_cfg) 0x400 0x400 demo_chip
     = (0, c')
     /\ oplog c' = oplog demo_chip ++ [RawErase (0x800 + 0x400) 0x400]
     /\ peek c' (0x800 + 0x400) 0x400 = replicate (Z.to_nat 0x400) 255
     /\ (forall a n,
           0 <= a -> 0 <= n ->
           a + n <= 0x800 + 0x400 \/ 0x800 + 0x400 + 0x400 <= a ->
           peek c' a n = peek demo_chip a n))
  /\ (0x400 mod FLASH_SECTOR_SIZE demo_cfg <> 0
      \/ 0x400 mod FLASH_SECTOR_SIZE demo_cfg <> 0 ->
      flash_area_erase demo_cfg (secondary_img0 demo_cfg) 0x400 0x400 demo_chip
      = (-1, demo_chip)).
Proof.
  apply (flash_area_erase_sectors demo_cfg (secondary_img0 demo_cfg)
           0x400 0x400 demo_chip); try reflexivity; vm_compute; congruence.
Defined.

(** X8.  A write of whole words at a word-aligned offset inside an area returns
    0 after one raw write.  The range then holds the bitwise AND of its old
    bytes and the source bytes, and every byte outside the range is as
    before. *)
Theorem flash_area_write_programs_words cfg (fa : flash_area) (off : Z)
        (src : list Z) (len : Z) (c : chip) :
  fa_device_id fa = FLASH_DEVICE_INTERNAL_FLASH cfg ->
  0 <= fa_off fa -> fa_off fa mod 4 = 0 ->
  0 <= off -> off mod 4 = 0 -> 4 <= len -> len mod 4 = 0 ->
  off + len <= fa_size fa ->
  fa_off fa + fa_size fa <= zlen (cells c) -> zlen (cells c) < 2 ^ 32 ->
  len <= zlen src ->
  exists c',
    flash_area_write cfg fa off src len c = (0, c')
    /\ oplog c' = oplog c ++ [RawWrite (fa_off fa + off) (ztake len src)]
    /\ peek c' (fa_off fa + off) len
       = zip_with Z.land (peek c (fa_off fa + off) len) (ztake len src)
    /\ (forall a n,
          0 <= a -> 0 <= n ->
          a + n <= fa_off fa + off \/ fa_off fa + off + len <= a ->
          peek c' a n = peek c a n).
Proof.
  intros Hdev Hb0 Hb4 Ho0 Ho4 Hl4 Hlm Hin Hchip Hz Hsrc.
  rewrite flash_area_write_words by (try done; lia).
  eexists. split; [done|]. cbn [cells oplog]. split; [done|].
  assert (zlen (ztake len src) = len) as Hlen by (apply zlen_ztake; lia).
  split.
  - unfold peek. cbn [cells]. rewrite <- Hlen at 1 3.
    by rewrite peek_programmed by lia.
  - intros a n Ha Hn Hout. unfold peek. cbn [cells].
    apply peek_programmed_outside; lia.
Qed.

Lemma flash_area_write_programs_words_witness :
  exists c',
    flash_area_write demo_cfg (secondary_img0 demo_cfg) 8 [1; 2; 3; 4] 4
                     demo_chip = (0, c')
    /\ oplog c' = oplog demo_chip ++ [RawWrite (0x800 + 8) (ztake 4 [1; 2; 3; 4])]
    /\ peek c' (0x800 + 8) 4
       = zip_with Z.land (peek demo_chip (0x800 + 8) 4) (ztake 4 [1; 2; 3; 4])
    /\ (forall a n,
          0 <= a -> 0 <= n ->
          a + n <= 0x800 + 8 \/ 0x800 + 8 + 4 <= a ->
          peek c' a n = peek demo_chip a n).
Proof.
  apply (flash_area_write_programs_words demo_cfg (secondary_img0 demo_cfg) 8
           [1; 2; 3; 4] 4 demo_chip); try reflexivity; vm_compute; congruence.
Defined.

(** X9.  Erase, write, read: after the erase of a whole area, a write of whole
    words of byte values at a word-aligned offset succeeds, and a read of the
    same range, into a buffer of any alignment, delivers the bytes written
    and changes nothing. *)
Theorem flash_area_erase_write_read cfg (fa : flash_area) (off : Z)
        (src : list Z) (dst_aligned : bool) (c : chip) :
  fa_device_id fa = FLASH_DEVICE_INTERNAL_FLASH cfg ->
  0 < FLASH_SECTOR_SIZE cfg -> fa_size fa mod FLASH_SECTOR_SIZE cfg = 0 ->
  0 <= fa_off fa -> fa_off fa mod 4 = 0 ->
  0 <= off -> off mod 4 = 0 -> 4 <= zlen src -> zlen src mod 4 = 0 ->
  off + zlen src <= fa_size fa ->
  fa_off fa + fa_size fa <= zlen (cells c) ->
  zlen (cells c) mod 4 = 0 -> zlen (cells c) < 2 ^ 32 ->
  Forall is_byte src ->
  exists c1 c2 c3,
    flash_area_erase cfg fa 0 (fa_size fa) c = (0, c1)
    /\ flash_area_write cfg fa off src (zlen src) c1 = (0, c2)
    /\ flash_area_read cfg fa off dst_aligned (zlen src) c2 = (Some src, c3)
    /\ cells c3 = cells c2.
Proof.
  intros Hdev Hsec Hsize Hb0 Hb4 Ho0 Ho4 Hl4 Hlm Hin Hchip Hz4 Hz Hbytes.
  assert (ztake (zlen src) src = src) as Hall
    by (unfold ztake, zlen; rewrite Nat2Z.id; apply take_ge; lia).
  pose (c1 := mk_chip (erased (cells c) (fa_off fa) (fa_size fa))
                      (oplog c ++ [RawErase (fa_off fa) (fa_size fa)])).
  assert (zlen (cells c1) = zlen (cells c)) as Hz1
    by (cbn [cells c1]; apply zlen_erased; lia).
  pose (c2 := mk_chip (programmed (cells c1) (fa_off fa + off) src)
                      (oplog c1 ++ [RawWrite (fa_off fa + off) src])).
  assert (zlen (cells c2) = zlen (cells c)) as Hz2
    by (cbn [cells c2]; rewrite zlen_programmed; lia).
  assert (flash_area_write cfg fa off src (zlen src) c1 = (0, c2)) as Hwrite.
  { rewrite flash_area_write_words by (try done; lia). by rewrite Hall. }
  destruct (flash_area_read_frame cfg fa off dst_aligned (zlen src) c2)
    as (r & ops & Hread & _).
  destruct (aligned_flash_read_bytes (fa_off fa + off) dst_aligned (zlen src) c2)
    as (ops' & Hbytes' & _); rewrite ?Hz2; try done; try lia.
  exists c1, c2, (mk_chip (cells c2) (oplog c2 ++ ops)).
  split; [by apply flash_area_erase_whole; try lia|].
  split; [done|]. split; [|done].
  rewrite Hread. f_equal.
  unfold flash_area_read in Hread.
  rewrite Hdev, Z.eqb_refl in Hread. cbn [negb] in Hread.
  rewrite (u32_id (off + zlen src)) in Hread by lia.
  destruct (Z.gtb_spec (off + zlen src) (fa_size fa)); [lia|].
  rewrite (u32_id (fa_off fa + off)), Hbytes' in Hread by lia.
  injection Hread as <- _.
  f_equal. unfold peek. cbn [cells c2].
  rewrite peek_programmed by lia.
  cbn [cells c1]. rewrite (peek_erased _ _ _ _ (zlen src)) by lia.
  unfold zlen. rewrite Nat2Z.id. by apply program_erased.
Qed.

Lemma flash_area_erase_write_read_witness :
  exists c1 c2 c3,
    flash_area_erase demo_cfg (secondary_img0 demo_cfg) 0
                     (fa_size (secondary_img0 demo_cfg)) demo_chip = (0, c1)
    /\ flash_area_write demo_cfg (secondary_img0 demo_cfg) 16
                        [1; 2; 3; 4; 5; 6; 7; 8]
                        (zlen [1; 2; 3; 4; 5; 6; 7; 8]) c1 = (0, c2)
    /\ flash_area_read demo_cfg (secondary_img0 demo_cfg) 16 false
                       (zlen [1; 2; 3; 4; 5; 6; 7; 8]) c2
       = (Some [1; 2; 3; 4; 5; 6; 7; 8], c3)
    /\ cells c3 = cells c2.
Proof.
  apply (flash_area_erase_write_read demo_cfg (secondary_img0 demo_cfg) 16
           [1; 2; 3; 4; 5; 6; 7; 8] false demo_chip);
    try reflexivity; try (vm_compute; congruence).
  bytes_ok.
Defined.

(** * Part IX: the image hash and the set handler *)

Section Hash.

Variable cfg : sysflash.
Variable env : bootutil.

Lemma tlv_find_hash_Some (fap : flash_area) (it : list tlv_next)
      (c : chip) (h : list Z) (c' : chip) :
  tlv_find_hash cfg env fap it c = (Some h, c') <->
  exists pre offset post,
    it = pre ++ TlvEntry offset (IMAGE_HASH_SIZE env) (IMAGE_SHA_TLV env) :: post
    /\ Forall (tlv_skipped env) pre
    /\ flash_area_read cfg fap offset (hash_buf_aligned env)
                       (IMAGE_HASH_SIZE env) c = (Some h, c').
Proof.
  induction it as [|e it IH].
  - simpl. split; [done|]. intros (pre & ? & ? & Heq & _). by destruct pre.
  - destruct e as [|offset len type]; cbn [tlv_find_hash].
    + split; [done|]. intros (pre & o & post & Heq & Hpre & _).
      destruct pre as [|p pre]; simplify_eq/=.
      by apply Forall_cons_1 in Hpre as [? _].
    + destruct (Z.eqb_spec type (IMAGE_SHA_TLV env)) as [->|Htype].
      * destruct (Z.eqb_spec len (IMAGE_HASH_SIZE env)) as [->|Hlen];
          cbn [negb].
        -- split.
           ++ intros Hread. exists [], offset, it. by repeat split.
           ++ intros (pre & o & post & Heq & Hpre & Hread).
              destruct pre as [|p pre]; simplify_eq/=; [done|].
              by apply Forall_cons_1 in Hpre as [? _].
        -- split; [done|]. intros (pre & o & post & Heq & Hpre & _).
           destruct pre as [|p pre]; simplify_eq/=.
           by apply Forall_cons_1 in Hpre as [? _].
      * rewrite IH. split.
        -- intros (pre & o & post & -> & Hpre & Hread).
           exists (TlvEntry offset len type :: pre), o, post.
           repeat split; [|done]. by apply Forall_cons_2.
        -- intros (pre & o & post & Heq & Hpre & Hread).
           destruct pre as [|p pre]; simplify_eq/=.
           apply Forall_cons_1 in Hpre as [_ Hpre]. by exists pre, o, post.
Qed.

Lemma tlv_find_hash_frame (fap : flash_area) (it : list tlv_next) (c : chip) :
  exists r ops,
    tlv_find_hash cfg env fap it c = (r, mk_chip (cells c) (oplog c ++ ops))
    /\ forallb is_raw_read ops = true.
Proof.
  induction it as [|[|offset len type] it IH]; cbn [tlv_find_hash].
  1-2: eexists None, []; rewrite app_nil_r; by destruct c.
  destruct (type =? _); [destruct (negb _)|]; [|apply flash_area_read_frame|done].
  eexists None, []. rewrite app_nil_r. by destruct c.
Qed.

Lemma boot_serial_get_hash_frame (probe : slot_probe) (fap : flash_area)
      (c : chip) :
  exists r ops,
    boot_serial_get_hash cfg env probe fap c
    = (r, mk_chip (cells c) (oplog c ++ ops))
    /\ forallb is_raw_read ops = true.
Proof.
  unfold boot_serial_get_hash. destruct (sp_tlv probe).
  - apply tlv_find_hash_frame.
  - eexists None, []. rewrite app_nil_r. by destruct c.
Qed.

(** X10.  [boot_serial_get_hash] returns 0 exactly when the TLV iterator starts
    and the first entry of the hash type, reached over entries of other types
    without an iterator error, has the length of a hash and the read of that
    many bytes at its offset succeeds; the hash delivered is what that read
    delivers.  A later entry of the hash type is never looked at.  Whatever
    the result, the function makes raw reads only and changes no byte of the
    chip. *)
Theorem boot_serial_get_hash_first_sha (probe : slot_probe)
        (fap : flash_area) (c : chip) :
  (forall h c',
      boot_serial_get_hash cfg env probe fap c = (Some h, c') <->
      exists pre offset post,
        sp_tlv probe
        = Some (pre ++ TlvEntry offset (IMAGE_HASH_SIZE env)
                                 (IMAGE_SHA_TLV env) :: post)
        /\ Forall (tlv_skipped env) pre
        /\ flash_area_read cfg fap offset (hash_buf_aligned env)
                           (IMAGE_HASH_SIZE env) c = (Some h, c'))
  /\ (exists ops,
        snd (boot_serial_get_hash cfg env probe fap c)
        = mk_chip (cells c) (oplog c ++ ops)
        /\ forallb is_raw_read ops = true).
Proof.
  split.
  - intros h c'. unfold boot_serial_get_hash.
    destruct (sp_tlv probe) as [it|].
    + rewrite tlv_find_hash_Some. split.
      * intros (pre & o & post & -> & ? & ?). by exists pre, o, post.
      * intros (pre & o & post & [= ->] & ? & ?). by exists pre, o, post.
    + split; [done|]. by intros (? & ? & ? & ? & _).
  - destruct (boot_serial_get_hash_frame probe fap c) as (r & ops & -> & ?).
    by exists ops.
Qed.


(** ** [bs_set] *)

Lemma set_scan_frame (n : nat) :
  forall (image_index : Z) (l : set_locals) (d : chip),
    exists r ops,
      set_scan cfg env n image_index l d
      = (r, mk_chip (cells d) (oplog d ++ ops))
      /\ forallb is_raw_read ops = true.
Proof.
  induction n as [|n IH]; intros image_index l d; cbn [set_scan].
  { eexists _, []. rewrite app_nil_r. by destruct d. }
  destruct (flash_area_open cfg _) as [rc [fap|]]; [|apply IH].
  (* the rest of the scan, after reads that left the bytes alone *)
  assert (forall ops,
             forallb is_raw_read ops = true ->
             exists r' ops',
               set_scan cfg env n (u8 (image_index + 1)) l
                        (mk_chip (cells d) (oplog d ++ ops))
               = (r', mk_chip (cells d) (oplog d ++ ops'))
               /\ forallb is_raw_read ops' = true) as Hnext.
  { intros ops Hops.
    destruct (IH (u8 (image_index + 1)) l
                 (mk_chip (cells d) (oplog d ++ ops)))
      as (r' & ops' & -> & Hops').
    exists r', (ops ++ ops'). cbn [cells oplog]. rewrite <- app_assoc.
    split; [done|]. rewrite forallb_app, Hops, Hops'. done. }
  unfold bind.
  destruct (read_image_header_frame cfg env (secondary_probe env image_index)
                                    fap d) as (hdr & ops0 & -> & Hops0).
  destruct (_ && _); [by apply Hnext|].
  destruct (boot_serial_get_hash_frame (secondary_probe env image_index) fap
              (mk_chip (cells d) (oplog d ++ ops0)))
    as (r & ops & -> & Hops).
  cbn [cells oplog]. rewrite <- app_assoc.
  assert (forallb is_raw_read (ops0 ++ ops) = true) as Hboth
    by (by rewrite forallb_app, Hops0, Hops).
  destruct r as [hash|]; [|by apply Hnext].
  destruct (bool_decide _); [|by apply Hnext].
  eexists _, (ops0 ++ ops). done.
Qed.

Lemma decode_set_no_hash (fields : list set_field) :
  forall l0 : set_locals,
    Forall no_hash fields ->
    img_hash_len (fold_left decode_set_field fields l0) = img_hash_len l0
    /\ img_hash_value (fold_left decode_set_field fields l0)
       = img_hash_value l0.
Proof.
  induction fields as [|f fields IH]; intros l0 Hno; [done|].
  apply Forall_cons_1 in Hno as [Hf Hno]. cbn [fold_left].
  destruct (IH (decode_set_field l0 f) Hno) as [-> ->].
  by destruct f.
Qed.

Lemma decode_set_no_confirm (fields : list set_field) :
  forall l0 : set_locals,
    Forall no_confirm fields ->
    confirm (fold_left decode_set_field fields l0) = confirm l0.
Proof.
  induction fields as [|f fields IH]; intros l0 Hno; [done|].
  apply Forall_cons_1 in Hno as [Hf Hno]. cbn [fold_left].
  rewrite (IH (decode_set_field l0 f) Hno). by destruct f.
Qed.

(** X11.  [confirm] and [img_hash] of [bs_set] have no initialiser.  After
    the decode loop they hold the last "confirm" and the last "hash" entry of
    the request, and what they held on entry ([stack]) when the request has
    no such entry.  Whatever the request and whatever [stack]: [bs_set]
    changes no byte of the flash and, up to the label [out], makes raw reads
    only ([ops]).  It calls [boot_set_pending_multi] at most once, with the
    value [confirm] holds after the loop, and then replies with the image
    list (the call of [bs_list]) when the call returns 0 and with its return
    code otherwise; when it makes no call it replies [{"rc": 3}] or
    [{"rc": 5}].  When [img_hash.len] after the loop is neither 0 nor the
    size of a hash, the request is refused with [{"rc": 3}] before any flash
    access, and so it is when the length is 0 and there is more than one
    image; with the length 0 and at most one image, image 0 is selected
    without a read of the flash.  A payload that does not start a map is
    refused with [{"rc": 3}]. *)
Theorem bs_set_effects (stack : set_locals) (fields : list set_field)
        (d : chip) :
  let l := decode_set stack fields in
  (Forall no_hash fields -> img_hash_len l = img_hash_len stack)
  /\ (forall pre bytes post,
        fields = pre ++ Set_hash bytes :: post -> Forall no_hash post ->
        img_hash_len l = zlen bytes /\ img_hash_value l = bytes)
  /\ (Forall no_confirm fields -> confirm l = confirm stack)
  /\ (forall pre v post,
        fields = pre ++ Set_confirm v :: post -> Forall no_confirm post ->
        confirm l = v)
  /\ bs_set cfg env None d = (SetRc MGMT_ERR_EINVAL, d, [])
  /\ exists r d' cs ops,
      bs_set cfg env (Some l) d = (r, d', cs)
      /\ cells d' = cells d
      /\ oplog d' = oplog d ++ ops /\ forallb is_raw_read ops = true
      /\ ((cs = []
           /\ (r = SetRc MGMT_ERR_EINVAL \/ r = SetRc MGMT_ERR_ENOENT))
          \/ exists i,
              cs = [SetPending i (confirm l)]
              /\ r = if boot_set_pending_multi env i (confirm l) =? 0
                     then SetList
                     else SetRc (boot_set_pending_multi env i (confirm l)))
      /\ (img_hash_len l <> 0 -> img_hash_len l <> IMAGE_HASH_SIZE env ->
          r = SetRc MGMT_ERR_EINVAL /\ d' = d /\ cs = [])
      /\ (img_hash_len l = 0 ->
          (1 < BOOT_IMAGE_NUMBER env ->
           r = SetRc MGMT_ERR_EINVAL /\ d' = d /\ cs = [])
          /\ (BOOT_IMAGE_NUMBER env <= 1 ->
              ops = [] /\ cs = [SetPending 0 (confirm l)])).
Proof.
  intros l.
  split; [intros Hno; by apply decode_set_no_hash|].
  split.
  { intros pre bytes post -> Hno. unfold l, decode_set.
    rewrite fold_left_app. cbn [fold_left].
    by destruct (decode_set_no_hash post
                   (decode_set_field (fold_left decode_set_field pre stack)
                                     (Set_hash bytes)) Hno) as [-> ->]. }
  split; [intros Hno; by apply decode_set_no_confirm|].
  split.
  { intros pre v post -> Hno. unfold l, decode_set.
    rewrite fold_left_app. cbn [fold_left].
    by rewrite (decode_set_no_confirm post _ Hno). }
  split; [done|].
  clearbody l. unfold bs_set.
  change (MGMT_ERR_EINVAL =? 0) with false.
  change (MGMT_ERR_ENOENT =? 0) with false. cbv iota.
  assert (oplog d = oplog d ++ []) as Hnil by (by rewrite app_nil_r).
  destruct (Z.eqb_spec (img_hash_len l) (IMAGE_HASH_SIZE env)) as [Hsz|Hsz];
    destruct (Z.eqb_spec (img_hash_len l) 0) as [Hz|Hz];
    destruct (Z.gtb_spec (BOOT_IMAGE_NUMBER env) 1) as [Hn|Hn];
    cbn [negb andb orb].
  1,5,7,8: exists (SetRc MGMT_ERR_EINVAL), d, [], [];
    do 4 (split; [done|]); (split; [left; split; [done|by left]|]);
    split; intros; repeat split; intros;
    first [done|lia|congruence].
  1,4: eexists _, d, [SetPending 0 (confirm l)], [];
    do 4 (split; [done|]); (split; [right; by exists 0|]);
    split; intros; repeat split; intros;
    first [done|lia|congruence].
  all: destruct (set_scan_frame (Z.to_nat (BOOT_IMAGE_NUMBER env)) 0 l d)
         as ([found i] & ops & -> & Hops).
  all: destruct found; cbn [negb].
  all: try (eexists _, _, [SetPending i (confirm l)], ops;
            do 4 (split; [done|]); (split; [right; by exists i|]);
            split; intros; repeat split; intros;
            first [done|lia|congruence]).
  all: exists (SetRc MGMT_ERR_ENOENT), (mk_chip (cells d) (oplog d ++ ops)),
         [], ops;
         do 4 (split; [done|]); (split; [left; split; [done|by right]|]);
         split; intros; repeat split; intros;
         first [done|lia|congruence].
Qed.

End Hash.

(** ** What is read depends on the bytes of the chip only *)

Lemma bootloader_flash_read_cells (addr size : Z) (c1 c2 : chip) :
  cells c1 = cells c2 ->
  fst (bootloader_flash_read addr size c1)
  = fst (bootloader_flash_read addr size c2).
Proof.
  intros Hc. unfold bootloader_flash_read, bind, log_op, in_chip.
  cbn [cells]. rewrite Hc. by destruct (_ && _).
Qed.

Lemma read_remaining_cells (fuel : nat) :
  forall (aligned_addr offset bytes_read bytes_remaining : Z)
         (dest : list Z) (c1 c2 : chip),
    cells c1 = cells c2 ->
    fst (read_remaining fuel aligned_addr offset bytes_read bytes_remaining
                        dest c1)
    = fst (read_remaining fuel aligned_addr offset bytes_read bytes_remaining
                          dest c2).
Proof.
  induction fuel as [|fuel IH];
    intros aligned_addr offset bytes_read bytes_remaining dest c1 c2 Hc;
    cbn [read_remaining]; destruct (bytes_remaining =? 0); try done.
  cbv zeta. unfold bind.
  set (addr := u32 (aligned_addr + offset)).
  set (size := ALIGN_UP (MIN bytes_remaining FLASH_BUFFER_SIZE) 4).
  pose proof (bootloader_flash_read_cells addr size c1 c2 Hc) as Hr.
  destruct (bootloader_flash_read_frame addr size c1) as [r1 H1].
  destruct (bootloader_flash_read_frame addr size c2) as [r2 H2].
  rewrite H1, H2 in *. cbn [fst] in Hr. subst r2.
  destruct r1 as [read_data|]; [|done].
  apply IH. cbn [cells]. done.
Qed.

Lemma aligned_flash_read_cells (addr : Z) (dest_aligned : bool) (size : Z)
      (c1 c2 : chip) :
  cells c1 = cells c2 ->
  fst (aligned_flash_read addr dest_aligned size c1)
  = fst (aligned_flash_read addr dest_aligned size c2).
Proof.
  intros Hc. unfold aligned_flash_read. destruct (_ && _).
  { by apply bootloader_flash_read_cells. }
  cbv zeta. unfold bind.
  match goal with
  | |- context [bootloader_flash_read ?a ?n c1] =>
    pose proof (bootloader_flash_read_cells a n c1 c2 Hc) as Hr;
    destruct (bootloader_flash_read_frame a n c1) as [r1 H1];
    destruct (bootloader_flash_read_frame a n c2) as [r2 H2]
  end.
  rewrite H1, H2 in *. cbn [fst] in Hr. subst r2.
  destruct r1 as [read_data|]; [|done].
  apply read_remaining_cells. cbn [cells]. done.
Qed.

Lemma flash_area_read_cells cfg (fa : flash_area) (off : Z)
      (dst_aligned : bool) (len : Z) (c1 c2 : chip) :
  cells c1 = cells c2 ->
  fst (flash_area_read cfg fa off dst_aligned len c1)
  = fst (flash_area_read cfg fa off dst_aligned len c2).
Proof.
  intros Hc. unfold flash_area_read.
  destruct (negb _); [done|]. destruct (_ >? _); [done|].
  by apply aligned_flash_read_cells.
Qed.

Section SetScan.

Variable cfg : sysflash.
Variable env : bootutil.

Lemma boot_serial_get_hash_cells (probe : slot_probe) (fap : flash_area)
      (c1 c2 : chip) :
  cells c1 = cells c2 ->
  fst (boot_serial_get_hash cfg env probe fap c1)
  = fst (boot_serial_get_hash cfg env probe fap c2).
Proof.
  intros Hc. unfold boot_serial_get_hash.
  destruct (sp_tlv probe) as [it|]; [|done].
  induction it as [|[|offset len type] it IH]; cbn [tlv_find_hash]; try done.
  destruct (type =? _); [|done]. destruct (negb _); [done|].
  by apply flash_area_read_cells.
Qed.

(** The scan stops at the first slot that matches. *)
Lemma set_scan_first (n : nat) :
  forall (image_index : Z) (l : set_locals) (d0 d : chip),
    cells d0 = cells d -> 0 <= image_index ->
    image_index + Z.of_nat n <= 256 ->
    match set_scan cfg env n image_index l d0 with
    | ((true, i), _) =>
      image_index <= i < image_index + Z.of_nat n
      /\ slot_matches cfg env l d i
      /\ forall j, image_index <= j < i -> ~ slot_matches cfg env l d j
    | ((false, _), _) =>
      forall j, image_index <= j < image_index + Z.of_nat n ->
                ~ slot_matches cfg env l d j
    end.
Proof.
  induction n as [|n IH]; intros image_index l d0 d Hd Hlo Hhi.
  { cbn [set_scan]. unfold ret. intros j Hj. lia. }
  (* the rest of the scan, when this slot does not match *)
  assert (forall d1,
             cells d1 = cells d -> ~ slot_matches cfg env l d image_index ->
             match set_scan cfg env n (u8 (image_index + 1)) l d1 with
             | ((true, i), _) =>
               image_index <= i < image_index + Z.of_nat (S n)
               /\ slot_matches cfg env l d i
               /\ forall j, image_index <= j < i -> ~ slot_matches cfg env l d j
             | ((false, _), _) =>
               forall j, image_index <= j < image_index + Z.of_nat (S n) ->
                         ~ slot_matches cfg env l d j
             end) as Hnext.
  { intros d1 Hd1 Hno.
    destruct n as [|n'].
    { cbn [set_scan]. unfold ret. intros j Hj.
      by replace j with image_index by lia. }
    assert (u8 (image_index + 1) = image_index + 1) as ->
      by (apply Z.mod_small; lia).
    specialize (IH (image_index + 1) l d1 d Hd1 ltac:(lia) ltac:(lia)).
    destruct (set_scan cfg env (S n') (image_index + 1) l d1)
      as [[[|] i] d2].
    - destruct IH as (Hi & Hm & Hfirst). split; [lia|]. split; [done|].
      intros j Hj. destruct (Z.eq_dec j image_index) as [->|]; [done|].
      apply Hfirst. lia.
    - intros j Hj. destruct (Z.eq_dec j image_index) as [->|]; [done|].
      apply IH. lia. }
  cbn [set_scan].
  destruct (flash_area_open cfg _) as [rc [fap|]] eqn:Hopen.
  2:{ apply Hnext; [done|]. intros (fap' & Hfap & _). congruence. }
  assert (rc = 0) as ->.
  { unfold flash_area_open in Hopen.
    destruct (prv_lookup_flash_area _ _); by simplify_eq. }
  unfold bind.
  destruct (read_image_header_frame cfg env (secondary_probe env image_index)
                                    fap d0) as (hdr & ops0 & -> & _).
  assert (cells (mk_chip (cells d0) (oplog d0 ++ ops0)) = cells d) as Hdh
    by done.
  revert Hdh. generalize (mk_chip (cells d0) (oplog d0 ++ ops0)).
  intros dh Hdh.
  destruct (sp_magic (secondary_probe env image_index)) eqn:Hmagic;
    destruct (sp_fih_success (secondary_probe env image_index)) eqn:Hfih;
    cbn [andb negb].
  2:{ apply Hnext; [done|]. intros (fap' & _ & Hv & _).
      specialize (Hv Hmagic). congruence. }
  all: pose proof (boot_serial_get_hash_cells
                     (secondary_probe env image_index) fap dh d Hdh) as Hsame.
  all: destruct (boot_serial_get_hash_frame cfg env
                   (secondary_probe env image_index) fap dh)
         as (r & ops & Hhash & _).
  all: rewrite Hhash in *; cbn [fst] in Hsame.
  all: destruct r as [hash|];
         [destruct (bool_decide_reflect
                      (hash = ztake (IMAGE_HASH_SIZE env) (img_hash_value l)))
            as [->|Hdiff]|].
  all: try (split; [lia|]; split;
            [exists fap; split; [done|]; split; [congruence|done]|];
            intros j Hj; lia).
  all: apply Hnext; [cbn [cells]; done|].
  all: intros (fap' & Hfap & _ & Hm); rewrite Hopen in Hfap;
         injection Hfap as <-; rewrite <- Hsame in Hm; congruence.
Qed.

(** X12.  For a request with a hash of the right size, on a build with at most
    255 images: [bs_set] calls [boot_set_pending_multi] for image [i] exactly
    when [i] is the first image index whose secondary slot matches, and it
    makes no call, replying [{"rc": 5}], exactly when no index below
    [BOOT_IMAGE_NUMBER] matches. *)
Theorem bs_set_first_match (l : set_locals) (d : chip) :
  0 <= BOOT_IMAGE_NUMBER env <= 255 ->
  img_hash_len l = IMAGE_HASH_SIZE env -> img_hash_len l <> 0 ->
  (forall i,
      (bs_set cfg env (Some l) d).2 = [SetPending i (confirm l)] <->
      0 <= i < BOOT_IMAGE_NUMBER env
      /\ slot_matches cfg env l d i
      /\ forall j, 0 <= j < i -> ~ slot_matches cfg env l d j)
  /\ ((bs_set cfg env (Some l) d).2 = [] <->
      forall j, 0 <= j < BOOT_IMAGE_NUMBER env -> ~ slot_matches cfg env l d j)
  /\ ((bs_set cfg env (Some l) d).2 = [] ->
      (bs_set cfg env (Some l) d).1.1 = SetRc MGMT_ERR_ENOENT).
Proof.
  intros Hn Hsz Hnz. unfold bs_set.
  change (MGMT_ERR_EINVAL =? 0) with false.
  change (MGMT_ERR_ENOENT =? 0) with false. cbv iota.
  destruct (Z.eqb_spec (img_hash_len l) (IMAGE_HASH_SIZE env)); [|done].
  destruct (Z.eqb_spec (img_hash_len l) 0); [done|]. cbn [negb andb orb].
  pose proof (set_scan_first (Z.to_nat (BOOT_IMAGE_NUMBER env)) 0 l d d
                eq_refl ltac:(lia) ltac:(lia)) as Hscan.
  rewrite Z2Nat.id, Z.add_0_l in Hscan by lia.
  destruct (set_scan cfg env _ 0 l d) as [[[|] i'] d1]; cbn [negb snd fst].
  - destruct Hscan as (Hi & Hm & Hfirst). split; [|split; [|done]].
    + intros i. split.
      * intros Heq. injection Heq as Heq. subst i'. split; [lia|]. by split.
      * intros (Hi2 & Hm2 & Hfirst2). do 2 f_equal.
        destruct (Z.lt_trichotomy i i') as [?|[?|?]]; [|done|].
        -- exfalso. apply (Hfirst i); [lia|done].
        -- exfalso. apply (Hfirst2 i'); [lia|done].
    + split; [done|]. intros Hnone. exfalso. apply (Hnone i'); [lia|done].
  - split; [|split; [|done]].
    + intros i. split; [done|]. intros (Hi & Hm & _). exfalso.
      apply (Hscan i); [lia|done].
    + done.
Qed.

End SetScan.

Lemma bs_set_first_match_witness :
  let l := mk_set_locals false stale_hash 32 in
  (forall i,
      (bs_set demo_cfg stale_env (Some l) demo_chip).2
      = [SetPending i (confirm l)] <->
      0 <= i < BOOT_IMAGE_NUMBER stale_env
      /\ slot_matches demo_cfg stale_env l demo_chip i
      /\ forall j, 0 <= j < i -> ~ slot_matches demo_cfg stale_env l demo_chip j)
  /\ ((bs_set demo_cfg stale_env (Some l) demo_chip).2 = [] <->
      forall j, 0 <= j < BOOT_IMAGE_NUMBER stale_env ->
                ~ slot_matches demo_cfg stale_env l demo_chip j)
  /\ ((bs_set demo_cfg stale_env (Some l) demo_chip).2 = [] ->
      (bs_set demo_cfg stale_env (Some l) demo_chip).1.1
      = SetRc MGMT_ERR_ENOENT).
Proof.
  apply (bs_set_first_match demo_cfg stale_env
           (mk_set_locals false stale_hash 32) demo_chip);
    vm_compute; try split; congruence.
Defined.

(** * Part X: more of the upload handler *)

(** ** The progress bar *)

Lemma u32_neg (x : Z) : - 2 ^ 32 <= x < 0 -> u32 x = x + 2 ^ 32.
Proof.
  intros Hx. unfold u32. symmetry. apply (Z.mod_unique _ _ (-1)); lia.
Qed.

Lemma proccess_bar_print_true (title_len idx total : Z) :
  0 <= title_len -> 0 <= total -> title_len + 3 + total <= 256 ->
  - 2 ^ 31 <= idx < 2 ^ 31 ->
  proccess_bar_print title_len idx total = true <-> 0 <= idx <= total.
Proof.
  intros Ht Htot Hfit Hidx. unfold proccess_bar_print. cbv zeta.
  rewrite andb_true_iff, Z.leb_le.
  destruct (Z.lt_ge_cases idx 0) as [Hneg|Hpos].
  { rewrite u32_neg by lia. split; intros; lia. }
  rewrite (u32_id idx) by lia.
  destruct (Z.eqb_spec idx total) as [->|Hne]; cbn [negb].
  { split; intros; [lia|]. split; [lia|done]. }
  rewrite Z.leb_le.
  destruct (Z.lt_ge_cases total idx) as [Hbig|Hsmall].
  - rewrite u32_neg by lia. split; intros; lia.
  - rewrite u32_id by lia. split; intros; lia.
Qed.

(** X13.  For the title and the total of the one call in [bs_upload], and any
    [int] value of [idx]: the two fills of [proccess_bar_print] stay inside
    its buffer of 256 bytes exactly when [0 <= idx <= 100]. *)
Theorem proccess_bar_print_in_bounds (idx : Z) :
  - 2 ^ 31 <= idx < 2 ^ 31 ->
  proccess_bar_print (Z.of_nat (String.length title)) idx 100 = true
  <-> 0 <= idx <= 100.
Proof.
  intros Hidx. apply proccess_bar_print_true; try done; vm_compute; congruence.
Qed.

Lemma proccess_bar_print_in_bounds_witness :
  proccess_bar_print (Z.of_nat (String.length title)) 101 100 = true
  <-> 0 <= 101 <= 100.
Proof. apply proccess_bar_print_in_bounds. lia. Defined.

Section UploadMore.

Variable cfg : sysflash.
Variable env : bootutil.

(** ** Requests without an offset or without data *)

Lemma decode_no_offset (fields : list upload_field) :
  Forall no_offset fields ->
  forall l, img_chunk_off l = SIZE_MAX ->
            img_chunk_off (fold_left decode_field fields l) = SIZE_MAX.
Proof.
  induction 1 as [|f fields Hf _ IH]; intros l Hl; [done|].
  simpl. apply IH. by destruct f.
Qed.

Lemma decode_no_data (fields : list upload_field) :
  Forall no_data fields ->
  forall l, img_chunk_data (fold_left decode_field fields l)
            = img_chunk_data l.
Proof.
  induction 1 as [|f fields Hf _ IH]; intros l; [done|].
  simpl. rewrite IH. by destruct f.
Qed.

(** X14.  A request whose map has no "off" entry (or only ones that decode to
    [SIZE_MAX]) is answered [{"rc": 3}], whatever else it carries, and leaves
    the statics, the flash and the list of external calls as they were.  The
    same holds for a request without a "data" entry when the uninitialised
    [img_chunk_data] holds a null pointer, and for a payload that does not
    start a map. *)
Theorem upload_missing_key_is_invalid
        (stack : option (list Z)) (fields : list upload_field) (w : world) :
  (Forall no_offset fields ->
   bs_upload cfg env (Some (decode_upload stack fields)) w
   = Replied [("rc"%string, MGMT_ERR_EINVAL)] w)
  /\ (Forall no_data fields ->
      bs_upload cfg env (Some (decode_upload None fields)) w
      = Replied [("rc"%string, MGMT_ERR_EINVAL)] w)
  /\ bs_upload cfg env None w = Replied [("rc"%string, MGMT_ERR_EINVAL)] w.
Proof.
  unfold bs_upload, upload_accept, upload_out.
  split; [|split].
  - intros Hoff. unfold decode_upload.
    rewrite (decode_no_offset fields Hoff) by done.
    destruct (img_chunk_data _); cbn [Z.eqb]; by rewrite ?Z.eqb_refl, world_eta.
  - intros Hdata. unfold decode_upload.
    rewrite (decode_no_data fields Hdata). cbn [img_chunk_data].
    by rewrite world_eta.
  - by rewrite world_eta.
Qed.

(** ** A first chunk that is refused *)

(** X15.  A first chunk (offset 0) that declares more bytes than the area holds
    is answered [{"rc": 3}] without any flash access, but the cursor is
    already reset to 0 and the image number replaced.  An upload that was in
    progress cannot go on: the chunk at its old cursor is then answered
    [{"rc": 0, "off": 0}], as a replay, and nothing is written. *)
Theorem upload_refused_restart_resets_cursor
        (l : upload_locals) (w : world) (img_chunk : list Z)
        (fap : flash_area) :
  img_chunk_data l = Some img_chunk ->
  img_chunk_off l = 0 ->
  secondary_of cfg (chosen_image l) = Some fap ->
  img_size_tmp l > fa_size fap ->
  let w' := mk_world (mk_upload_state (img_size (ust w)) 0 (chosen_image l))
                     (dev w) (calls w) in
  bs_upload cfg env (Some l) w = Replied [("rc"%string, MGMT_ERR_EINVAL)] w'
  /\ forall (l2 : upload_locals) (img_chunk2 : list Z),
      img_chunk_data l2 = Some img_chunk2 ->
      img_chunk_off l2 = curr_off (ust w) ->
      curr_off (ust w) <> 0 -> curr_off (ust w) <> SIZE_MAX ->
      bs_upload cfg env (Some l2) w'
      = Replied [("rc"%string, 0); ("off"%string, 0)] w'.
Proof.
  intros Hdata Hoff Hopen Hbig w'. split.
  - unfold bs_upload.
    rewrite (upload_accept_first cfg l w img_chunk fap) by done.
    destruct (Z.gtb_spec (img_size_tmp l) (fa_size fap)); [done|lia].
  - intros l2 img_chunk2 Hdata2 Hoff2 Hnz Hmax. unfold bs_upload.
    rewrite (upload_accept_next cfg l2 w' img_chunk2 fap);
      try done; try congruence.
    cbn [ust curr_off w'].
    destruct (Z.eqb_spec (img_chunk_off l2) 0); [congruence|done].
Qed.

(** ** Further chunks never fault *)

Lemma upload_accept_next_accepted (l : upload_locals) (w : world)
      (fap : flash_area) (img_chunk : list Z) (st : upload_state) (d : chip) :
  img_chunk_off l <> 0 ->
  upload_accept cfg (Some l) w = Accepted fap img_chunk st d ->
  st = ust w /\ d = dev w /\ curr_off st = img_chunk_off l
  /\ img_chunk_data l = Some img_chunk
  /\ secondary_of cfg (img_num st) = Some fap
  /\ u32 (curr_off st + zlen img_chunk) <= img_size st.
Proof.
  unfold upload_accept, secondary_of. intros Hoff Hacc.
  destruct (img_chunk_data l) as [c|]; [|done].
  destruct (img_chunk_off l =? SIZE_MAX); [done|].
  destruct (Z.eqb_spec (img_chunk_off l) 0) as [?|_]; [done|].
  destruct (flash_area_open cfg _) as [rc [fa|]] eqn:Hopen; [|done].
  destruct (Z.eqb_spec (img_chunk_off l) (curr_off (ust w))) as [Hcur|];
    [|done].
  cbn [negb] in Hacc.
  destruct (Z.gtb_spec (u32 (curr_off (ust w) + zlen c)) (img_size (ust w)));
    [done|].
  injection Hacc as <- <- <- <-. rewrite Hopen. repeat split; try done; lia.
Qed.

(** Once the progress bar is drawn, every path of the write ends in a
    reply. *)
Lemma upload_write_replies (fap : flash_area) (img_chunk : list Z)
      (st : upload_state) (d : chip) (cs : list ext_call)
      (bar : list ext_call) :
  upload_progress (upload_split fap img_chunk st).1 st = Some (bar, true) ->
  exists r w', upload_write cfg env fap img_chunk st d cs = Replied r w'.
Proof.
  unfold upload_write. intros Hbar.
  destruct (upload_split fap img_chunk st) as [n rem]. cbn [fst] in Hbar.
  rewrite Hbar.
  destruct (upload_store cfg env fap img_chunk st d) as [rc d'].
  unfold upload_out.
  destruct (rc =? 0); [|eauto].
  destruct (_ =? _); [|eauto].
  destruct (negb _); eauto.
Qed.

(** X16.  In every reachable world, a request with a nonzero offset is answered
    with a reply: neither the division by [img_size] nor the progress bar can
    fault on a chunk that is not the first. *)
Theorem upload_next_chunk_replies (l : upload_locals) (w : world) :
  board_ok cfg env -> reachable cfg env w -> wf_request (Some l) ->
  img_chunk_off l <> 0 ->
  exists r w', bs_upload cfg env (Some l) w = Replied r w'.
Proof.
  intros Hboard Hreach Hwf Hoff. unfold bs_upload.
  destruct (upload_accept cfg (Some l) w) as [o|fap img_chunk st d] eqn:Hacc.
  { apply upload_accept_answered in Hacc as (rc & st & d & ->).
    unfold upload_out. eauto. }
  pose proof (upload_accept_accepted cfg _ _ _ _ _ _ Hacc Hwf)
    as (_ & Hlen & _ & _).
  apply upload_accept_next_accepted in Hacc
    as (-> & -> & Hcur & _ & _ & Hfit); [|done].
  pose proof (reachable_inv cfg env Hboard w Hreach)
    as (Hc0 & Hsize & Hcap & _).
  unfold UDP_BUFFER_SIZE in *.
  pose proof (zlen_nonneg img_chunk).
  rewrite u32_id in Hfit by lia.
  destruct (upload_split_cases fap img_chunk (ust w) ltac:(lia))
    as (n & rem & Hsplit & -> & Hn0 & _ & Hnle & _).
  destruct (upload_progress_ok (zlen img_chunk - zlen img_chunk mod 4) (ust w))
    as [bar Hbar]; try lia.
  eapply upload_write_replies. rewrite Hsplit. exact Hbar.
Qed.

End UploadMore.

Lemma upload_refused_restart_resets_cursor_witness :
  let l := decode_upload None [F_off 0; F_len 0x1000; F_data [1; 2; 3; 4]] in
  let w' := mk_world (mk_upload_state (img_size (ust mid_upload)) 0
                                      (chosen_image l))
                     (dev mid_upload) (calls mid_upload) in
  bs_upload demo_cfg demo_env (Some l) mid_upload
  = Replied [("rc"%string, MGMT_ERR_EINVAL)] w'
  /\ forall (l2 : upload_locals) (img_chunk2 : list Z),
      img_chunk_data l2 = Some img_chunk2 ->
      img_chunk_off l2 = curr_off (ust mid_upload) ->
      curr_off (ust mid_upload) <> 0 -> curr_off (ust mid_upload) <> SIZE_MAX ->
      bs_upload demo_cfg demo_env (Some l2) w'
      = Replied [("rc"%string, 0); ("off"%string, 0)] w'.
Proof.
  apply (upload_refused_restart_resets_cursor demo_cfg demo_env
           (decode_upload None [F_off 0; F_len 0x1000; F_data [1; 2; 3; 4]])
           mid_upload [1; 2; 3; 4] (secondary_img0 demo_cfg));
    reflexivity.
Defined.

(** The chunk at the cursor of an upload in progress: it is written. *)
Lemma upload_next_chunk_replies_witness :
  ust mid_upload = mk_upload_state 1024 512 0
  /\ exists r w',
      bs_upload demo_cfg demo_env
                (chunk_at 512 1024 (take 256 (drop 512 demo_image)))
                mid_upload
      = Replied r w'.
Proof.
  split; [vm_compute; reflexivity|].
  apply (upload_next_chunk_replies demo_cfg demo_env
           (decode_upload None
              [F_off 512; F_len 1024; F_data (take 256 (drop 512 demo_image))])
           mid_upload).
  - exact demo_board_ok.
  - apply (reach_upload demo_cfg demo_env demo_world
             (chunk_at 0 1024 (take 512 demo_image))
             [("rc"%string, 0); ("off"%string, 512)] mid_upload).
    + apply reach_init.
    + vm_compute. repeat split; congruence.
    + vm_compute. reflexivity.
  - vm_compute. repeat split; congruence.
  - vm_compute. congruence.
Defined.

(** ** A whole upload *)

(** Programming [data] right after the bytes stored so far, when the rest of
    the area is erased. *)
Lemma programmed_after (pre stored post data : list Z) (size : Z) :
  zlen stored + zlen data <= size -> Forall is_byte data ->
  programmed (stored_cells pre stored post size) (zlen pre + zlen stored) data
  = stored_cells pre (stored ++ data) post size.
Proof.
  intros Hfit Hbytes. unfold stored_cells, programmed, ztake, zdrop, zlen in *.
  rewrite length_app.
  rewrite <- !Nat2Z.inj_add, !Nat2Z.id.
  rewrite !(app_assoc pre stored).
  rewrite <- (length_app pre stored).
  rewrite take_app_length, drop_app_length.
  rewrite take_app_le by (rewrite length_replicate; lia).
  rewrite take_replicate, Nat.min_l by lia.
  rewrite program_erased by done.
  rewrite <- drop_drop, drop_app_length.
  rewrite drop_app_le by (rewrite length_replicate; lia).
  rewrite drop_replicate.
  rewrite <- !app_assoc. repeat f_equal. lia.
Qed.

Lemma zlen_app (l k : list Z) : zlen (l ++ k) = zlen l + zlen k.
Proof. unfold zlen. rewrite length_app. lia. Qed.

Lemma zlen_stored_cells (pre stored post : list Z) (size : Z) :
  zlen stored <= size ->
  zlen (stored_cells pre stored post size) = zlen pre + size + zlen post.
Proof.
  intros Hfit. unfold stored_cells. rewrite !zlen_app.
  unfold zlen in *. rewrite length_replicate. lia.
Qed.

(** Erased bytes stored after the data are part of the erased rest. *)
Lemma stored_cells_pad (pre stored post : list Z) (size : Z) (p : nat) :
  zlen stored + Z.of_nat p <= size ->
  stored_cells pre (stored ++ replicate p 255) post size
  = stored_cells pre stored post size.
Proof.
  intros Hfit. unfold stored_cells. rewrite zlen_app.
  rewrite <- !app_assoc. do 2 f_equal. rewrite app_assoc, <- replicate_add.
  do 2 f_equal. unfold zlen in *. rewrite length_replicate. lia.
Qed.

Lemma area_of_stored (fa : flash_area) (log : list raw_op)
      (pre stored post : list Z) :
  zlen pre = fa_off fa -> zlen stored <= fa_size fa ->
  area_of fa (mk_chip (stored_cells pre stored post (fa_size fa)) log)
  = stored ++ replicate (Z.to_nat (fa_size fa - zlen stored)) 255.
Proof.
  intros Hpre Hfit. unfold stored_cells, area_of, peek, ztake, zdrop, zlen in *.
  cbn [cells]. rewrite <- Hpre, Nat2Z.id, drop_app_length.
  rewrite app_assoc. apply take_app_length'.
  rewrite length_app, length_replicate. lia.
Qed.

Lemma erased_stored (cs : list Z) (addr len : Z) :
  0 <= addr -> 0 <= len -> addr + len <= zlen cs ->
  erased cs addr len
  = stored_cells (ztake addr cs) [] (zdrop (addr + len) cs) len
  /\ zlen (ztake addr cs) = addr.
Proof.
  intros. split; [|apply zlen_ztake; lia].
  unfold stored_cells, erased, memset. cbn [app]. by rewrite Z.sub_0_r.
Qed.

Section WholeUpload.

Variable cfg : sysflash.
Variable env : bootutil.
Variable fap : flash_area.
Hypothesis Hdev : fa_device_id fap = FLASH_DEVICE_INTERNAL_FLASH cfg.
Hypothesis Hmax : 4 <= BOOT_MAX_ALIGN env.
Hypothesis Hbase : 0 <= fa_off fap.
Hypothesis Hbase4 : fa_off fap mod 4 = 0.
Hypothesis Hsize4 : fa_size fap mod 4 = 0.
Hypothesis Hwrap : fa_off fap + fa_size fap < 2 ^ 32.

(** One write of whole words after the stored bytes. *)
Lemma flash_area_write_after (src : list Z) (len : Z)
      (pre stored post : list Z) (log : list raw_op) :
  zlen pre = fa_off fap -> zlen stored mod 4 = 0 ->
  4 <= len -> len mod 4 = 0 -> len <= zlen src ->
  zlen stored + len <= fa_size fap ->
  Forall is_byte (ztake len src) ->
  flash_area_write cfg fap (zlen stored) src len
    (mk_chip (stored_cells pre stored post (fa_size fap)) log)
  = (0, mk_chip (stored_cells pre (stored ++ ztake len src) post (fa_size fap))
                (log ++ [RawWrite (fa_off fap + zlen stored) (ztake len src)])).
Proof.
  intros Hpre Hk4 Hl4 Hlm Hsrc Hfit Hbytes.
  pose proof (zlen_nonneg stored). pose proof (zlen_nonneg post).
  rewrite flash_area_write_words; try done; try lia.
  2:{ cbn [cells]. rewrite zlen_stored_cells; lia. }
  cbn [cells oplog]. rewrite <- Hpre.
  rewrite programmed_after; [done| |done].
  rewrite zlen_ztake; lia.
Qed.

(** The stores of a chunk that follows [stored] bytes on an otherwise
    erased area: the chunk ends up after them. *)
Lemma upload_store_after (img_chunk : list Z) (st : upload_state)
      (pre stored post : list Z) (log : list raw_op) :
  zlen pre = fa_off fap -> zlen stored = curr_off st ->
  curr_off st mod 4 = 0 ->
  4 <= zlen img_chunk -> Forall is_byte img_chunk ->
  curr_off st + zlen img_chunk <= img_size st ->
  img_size st <= fa_size fap ->
  (curr_off st + zlen img_chunk < img_size st -> zlen img_chunk mod 4 = 0) ->
  exists log',
    upload_store cfg env fap img_chunk st
      (mk_chip (stored_cells pre stored post (fa_size fap)) log)
    = (0, mk_chip (stored_cells pre (stored ++ img_chunk) post (fa_size fap))
                  log').
Proof.
  intros Hpre Hst Hk4 Hc4 Hbytes Hin Hsize Hmid.
  pose proof (zlen_nonneg stored) as Hk0.
  assert (zlen stored mod 4 = 0) as Hs4 by (by rewrite Hst).
  pose proof (Z.mod_pos_bound (zlen img_chunk) 4 ltac:(lia)) as Hr.
  pose proof (Z.div_mod (zlen img_chunk) 4 ltac:(lia)) as Hdm.
  assert (ztake (zlen img_chunk) img_chunk = img_chunk) as Hall
    by (unfold ztake, zlen; rewrite Nat2Z.id; apply take_ge; lia).
  unfold upload_store.
  destruct (Z.eq_dec (zlen img_chunk mod 4) 0) as [Hal|Hres].
  - (* whole words *)
    assert (upload_split fap img_chunk st = (zlen img_chunk, 0)) as ->.
    { unfold upload_split, flash_area_align. rewrite Hal, Z.sub_0_r.
      rewrite u32_id by lia. by destruct (_ <? _). }
    unfold bind. rewrite <- Hst.
    rewrite flash_area_write_after; rewrite ?Hall; try done; try lia.
    cbn [Z.eqb andb negb]. by eexists.
  - (* whole words, then the padded residue *)
    assert (curr_off st + zlen img_chunk = img_size st) as Hend by lia.
    rewrite upload_split_final by lia.
    set (rem := zlen img_chunk mod 4) in *.
    set (n := zlen img_chunk - rem).
    assert (n mod 4 = 0) as Hn4.
    { unfold n. replace (zlen img_chunk - rem) with (zlen img_chunk / 4 * 4)
        by lia. apply Z.mod_mul. lia. }
    assert (4 <= n) as Hn by (revert Hn4; unfold n;
                              Z.to_euclidean_division_equations; lia).
    assert (zlen (ztake n img_chunk) = n) as Htk
      by (apply zlen_ztake; unfold n; lia).
    assert (Forall is_byte (ztake n img_chunk)) as Hb1
      by (unfold ztake; by apply Forall_take).
    assert (Forall is_byte (zdrop n img_chunk)) as Hb2
      by (unfold zdrop; by apply Forall_drop).
    unfold bind. rewrite <- Hst.
    rewrite flash_area_write_after; try done; try lia;
      try (unfold n; lia).
    destruct (Z.eqb_spec rem 0) as [|_]; [done|]. cbn [Z.eqb andb negb].
    unfold flash_area_erased_val, flash_area_align.
    rewrite (u32_id (zlen stored + n)) by (unfold n; lia).
    replace (zlen stored + n) with (zlen (stored ++ ztake n img_chunk))
      by (rewrite zlen_app; lia).
    assert (ztake 4 (memcpy (memset 255 (BOOT_MAX_ALIGN env))
                            (zdrop n img_chunk) rem)
            = zdrop n img_chunk ++ replicate (Z.to_nat (4 - rem)) 255)
      as Hword by (apply padded_residue; unfold n; lia).
    rewrite flash_area_write_after; rewrite ?Hword, ?zlen_app, ?Htk;
      try done; try lia.
    + eexists. do 2 f_equal.
      rewrite <- app_assoc, (app_assoc (ztake n img_chunk)).
      unfold ztake, zdrop at 1. rewrite take_drop.
      rewrite app_assoc. apply stored_cells_pad.
      rewrite zlen_app.
      revert Hsize4 Hn4 Hk4. rewrite <- Hst. unfold n.
      Z.to_euclidean_division_equations. lia.
    + rewrite Z.add_mod, Hst, Hk4, Hn4 by lia. done.
    + unfold memcpy, memset, zlen, ztake, zdrop in *.
      rewrite length_app, length_take_le, length_drop, length_replicate;
        rewrite ?length_drop; unfold n in *; lia.
    + revert Hsize4 Hn4 Hk4. rewrite <- Hst. unfold n.
      Z.to_euclidean_division_equations. lia.
    + apply Forall_app. split; [done|]. apply Forall_replicate.
      unfold is_byte. lia.
Qed.

Lemma upload_split_after (img_chunk : list Z) (st : upload_state) :
  0 <= curr_off st -> curr_off st + zlen img_chunk <= img_size st ->
  img_size st < 2 ^ 32 ->
  (curr_off st + zlen img_chunk < img_size st -> zlen img_chunk mod 4 = 0) ->
  upload_split fap img_chunk st
  = (zlen img_chunk - zlen img_chunk mod 4, zlen img_chunk mod 4).
Proof.
  intros Hk Hin Hn Hmid.
  destruct (Z.eq_dec (curr_off st + zlen img_chunk) (img_size st)) as [Hend|Hne].
  { by apply upload_split_final. }
  pose proof (zlen_nonneg img_chunk).
  unfold upload_split, flash_area_align.
  rewrite Hmid, Z.sub_0_r by lia. rewrite u32_id by lia.
  by destruct (_ <? _).
Qed.

(** The write of a chunk that follows [stored] bytes of an upload of [n]
    bytes to image 0. *)
Lemma upload_write_after (img_chunk : list Z) (n k : Z)
      (pre stored post : list Z) (log : list raw_op) (cs : list ext_call) :
  zlen pre = fa_off fap -> zlen stored = k -> k mod 4 = 0 ->
  4 <= zlen img_chunk -> Forall is_byte img_chunk ->
  k + zlen img_chunk <= n -> n <= fa_size fap ->
  (k + zlen img_chunk < n -> zlen img_chunk mod 4 = 0) ->
  boot_serial_uploaded_hook env 0 fap n = 0 ->
  boot_set_pending_multi env 0 true = 0 ->
  exists bar log',
    progress_only bar
    /\ upload_write cfg env fap img_chunk (mk_upload_state n k 0)
         (mk_chip (stored_cells pre stored post (fa_size fap)) log) cs
       = Replied [("rc"%string, 0); ("off"%string, k + zlen img_chunk)]
           (mk_world
              (mk_upload_state n (k + zlen img_chunk) 0)
              (mk_chip (stored_cells pre (stored ++ img_chunk) post
                                     (fa_size fap)) log')
              (cs ++ bar
               ++ if k + zlen img_chunk =? n
                  then [UploadedHook 0 n; SetPending 0 true] else [])).
Proof.
  intros Hpre Hst Hk4 Hc4 Hbytes Hin Hsize Hmid Hhook Hpend.
  pose proof (zlen_nonneg stored) as Hk0.
  pose proof (Z.mod_pos_bound (zlen img_chunk) 4 ltac:(lia)) as Hr.
  pose proof (Z.mod_le (zlen img_chunk) 4 ltac:(lia) ltac:(lia)) as Hrle.
  set (st := mk_upload_state n k 0).
  unfold upload_write.
  rewrite upload_split_after by (cbn [curr_off img_size st]; lia).
  destruct (upload_progress_ok (zlen img_chunk - zlen img_chunk mod 4) st)
    as [bar Hbar]; try (cbn [curr_off img_size st]; lia).
  rewrite Hbar.
  pose proof (upload_progress_bar _ _ _ _ Hbar) as Hprog.
  destruct (upload_store_after img_chunk st pre stored post log)
    as [log' ->]; try done; try (cbn [curr_off img_size st]; lia).
  exists bar, log'. split; [done|].
  cbn [Z.eqb curr_off img_size img_num st].
  replace (zlen img_chunk - zlen img_chunk mod 4 + zlen img_chunk mod 4)
    with (zlen img_chunk) by lia.
  rewrite (u32_id (zlen img_chunk)), (u32_id (k + zlen img_chunk)) by lia.
  unfold upload_out, rc_reply. cbn [curr_off].
  destruct (Z.eqb_spec (k + zlen img_chunk) n) as [Hend|Hne].
  - rewrite Hhook. cbn [Z.eqb negb]. rewrite Hpend. cbn [Z.eqb].
    rewrite Hend. do 2 f_equal. by rewrite <- !app_assoc.
  - cbn [Z.eqb]. by rewrite app_nil_r.
Qed.

Lemma word_chunks_length (chunks : list (list Z)) :
  word_chunks chunks -> 4 <= zlen (concat chunks).
Proof.
  destruct chunks as [|c [|c2 rest]]; [done| |].
  - simpl. rewrite app_nil_r. done.
  - intros (Hc & _ & _).
    change (concat (c :: c2 :: rest)) with (c ++ concat (c2 :: rest)).
    rewrite zlen_app.
    pose proof (zlen_nonneg (concat (c2 :: rest))). lia.
Qed.

Lemma send_chunks_after (chunks : list (list Z)) :
  forall (n k : Z) (pre stored post : list Z) (log : list raw_op)
         (cs : list ext_call),
    secondary_of cfg 0 = Some fap ->
    word_chunks chunks -> Forall (Forall is_byte) chunks ->
    zlen pre = fa_off fap -> zlen stored = k -> k mod 4 = 0 -> 0 < k ->
    k + zlen (concat chunks) = n -> n <= fa_size fap ->
    boot_serial_uploaded_hook env 0 fap n = 0 ->
    boot_set_pending_multi env 0 true = 0 ->
    exists log' bars,
      send_chunks cfg env n k chunks
        (mk_world (mk_upload_state n k 0)
                  (mk_chip (stored_cells pre stored post (fa_size fap)) log)
                  cs)
      = Some (map (fun off => [("rc"%string, 0); ("off"%string, off)])
                  (chunk_ends k chunks),
              mk_world (mk_upload_state n n 0)
                       (mk_chip (stored_cells pre (stored ++ concat chunks)
                                              post (fa_size fap)) log')
                       (cs ++ bars ++ [UploadedHook 0 n; SetPending 0 true]))
      /\ Forall (fun c => exists idx, c = ProgressBar idx) bars.
Proof.
  induction chunks as [|c rest IH];
    intros n k pre stored post log cs Hopen Hwc Hbytes Hpre Hst Hk4 Hk0
           Hsum Hsize Hhook Hpend; [done|].
  apply Forall_cons_1 in Hbytes as [Hc Hrest].
  assert (4 <= zlen c
          /\ (rest <> [] -> zlen c mod 4 = 0 /\ word_chunks rest
                            /\ 4 <= zlen (concat rest)))
    as (Hc4 & Hmore).
  { destruct rest as [|c2 rest']; [done|].
    destruct Hwc as (? & ? & Hwc). split; [done|]. intros _.
    split; [done|]. split; [done|]. by apply word_chunks_length. }
  cbn [concat] in Hsum. rewrite zlen_app in Hsum.
  pose proof (zlen_nonneg (concat rest)) as Hrest0.
  cbn [send_chunks chunk_ends map].
  set (w := mk_world _ _ cs).
  assert (bs_upload cfg env (chunk_at k n c) w
          = upload_write cfg env fap c (mk_upload_state n k 0) (dev w) cs)
    as ->.
  { unfold bs_upload, chunk_at. rewrite decode_chunk.
    assert (k < 2 ^ 32 - 1) as Hk32
      by (revert Hk4; Z.to_euclidean_division_equations; lia).
    rewrite (upload_accept_next cfg _ w c fap); try done;
      cbn [img_chunk_off img_chunk_data ust curr_off img_size img_num w];
      rewrite ?u32_id by lia; try (unfold SIZE_MAX; lia).
    rewrite Z.eqb_refl. cbn [negb].
    destruct (Z.gtb_spec (k + zlen c) n); [lia|done]. }
  cbn [dev w].
  destruct (upload_write_after c n k pre stored post log cs)
    as (bar & log1 & Hbar & ->); try done; try lia.
  { intros Hlt. destruct rest as [|c2 rest']; [|by apply Hmore].
    cbn [concat] in *. unfold zlen in Hsum at 2. simpl in Hsum. lia. }
  assert (Forall (fun c => exists idx, c = ProgressBar idx) bar) as Hbar'.
  { destruct Hbar as [->|[idx ->]]; [done|].
    apply Forall_cons_2; [by exists idx|done]. }
  destruct rest as [|c2 rest'].
  - (* the last chunk *)
    cbn [send_chunks concat] in *. rewrite app_nil_r.
    assert (k + zlen c = n) as Hend by (unfold zlen in Hsum at 2; simpl in Hsum; lia).
    rewrite Hend, Z.eqb_refl. exists log1, bar. done.
  - destruct Hmore as (Hal & Hwc' & Hlen'); [done|].
    destruct (Z.eqb_spec (k + zlen c) n) as [|_]; [lia|].
    rewrite app_nil_r.
    destruct (IH n (k + zlen c) pre (stored ++ c) post log1 (cs ++ bar))
      as (log2 & bars & -> & Hbars); try done; try lia.
    { rewrite zlen_app. lia. }
    { rewrite Z.add_mod, Hk4, Hal by lia. done. }
    exists log2, (bar ++ bars). split; [|by apply Forall_app].
    do 3 f_equal; [|by rewrite <- !app_assoc].
    by rewrite <- app_assoc.
Qed.

End WholeUpload.

(** X17.  A whole upload to image 0.  The secondary slot is an area of the
    internal flash with a word-aligned base and size, a whole number of
    sectors, and the hook and [boot_set_pending_multi] succeed.  A peer cuts
    an image of byte values, no longer than the area, into chunks of at least
    four bytes, all but the last of them whole words, and sends them in
    order.  Then, from any world: every chunk is answered
    [{"rc": 0, "off": end of the chunk}]; the cursor ends at the image size;
    the area holds the image followed by erased bytes up to its end; no byte
    outside the area has changed; and after progress bars only, the hook and
    [boot_set_pending_multi(0, true)] are called once each, at the end. *)
Theorem upload_in_word_chunks_stores_image
        (cfg : sysflash) (env : bootutil) (fap : flash_area)
        (chunks : list (list Z)) (w : world) :
  secondary_of cfg 0 = Some fap ->
  fa_device_id fap = FLASH_DEVICE_INTERNAL_FLASH cfg ->
  0 <= fa_off fap -> fa_off fap mod 4 = 0 ->
  fa_size fap mod 4 = 0 -> fa_size fap mod FLASH_SECTOR_SIZE cfg = 0 ->
  fa_off fap + fa_size fap <= zlen (cells (dev w)) ->
  fa_off fap + fa_size fap < 2 ^ 32 ->
  4 <= BOOT_MAX_ALIGN env ->
  word_chunks chunks -> Forall (Forall is_byte) chunks ->
  zlen (concat chunks) <= fa_size fap ->
  boot_serial_uploaded_hook env 0 fap (zlen (concat chunks)) = 0 ->
  boot_set_pending_multi env 0 true = 0 ->
  let n := zlen (concat chunks) in
  exists w' bars,
    send_chunks cfg env n 0 chunks w
    = Some (map (fun off => [("rc"%string, 0); ("off"%string, off)])
                (chunk_ends 0 chunks), w')
    /\ ust w' = mk_upload_state n n 0
    /\ area_of fap (dev w')
       = concat chunks ++ replicate (Z.to_nat (fa_size fap - n)) 255
    /\ ztake (fa_off fap) (cells (dev w')) = ztake (fa_off fap) (cells (dev w))
    /\ zdrop (fa_off fap + fa_size fap) (cells (dev w'))
       = zdrop (fa_off fap + fa_size fap) (cells (dev w))
    /\ calls w' = calls w ++ bars ++ [UploadedHook 0 n; SetPending 0 true]
    /\ Forall (fun c => exists idx, c = ProgressBar idx) bars.
Proof.
  intros Hopen Hdev Hbase Hbase4 Hsize4 Hsec Hchip Hwrap Hmax Hwc Hbytes
         Hfit Hhook Hpend n.
  pose proof (word_chunks_length chunks Hwc) as Hn4. fold n in Hn4, Hfit, Hhook.
  destruct chunks as [|c rest]; [done|].
  pose proof Hbytes as [Hc Hrest]%Forall_cons_1.
  assert (4 <= zlen c
          /\ (rest <> [] -> zlen c mod 4 = 0 /\ word_chunks rest))
    as (Hc4 & Hmore).
  { destruct rest as [|c2 rest']; [done|].
    destruct Hwc as (? & ? & Hwc). by repeat split. }
  assert (n = zlen c + zlen (concat rest)) as Hsum
    by (unfold n; cbn [concat]; apply zlen_app).
  pose proof (zlen_nonneg (concat rest)) as Hrest0.
  destruct (erased_stored (cells (dev w)) (fa_off fap) (fa_size fap))
    as [Herased Hpre]; try lia.
  set (pre := ztake (fa_off fap) (cells (dev w))) in *.
  set (post := zdrop (fa_off fap + fa_size fap) (cells (dev w))) in *.
  cbn [send_chunks chunk_ends map].
  assert (exists log,
             bs_upload cfg env (chunk_at 0 n c) w
             = upload_write cfg env fap c (mk_upload_state n 0 0)
                 (mk_chip (stored_cells pre [] post (fa_size fap)) log)
                 (calls w))
    as [log ->].
  { unfold bs_upload, chunk_at. rewrite decode_chunk.
    rewrite (upload_accept_first cfg _ w c fap) by done.
    cbn [img_size_tmp]. rewrite (u32_id n) by lia.
    destruct (Z.gtb_spec n (fa_size fap)); [lia|].
    rewrite flash_area_erase_whole by (try done; lia).
    cbn [Z.eqb negb]. rewrite Herased. eexists. reflexivity. }
  destruct (upload_write_after cfg env fap Hdev Hmax Hbase Hbase4 Hsize4 Hwrap
              c n 0 pre [] post log (calls w))
    as (bar & log1 & Hbar & ->); try done; try lia.
  { intros Hlt. destruct rest as [|c2 rest']; [|by apply Hmore].
    change (zlen (concat [])) with 0 in Hsum. lia. }
  assert (Forall (fun c => exists idx, c = ProgressBar idx) bar) as Hbar'.
  { destruct Hbar as [->|[idx ->]]; [done|].
    apply Forall_cons_2; [by exists idx|done]. }
  assert (forall stored log',
             zlen stored <= fa_size fap ->
             ztake (fa_off fap)
                   (cells (mk_chip (stored_cells pre stored post (fa_size fap))
                                   log')) = pre
             /\ zdrop (fa_off fap + fa_size fap)
                      (cells (mk_chip (stored_cells pre stored post
                                                    (fa_size fap)) log'))
                = post) as Hframe.
  { intros stored log' Hst. cbn [cells].
    unfold stored_cells, ztake, zdrop, zlen in *. rewrite <- Hpre.
    rewrite Nat2Z.id, take_app_length. split; [done|].
    rewrite Z2Nat.inj_add, Nat2Z.id by lia.
    rewrite <- drop_drop, drop_app_length, app_assoc.
    apply drop_app_length'. rewrite length_app, length_replicate. lia. }
  cbn [app] in *. rewrite !Z.add_0_l.
  destruct rest as [|c2 rest'].
  - assert (zlen c = n) as Hend
      by (change (zlen (concat [])) with 0 in Hsum; lia).
    cbn [send_chunks concat chunk_ends map].
    destruct (Hframe c log1 ltac:(lia)) as [Hf1 Hf2].
    eexists _, bar. split; [reflexivity|]. cbn [ust dev calls].
    split; [by rewrite Hend|].
    split; [rewrite area_of_stored, app_nil_r by lia; by rewrite Hend|].
    split; [done|]. split; [done|]. split; [|done].
    destruct (Z.eqb_spec (zlen c) n); [done|lia].
  - destruct Hmore as (Hal & Hwc'); [done|].
    pose proof (word_chunks_length _ Hwc') as Hlen'.
    destruct (Z.eqb_spec (zlen c) n) as [|_]; [lia|].
    rewrite app_nil_r.
    destruct (send_chunks_after cfg env fap Hdev Hmax Hbase Hbase4 Hsize4 Hwrap
                (c2 :: rest') n (zlen c) pre c post log1 (calls w ++ bar))
      as (log2 & bars & -> & Hbars); try done; try lia.
    destruct (Hframe (c ++ concat (c2 :: rest')) log2) as [Hf1 Hf2].
    { rewrite zlen_app. lia. }
    eexists _, (bar ++ bars). split; [reflexivity|]. cbn [ust dev calls].
    split; [done|]. split.
    { rewrite area_of_stored by (rewrite ?zlen_app; lia).
      rewrite zlen_app. by rewrite Hsum. }
    split; [done|]. split; [done|].
    split; [by rewrite <- !app_assoc|by apply Forall_app].
Qed.

Lemma upload_in_word_chunks_stores_image_witness :
  let chunks := [take 512 odd_image; drop 512 odd_image] in
  let fap := secondary_img0 demo_cfg in
  let n := zlen (concat chunks) in
  exists w' bars,
    send_chunks demo_cfg demo_env n 0 chunks demo_world
    = Some (map (fun off => [("rc"%string, 0); ("off"%string, off)])
                (chunk_ends 0 chunks), w')
    /\ ust w' = mk_upload_state n n 0
    /\ area_of fap (dev w')
       = concat chunks ++ replicate (Z.to_nat (fa_size fap - n)) 255
    /\ ztake (fa_off fap) (cells (dev w'))
       = ztake (fa_off fap) (cells (dev demo_world))
    /\ zdrop (fa_off fap + fa_size fap) (cells (dev w'))
       = zdrop (fa_off fap + fa_size fap) (cells (dev demo_world))
    /\ calls w' = calls demo_world ++ bars
                  ++ [UploadedHook 0 n; SetPending 0 true]
    /\ Forall (fun c => exists idx, c = ProgressBar idx) bars.
Proof.
  apply (upload_in_word_chunks_stores_image demo_cfg demo_env
           (secondary_img0 demo_cfg)
           [take 512 odd_image; drop 512 odd_image] demo_world);
    try reflexivity; try (vm_compute; congruence).
  - vm_compute. repeat split; congruence.
  - apply Forall_cons_2; [by apply all_bytes|].
    apply Forall_cons_2; [by apply all_bytes|]. apply Forall_nil_2.
Defined.

Section FirstChunk.

Variable cfg : sysflash.
Variable env : bootutil.

(** The percentage a first chunk is drawn with. *)
Lemma upload_progress_first (n : Z) (st : upload_state) :
  curr_off st = 0 -> 0 < img_size st -> 0 <= n -> n * 100 < 2 ^ 31 ->
  upload_progress n st
  = if n * 100 / img_size st =? 0 then Some ([], true)
    else Some ([ProgressBar (n * 100 / img_size st)],
               proccess_bar_print (Z.of_nat (String.length title))
                                  (n * 100 / img_size st) 100).
Proof.
  intros Hcur Hsize Hn Hfit. unfold upload_progress. rewrite Hcur.
  destruct (Z.eqb_spec (img_size st) 0); [lia|].
  change (u32 (0 * 100)) with 0. rewrite Z.div_0_l by lia.
  change (to_int 0) with 0.
  rewrite Z.add_0_l, (u32_id n), (u32_id (n * 100)) by lia.
  set (x := n * 100 / img_size st).
  assert (0 <= x <= n * 100) as Hx.
  { unfold x. split; [apply Z.div_pos; lia|].
    apply Z.div_le_upper_bound; nia. }
  assert (to_int x = x) as ->.
  { unfold to_int. rewrite u32_id by lia.
    destruct (Z.leb_spec x INT_MAX); [done|]. unfold INT_MAX in *. lia. }
  rewrite (Z.eqb_sym 0 x). by destruct (x =? 0).
Qed.

(** X18.  A first chunk (offset 0) that is accepted, with a declared size [len]
    above 0 and [n] bytes in whole words: when [n] exceeds [len] by one
    hundredth or more ([101 * len <= 100 * n]) the percentage passes 100 and
    [proccess_bar_print] stores past the end of its buffer; otherwise the
    request is answered with a reply. *)
Theorem upload_first_chunk_overruns_progress_bar
        (l : upload_locals) (w : world) (img_chunk : list Z)
        (fap : flash_area) (d' : chip) :
  img_chunk_data l = Some img_chunk ->
  img_chunk_off l = 0 ->
  secondary_of cfg (chosen_image l) = Some fap ->
  0 < img_size_tmp l <= fa_size fap ->
  zlen img_chunk <= UDP_BUFFER_SIZE ->
  flash_area_erase cfg fap 0 (fa_size fap) (dev w) = (0, d') ->
  let n := zlen img_chunk - zlen img_chunk mod 4 in
  (101 * img_size_tmp l <= 100 * n ->
   bs_upload cfg env (Some l) w = Fault BufferOverrun)
  /\ (100 * n < 101 * img_size_tmp l ->
      exists r w', bs_upload cfg env (Some l) w = Replied r w').
Proof.
  intros Hdata Hoff Hopen Hsize Hlen Herase n.
  unfold UDP_BUFFER_SIZE in Hlen.
  pose proof (zlen_nonneg img_chunk) as Hlen0.
  pose proof (Z.mod_pos_bound (zlen img_chunk) 4 ltac:(lia)) as Hr.
  pose proof (Z.mod_le (zlen img_chunk) 4 ltac:(lia) ltac:(lia)) as Hrle.
  unfold bs_upload.
  rewrite (upload_accept_first cfg l w img_chunk fap) by done.
  destruct (Z.gtb_spec (img_size_tmp l) (fa_size fap)); [lia|].
  rewrite Herase. cbn [Z.eqb negb].
  set (st := mk_upload_state (img_size_tmp l) 0 (chosen_image l)).
  destruct (upload_split_cases fap img_chunk st ltac:(lia))
    as (n' & rem & Hsplit & Hn' & _).
  fold n in Hn'. subst n'.
  assert (upload_progress n st
          = if n * 100 / img_size_tmp l =? 0 then Some ([], true)
            else Some ([ProgressBar (n * 100 / img_size_tmp l)],
                       proccess_bar_print (Z.of_nat (String.length title))
                                          (n * 100 / img_size_tmp l) 100))
    as Hprog by (apply upload_progress_first; cbn [curr_off img_size st];
                 unfold n; lia).
  set (idx := n * 100 / img_size_tmp l) in *.
  assert (0 <= idx < 2 ^ 31) as Hidx.
  { unfold idx. split; [apply Z.div_pos; unfold n; lia|].
    apply Z.div_lt_upper_bound; unfold n; nia. }
  split.
  - intros Hbig.
    assert (101 <= idx) as Hover
      by (unfold idx; apply Z.div_le_lower_bound; lia).
    unfold upload_write. rewrite Hsplit, Hprog.
    destruct (Z.eqb_spec idx 0); [lia|].
    destruct (proccess_bar_print _ idx 100) eqn:Hbar; [|done].
    apply proccess_bar_print_true in Hbar; try done; try lia.
    all: vm_compute; congruence.
  - intros Hsmall.
    assert (idx <= 100) as Hunder.
    { unfold idx. apply Z.lt_succ_r.
      apply Z.div_lt_upper_bound; lia. }
    assert (exists bar, upload_progress n st = Some (bar, true)) as [bar Hbar].
    { rewrite Hprog. destruct (idx =? 0); [by eexists|].
      eexists. do 2 f_equal.
      apply proccess_bar_print_true; try lia; vm_compute; congruence. }
    eapply upload_write_replies. rewrite Hsplit. exact Hbar.
Qed.

End FirstChunk.

Lemma upload_first_chunk_overruns_progress_bar_witness :
  let l := decode_upload None [F_off 0; F_len 4; F_data [1; 2; 3; 4; 5; 6; 7; 8]] in
  let n := zlen [1; 2; 3; 4; 5; 6; 7; 8] - zlen [1; 2; 3; 4; 5; 6; 7; 8] mod 4 in
  (101 * img_size_tmp l <= 100 * n ->
   bs_upload demo_cfg demo_env (Some l) demo_world = Fault BufferOverrun)
  /\ (100 * n < 101 * img_size_tmp l ->
      exists r w', bs_upload demo_cfg demo_env (Some l) demo_world
                   = Replied r w').
Proof.
  apply (upload_first_chunk_overruns_progress_bar demo_cfg demo_env
           (decode_upload None [F_off 0; F_len 4; F_data [1; 2; 3; 4; 5; 6; 7; 8]])
           demo_world [1; 2; 3; 4; 5; 6; 7; 8] (secondary_img0 demo_cfg)
           (snd (flash_area_erase demo_cfg (secondary_img0 demo_cfg) 0 0x800
                                  demo_chip)));
    try reflexivity; vm_compute; try split; congruence.
Defined.

(** * Part XI: the image list *)

Section ListingFacts.

Variable cfg : sysflash.
Variable env : bootutil.
Variable lst : bootlist.

(** What the loop of [bs_list] does: it only reads; its entries are in the
    order of the slots, one for each slot whose area opens and whose header
    has the magic and passed the validation; an entry carries the flags of
    its slot and, when there is one, the hash read from the slot. *)
Lemma list_slots_entries (n : nat) :
  forall (slot swap_status : Z) (d : chip),
    0 <= slot -> slot + Z.of_nat n < 2 ^ 31 ->
    exists entries ops,
      list_slots cfg env lst n slot swap_status d
      = (entries, mk_chip (cells d) (oplog d ++ ops))
      /\ forallb is_raw_read ops = true
      /\ map e_slot entries `sublist_of` seqZ slot (Z.of_nat n)
      /\ (forall s,
            s ∈ map e_slot entries <->
            slot <= s < slot + Z.of_nat n
            /\ (exists fap,
                   flash_area_open cfg
                     (flash_area_id_from_multi_image_slot cfg 0 s)
                   = (0, Some fap))
            /\ sp_magic (list_probe lst s) = true
            /\ sp_fih_success (list_probe lst s) = true)
      /\ Forall (fun e =>
                   mk_slot_flags (e_active e) (e_confirmed e) (e_pending e)
                                 (e_permanent e)
                   = swap_flags lst swap_status (e_slot e)
                   /\ e_bootable e = negb (ih_non_bootable lst (e_slot e))
                   /\ forall h,
                       e_hash e = Some h ->
                       exists fap d1 d2,
                         flash_area_open cfg
                           (flash_area_id_from_multi_image_slot cfg 0 (e_slot e))
                         = (0, Some fap)
                         /\ cells d1 = cells d
                         /\ boot_serial_get_hash cfg env
                              (list_probe lst (e_slot e)) fap d1
                            = (Some h, d2))
                entries.
Proof.
  induction n as [|n IH]; intros slot swap_status d Hslot Hfit.
  { exists [], []. cbn [list_slots]. unfold ret. rewrite app_nil_r.
    split; [by destruct d|]. split; [done|]. split; [done|].
    split; [|done]. intros s. split; [by intros ?%elem_of_nil|lia]. }
  assert (to_int slot = slot) as Hint.
  { unfold to_int. rewrite u32_id by lia.
    destruct (Z.leb_spec slot INT_MAX); [done|]. unfold INT_MAX in *. lia. }
  assert (u32 (slot + 1) = slot + 1) as Hnext by (apply u32_id; lia).
  assert (Z.of_nat (S n) = Z.succ (Z.of_nat n)) as HS by lia.
  (* what the rest of the loop gives, on a chip with the same bytes *)
  assert (forall d0 ops0,
             d0 = mk_chip (cells d) (oplog d ++ ops0) ->
             forallb is_raw_read ops0 = true ->
             exists entries ops,
               list_slots cfg env lst n (u32 (slot + 1)) swap_status d0
               = (entries, mk_chip (cells d) (oplog d ++ ops))
               /\ forallb is_raw_read ops = true
               /\ map e_slot entries `sublist_of` seqZ (slot + 1) (Z.of_nat n)
               /\ (forall s,
                     s ∈ map e_slot entries <->
                     slot + 1 <= s < slot + 1 + Z.of_nat n
                     /\ (exists fap,
                            flash_area_open cfg
                              (flash_area_id_from_multi_image_slot cfg 0 s)
                            = (0, Some fap))
                     /\ sp_magic (list_probe lst s) = true
                     /\ sp_fih_success (list_probe lst s) = true)
               /\ Forall (fun e =>
                            mk_slot_flags (e_active e) (e_confirmed e)
                                          (e_pending e) (e_permanent e)
                            = swap_flags lst swap_status (e_slot e)
                            /\ e_bootable e
                               = negb (ih_non_bootable lst (e_slot e))
                            /\ forall h,
                                e_hash e = Some h ->
                                exists fap d1 d2,
                                  flash_area_open cfg
                                    (flash_area_id_from_multi_image_slot
                                       cfg 0 (e_slot e))
                                  = (0, Some fap)
                                  /\ cells d1 = cells d
                                  /\ boot_serial_get_hash cfg env
                                       (list_probe lst (e_slot e)) fap d1
                                     = (Some h, d2))
                         entries) as Hrest.
  { intros d0 ops0 -> Hops0. rewrite Hnext.
    destruct (IH (slot + 1) swap_status
                 (mk_chip (cells d) (oplog d ++ ops0)))
      as (entries & ops & -> & Hops & Hsub & Hmem & Hall); [lia..|].
    exists entries, (ops0 ++ ops). cbn [cells oplog].
    rewrite <- app_assoc. split; [done|].
    split; [by rewrite forallb_app, Hops0, Hops|]. done. }
  cbn [list_slots]. rewrite Hint.
  destruct (flash_area_open cfg
              (flash_area_id_from_multi_image_slot cfg 0 slot))
    as [rc [fap|]] eqn:Hopen.
  2:{ (* the area does not open *)
    destruct (Hrest d []) as (entries & ops & -> & Hops & Hsub & Hmem & Hall);
      [rewrite app_nil_r; by destruct d|done|].
    exists entries, ops. split; [done|]. split; [done|].
    split; [rewrite HS, seqZ_cons by lia; rewrite Z.pred_succ;
            by apply sublist_cons|].
    split; [|done]. intros s. rewrite Hmem. split.
    - intros (? & ?). split; [lia|done].
    - intros (Hs & [fap' Hfap] & ?). split; [|by eauto].
      destruct (Z.eq_dec s slot) as [->|]; [congruence|lia]. }
  assert (rc = 0) as ->.
  { unfold flash_area_open in Hopen.
    destruct (prv_lookup_flash_area _ _); by simplify_eq. }
  unfold bind at 1.
  destruct (read_image_header_frame cfg env (list_probe lst slot) fap d)
    as (hdr & opsh & -> & Hopsh).
  destruct (sp_magic (list_probe lst slot)
            && sp_fih_success (list_probe lst slot)) eqn:Hvalid; cbn [negb].
  2:{ (* no magic, or the validation failed *)
    destruct (Hrest _ opsh eq_refl Hopsh)
      as (entries & ops & -> & Hops & Hsub & Hmem & Hall).
    exists entries, ops. split; [done|]. split; [done|].
    split; [rewrite HS, seqZ_cons by lia; rewrite Z.pred_succ;
            by apply sublist_cons|].
    split; [|done]. intros s. rewrite Hmem. split.
    - intros (? & ?). split; [lia|done].
    - intros (Hs & ? & Hm & Hf). split; [|done].
      destruct (Z.eq_dec s slot) as [->|]; [|lia].
      rewrite Hm, Hf in Hvalid. done. }
  apply andb_true_iff in Hvalid as [Hmagic Hfih].
  unfold bind at 1.
  destruct (boot_serial_get_hash_frame cfg env (list_probe lst slot) fap
              (mk_chip (cells d) (oplog d ++ opsh)))
    as (r & ops0 & Hhash & Hops0).
  rewrite Hhash. unfold bind at 1. cbn [cells oplog].
  rewrite <- app_assoc.
  destruct (Hrest _ (opsh ++ ops0) eq_refl)
    as (entries & ops & -> & Hops & Hsub & Hmem & Hall);
    [by rewrite forallb_app, Hopsh, Hops0|].
  eexists (_ :: entries), ops. unfold ret. split; [done|]. split; [done|].
  cbn [map e_slot].
  split; [rewrite HS, seqZ_cons by lia; rewrite Z.pred_succ;
          by apply sublist_skip|].
  split.
  - intros s. rewrite elem_of_cons, Hmem. split.
    + intros [->|(? & ?)]; [|split; [lia|done]].
      split; [lia|]. split; [by exists fap|done].
    + intros (Hs & ?). destruct (Z.eq_dec s slot); [by left|right].
      split; [lia|done].
  - apply Forall_cons_2; [|done].
    cbn [e_active e_confirmed e_pending e_permanent e_slot e_bootable e_hash].
    split; [by destruct (swap_flags lst swap_status slot)|].
    split; [done|]. intros h ->.
    eexists fap, (mk_chip (cells d) (oplog d ++ opsh)), _.
    split; [done|]. split; [done|]. exact Hhash.
Qed.

(** X19.  [bs_list] changes no byte of the flash and makes raw reads only.  Its
    entries are in the order of the slots, at most one per slot, and a slot
    below [BOOT_NUM_SLOTS] has an entry exactly when its area opens, its
    header has the image magic and the validation succeeded.  A hash in an
    entry is the one [boot_serial_get_hash] reads from that slot. *)
Theorem bs_list_lists_validated_slots (d : chip) :
  0 <= BOOT_NUM_SLOTS lst < 2 ^ 31 ->
  exists entries ops,
    bs_list cfg env lst d = (entries, mk_chip (cells d) (oplog d ++ ops))
    /\ forallb is_raw_read ops = true
    /\ map e_slot entries `sublist_of` seqZ 0 (BOOT_NUM_SLOTS lst)
    /\ (forall s,
          s ∈ map e_slot entries <->
          0 <= s < BOOT_NUM_SLOTS lst
          /\ (exists fap,
                 flash_area_open cfg
                   (flash_area_id_from_multi_image_slot cfg 0 s)
                 = (0, Some fap))
          /\ sp_magic (list_probe lst s) = true
          /\ sp_fih_success (list_probe lst s) = true)
    /\ Forall (fun e =>
                 forall h,
                   e_hash e = Some h ->
                   exists fap d1 d2,
                     flash_area_open cfg
                       (flash_area_id_from_multi_image_slot cfg 0 (e_slot e))
                     = (0, Some fap)
                     /\ cells d1 = cells d
                     /\ boot_serial_get_hash cfg env
                          (list_probe lst (e_slot e)) fap d1
                        = (Some h, d2))
              entries.
Proof.
  intros Hn. unfold bs_list.
  destruct (list_slots_entries (Z.to_nat (BOOT_NUM_SLOTS lst)) 0
              (boot_swap_type_multi lst 0) d)
    as (entries & ops & -> & Hops & Hsub & Hmem & Hall); [lia..|].
  rewrite Z2Nat.id in * by lia.
  exists entries, ops. do 3 (split; [done|]).
  split; [intros s; rewrite Hmem; split; intros (? & ?); (split; [lia|done])|].
  eapply Forall_impl; [exact Hall|]. by intros e (_ & _ & ?).
Qed.

(** X20.  The flags of the entries of [bs_list], whatever the swap type: a
    permanent entry is pending; a pending entry is not the primary slot and
    is not confirmed; an active entry is the primary slot; and the confirmed
    entries are all on the primary slot or all on the other slots, so that
    with two slots at most one entry is confirmed. *)
Theorem bs_list_flags_consistent (d : chip) :
  0 <= BOOT_NUM_SLOTS lst < 2 ^ 31 ->
  let entries := fst (bs_list cfg env lst d) in
  Forall (fun e =>
            (e_permanent e = true -> e_pending e = true)
            /\ (e_pending e = true -> e_slot e <> BOOT_PRIMARY_SLOT lst)
            /\ (e_active e = true -> e_slot e = BOOT_PRIMARY_SLOT lst)
            /\ (e_confirmed e = true -> e_pending e = false))
         entries
  /\ forall e1 e2,
      e1 ∈ entries -> e2 ∈ entries ->
      e_confirmed e1 = true -> e_confirmed e2 = true ->
      (e_slot e1 = BOOT_PRIMARY_SLOT lst <-> e_slot e2 = BOOT_PRIMARY_SLOT lst).
Proof.
  intros Hn entries. unfold entries, bs_list.
  destruct (list_slots_entries (Z.to_nat (BOOT_NUM_SLOTS lst)) 0
              (boot_swap_type_multi lst 0) d)
    as (es & ops & -> & _ & _ & _ & Hall); [lia..|].
  cbn [fst].
  assert (Forall (fun e =>
                    mk_slot_flags (e_active e) (e_confirmed e) (e_pending e)
                                  (e_permanent e)
                    = swap_flags lst (boot_swap_type_multi lst 0) (e_slot e))
                 es) as Hflags
    by (eapply Forall_impl; [exact Hall|]; by intros e (? & _)).
  clear Hall. rewrite Forall_forall in Hflags. split.
  - apply Forall_forall. intros e He. specialize (Hflags e He).
    unfold swap_flags in Hflags.
    destruct (Z.eqb_spec (e_slot e) (BOOT_PRIMARY_SLOT lst));
      repeat (destruct (_ =? _) in Hflags);
      injection Hflags as -> -> -> ->; done.
  - intros e1 e2 He1 He2 Hc1 Hc2.
    pose proof (Hflags e1 He1) as H1. pose proof (Hflags e2 He2) as H2.
    unfold swap_flags in H1, H2. rewrite Hc1 in H1. rewrite Hc2 in H2.
    destruct (Z.eqb_spec (e_slot e1) (BOOT_PRIMARY_SLOT lst));
      destruct (Z.eqb_spec (e_slot e2) (BOOT_PRIMARY_SLOT lst));
      try done;
      repeat (destruct (boot_swap_type_multi lst 0 =? _) in H1, H2);
      done.
Qed.

End ListingFacts.

Lemma bs_list_lists_validated_slots_witness :
  exists entries ops,
    bs_list demo_cfg demo_env demo_lst demo_chip
    = (entries, mk_chip (cells demo_chip) (oplog demo_chip ++ ops))
    /\ forallb is_raw_read ops = true
    /\ map e_slot entries `sublist_of` seqZ 0 (BOOT_NUM_SLOTS demo_lst)
    /\ (forall s,
          s ∈ map e_slot entries <->
          0 <= s < BOOT_NUM_SLOTS demo_lst
          /\ (exists fap,
                 flash_area_open demo_cfg
                   (flash_area_id_from_multi_image_slot demo_cfg 0 s)
                 = (0, Some fap))
          /\ sp_magic (list_probe demo_lst s) = true
          /\ sp_fih_success (list_probe demo_lst s) = true)
    /\ Forall (fun e =>
                 forall h,
                   e_hash e = Some h ->
                   exists fap d1 d2,
                     flash_area_open demo_cfg
                       (flash_area_id_from_multi_image_slot demo_cfg 0
                                                            (e_slot e))
                     = (0, Some fap)
                     /\ cells d1 = cells demo_chip
                     /\ boot_serial_get_hash demo_cfg demo_env
                          (list_probe demo_lst (e_slot e)) fap d1
                        = (Some h, d2))
              entries.
Proof.
  apply (bs_list_lists_validated_slots demo_cfg demo_env demo_lst demo_chip).
  vm_compute. split; congruence.
Defined.

Lemma bs_list_flags_consistent_witness :
  let entries := fst (bs_list demo_cfg demo_env demo_lst demo_chip) in
  Forall (fun e =>
            (e_permanent e = true -> e_pending e = true)
            /\ (e_pending e = true -> e_slot e <> BOOT_PRIMARY_SLOT demo_lst)
            /\ (e_active e = true -> e_slot e = BOOT_PRIMARY_SLOT demo_lst)
            /\ (e_confirmed e = true -> e_pending e = false))
         entries
  /\ forall e1 e2,
      e1 ∈ entries -> e2 ∈ entries ->
      e_confirmed e1 = true -> e_confirmed e2 = true ->
      (e_slot e1 = BOOT_PRIMARY_SLOT demo_lst
       <-> e_slot e2 = BOOT_PRIMARY_SLOT demo_lst).
Proof.
  apply (bs_list_flags_consistent demo_cfg demo_env demo_lst demo_chip).
  vm_compute. split; congruence.
Defined.

(** ** The version text *)

Lemma length_append (s1 s2 : string) :
  String.length (String.append s1 s2)
  = (String.length s1 + String.length s2)%nat.
Proof. induction s1 as [|a s1 IH]; simpl; [done|]. by rewrite IH. Qed.

Lemma length_substring_0 (n : nat) (s : string) :
  String.length (substring 0 n s) = Nat.min n (String.length s).
Proof.
  revert s. induction n as [|n IH]; intros [|a s]; simpl; try done.
  by rewrite IH.
Qed.

Lemma substring_0_all (n : nat) (s : string) :
  (String.length s <= n)%nat -> substring 0 n s = s.
Proof.
  revert s. induction n as [|n IH]; intros [|a s]; simpl; try done; try lia.
  intros Hle. rewrite IH; [done|lia].
Qed.

Lemma decimal_grows (fuel : nat) :
  forall (n : Z) (acc : string),
    (String.length acc <= String.length (decimal fuel n acc))%nat.
Proof.
  induction fuel as [|fuel IH]; intros n acc; cbn [decimal]; [lia|].
  destruct (_ =? _); [simpl; lia|].
  pose proof (IH (n / 10) (String (digit (n mod 10)) acc)) as Hrec.
  cbn [String.length] in Hrec. lia.
Qed.

Lemma length_decimal (fuel : nat) :
  forall (k : nat) (n : Z) (acc : string),
    (1 <= k)%nat -> 0 <= n < 10 ^ Z.of_nat k ->
    (String.length (decimal fuel n acc) <= k + String.length acc)%nat.
Proof.
  induction fuel as [|fuel IH]; intros k n acc Hk Hn; cbn [decimal]; [lia|].
  destruct (Z.eqb_spec (n / 10) 0) as [Hz|Hnz]; [simpl; lia|].
  destruct k as [|[|k]]; [lia| |].
  { change (10 ^ Z.of_nat 1) with 10 in Hn.
    exfalso. apply Hnz. apply Z.div_small. lia. }
  pose proof (IH (S k) (n / 10) (String (digit (n mod 10)) acc)) as Hrec.
  cbn [String.length] in Hrec.
  assert (0 <= n / 10 < 10 ^ Z.of_nat (S k)) as Hdiv.
  { split; [apply Z.div_pos; lia|].
    apply Z.div_lt_upper_bound; [lia|].
    replace (Z.of_nat (S (S k))) with (Z.succ (Z.of_nat (S k))) in Hn by lia.
    rewrite Z.pow_succ_r in Hn by lia. lia. }
  specialize (Hrec ltac:(lia) Hdiv). lia.
Qed.

Lemma decimal_nonempty (fuel : nat) (n : Z) (acc : string) :
  (S (String.length acc) <= String.length (decimal (S fuel) n acc))%nat.
Proof.
  cbn [decimal]. destruct (_ =? _); [simpl; lia|].
  pose proof (decimal_grows fuel (n / 10) (String (digit (n mod 10)) acc))
    as Hrec.
  cbn [String.length] in Hrec. lia.
Qed.

Lemma length_print_u (k : nat) (n : Z) :
  (1 <= k)%nat -> 0 <= n < 10 ^ Z.of_nat k ->
  (1 <= String.length (print_u n) <= k)%nat.
Proof.
  intros Hk Hn. unfold print_u. split.
  - pose proof (decimal_nonempty 9 n EmptyString) as Hlen.
    cbn [String.length] in Hlen. exact Hlen.
  - pose proof (length_decimal 10 k n EmptyString Hk Hn) as Hlen.
    cbn [String.length] in Hlen. lia.
Qed.

(** X21.  For a buffer size [maxlen] above 0, the text [bs_list_img_ver] leaves
    in the buffer is shorter than [maxlen], so that it fits with its NUL.
    From 29 bytes on (the caller passes 64) nothing is cut: the text is
    major, minor and revision in decimal, separated by dots, followed by a
    dot and the build number exactly when the build number is not 0. *)
Theorem bs_list_img_ver_fits (dst : string) (maxlen : Z)
        (ver : image_version) :
  0 < maxlen < 2 ^ 31 ->
  let dot := String "."%char EmptyString in
  let release :=
    String.append (print_u (u16 (iv_major ver)))
      (String.append dot
         (String.append (print_u (u16 (iv_minor ver)))
            (String.append dot (print_u (u16 (iv_revision ver)))))) in
  Z.of_nat (String.length (bs_list_img_ver dst maxlen ver)) < maxlen
  /\ (29 <= maxlen ->
      bs_list_img_ver dst maxlen ver
      = if iv_build_num ver =? 0 then release
        else String.append release
               (String.append dot (print_u (u32 (iv_build_num ver))))).
Proof.
  intros Hmax dot release.
  assert (forall x, (1 <= String.length (print_u (u16 x)) <= 5)%nat) as H16.
  { intros x. apply length_print_u; [lia|].
    unfold u16. pose proof (Z.mod_pos_bound x (2 ^ 16) ltac:(lia)).
    change (10 ^ Z.of_nat 5) with 100000. lia. }
  assert ((1 <= String.length (print_u (u32 (iv_build_num ver))) <= 10)%nat)
    as H32.
  { apply length_print_u; [lia|].
    pose proof (u32_range (iv_build_num ver)).
    change (10 ^ Z.of_nat 10) with 10000000000. lia. }
  assert ((5 <= String.length release <= 17)%nat) as Hrel.
  { unfold release. rewrite !length_append. cbn [String.length dot].
    pose proof (H16 (iv_major ver)). pose proof (H16 (iv_minor ver)).
    pose proof (H16 (iv_revision ver)). lia. }
  unfold bs_list_img_ver. cbv zeta. fold dot. fold release.
  unfold snprintf. cbn [fst snd]. rewrite (u32_id maxlen) by lia.
  destruct (Z.eqb_spec maxlen 0) as [|_]; [lia|].
  rewrite (proj2 (Z.ltb_lt 0 (Z.of_nat (String.length release))))
    by lia.
  rewrite andb_true_r.
  destruct (Z.eqb_spec (iv_build_num ver) 0) as [Hb|Hb]; cbn [negb andb].
  { rewrite length_substring_0. split; [lia|].
    intros Hbig. apply substring_0_all. lia. }
  destruct (Z.ltb_spec (Z.of_nat (String.length release)) maxlen) as [Hlt|Hge].
  - rewrite (substring_0_all _ release) by lia.
    rewrite (u32_id (maxlen - _)) by lia.
    destruct (Z.eqb_spec (maxlen - Z.of_nat (String.length release)) 0)
      as [|_]; [lia|].
    rewrite length_append, length_substring_0. split; [lia|].
    intros Hbig. f_equal. apply substring_0_all.
    rewrite length_append. cbn [String.length dot]. lia.
  - rewrite length_substring_0. split; lia.
Qed.

Lemma bs_list_img_ver_fits_witness :
  let ver := mk_image_version 1 2 3 4 in
  let dot := String "."%char EmptyString in
  let release :=
    String.append (print_u (u16 (iv_major ver)))
      (String.append dot
         (String.append (print_u (u16 (iv_minor ver)))
            (String.append dot (print_u (u16 (iv_revision ver)))))) in
  Z.of_nat (String.length (bs_list_img_ver EmptyString 64 ver)) < 64
  /\ (29 <= 64 ->
      bs_list_img_ver EmptyString 64 ver
      = if iv_build_num ver =? 0 then release
        else String.append release
               (String.append dot (print_u (u32 (iv_build_num ver))))).
Proof.
  apply (bs_list_img_ver_fits EmptyString 64 (mk_image_version 1 2 3 4)). lia.
Defined.

